(** * The query pipeline of the news chatbot, embedded in Rocq

    Shallow embedding of [backend/services/ragService.js] (class
    [RAGService]), of the list operations of [backend/config/redis.js]
    (class [MemoryStorage]) and of the entry points that call the service
    ([backend/routes/chat.js] and the socket handler of the server file),
    followed by the properties of the pipeline.

    Conventions of the embedding.
    - A JavaScript string is a [string]; one character stands for one
      UTF-16 code unit, so the model covers texts whose code units are
      below 256.
    - A JavaScript number that holds an integer (a length, an index, a
      limit, a hash) is a [Z]; the 32-bit wrap-around of the bit operators
      is written out ([toInt32]).
    - Scores and vector components are numbers in double precision
      ([float], the binary64 numbers of the kernel): sums, products,
      differences and quotients round as they do in JavaScript, and
      [NaN], the infinities and the two zeros are there.
    - What the language leaves to the engine is a field of the class
      [Host]: [Math.sqrt] away from [+0], the order in which
      [Array.prototype.sort] leaves an array whose comparator is not
      consistent, the exponent notation of a number of magnitude [1e21]
      or more; with them stands the score of a query that is a string or
      an object, whose characters and properties the model does not
      hold.
    - An [async] method is a computation in the monad [M]: it threads the
      machine (the service object, the session store and the trace of
      calls made so far) and either returns or throws.
    - What the outside answers (embedding provider, vector index, text
      generator, session store, clock) is a [World]. *)

From Stdlib Require Import ZArith String Ascii List Lia Bool Floats.
From Stdlib Require Import Permutation Sorted DecimalString.
From stdpp Require Import gmap strings list.
Import ListNotations.

Local Open Scope Z_scope.

(** ** Host language primitives *)

Module Js.

(** [s.charCodeAt(i)] of one character. *)
Definition charCode (c : ascii) : Z := Z.of_N (N_of_ascii c).

Definition in_range (lo hi n : Z) : bool := (lo <=? n) && (n <=? hi).

(** The character class [[a-z0-9]]. *)
Definition is_lower_alnum (c : ascii) : bool :=
  in_range 97 122 (charCode c) || in_range 48 57 (charCode c).

(** [toLowerCase] on code units below 256: A-Z and the Latin-1 capitals. *)
Definition lower_char (c : ascii) : ascii :=
  let n := charCode c in
  if in_range 65 90 n || in_range 192 214 n || in_range 216 222 n
  then ascii_of_N (Z.to_N (n + 32)) else c.

Fixpoint toLowerCase (s : string) : string :=
  match s with
  | EmptyString => EmptyString
  | String c s' => String (lower_char c) (toLowerCase s')
  end.

(** White space and line terminators below 256, as [trim] strips them. *)
Definition is_space (c : ascii) : bool :=
  let n := charCode c in
  in_range 9 13 n || (n =? 32) || (n =? 160).

Fixpoint trimStart (s : string) : string :=
  match s with
  | EmptyString => EmptyString
  | String c s' => if is_space c then trimStart s' else s
  end.

(** Strips trailing white space: a suffix made of spaces only is dropped. *)
Fixpoint trimEnd (s : string) : string :=
  match s with
  | EmptyString => EmptyString
  | String c s' =>
      match trimEnd s' with
      | EmptyString => if is_space c then EmptyString else String c EmptyString
      | t => String c t
      end
  end.

Definition trim (s : string) : string := trimEnd (trimStart s).

(** Truthiness of a string: [Boolean(s)], [!s] is its negation. *)
Definition truthy (s : string) : bool :=
  match s with EmptyString => false | _ => true end.

(** [hay.includes(needle)]. *)
Fixpoint includes (needle hay : string) : bool :=
  String.prefix needle hay ||
  match hay with
  | EmptyString => false
  | String _ hay' => includes needle hay'
  end.

(** Relative index of [Array.prototype.slice]: negative counts from the
    end, everything is clamped to [0 .. len]. *)
Definition rel_index (len i : Z) : Z :=
  if i <? 0 then Z.max (len + i) 0 else Z.min i len.

(** [l.slice(start, stop)]; [stop = None] is [undefined]. *)
Definition slice {A} (l : list A) (start : Z) (stop : option Z) : list A :=
  let len := Z.of_nat (length l) in
  let k := rel_index len start in
  let final := match stop with None => len | Some e => rel_index len e end in
  take (Z.to_nat (final - k)) (drop (Z.to_nat k) l).

(** [s.substring(0, n)] for [n >= 0]. *)
Definition substring0 (n : nat) (s : string) : string := String.substring 0 n s.

(** Decimal rendering of an integer inside a template literal. *)
Definition showZ (z : Z) : string := NilZero.string_of_int (Z.to_int z).

(** A number used as a condition: [0], [-0] and [NaN] are falsy. *)
Definition falsy (x : float) : bool := (x =? 0)%float || PrimFloat.is_nan x.

(** [x || d] on a number. *)
Definition num_or (x d : float) : float := if falsy x then d else x.

(** [Math.round] of a finite number that is not zero, given by its sign,
    its mantissa and its exponent: the integer nearest to
    [(-1)^s * m * 2^e], halves go up. *)
Definition round_half_up (s : bool) (m : positive) (e : Z) : Z :=
  let n := if s then Zneg m else Zpos m in
  if 0 <=? e then n * 2 ^ e
  else (2 * n + 2 ^ (- e)) / 2 ^ (1 - e).

(** [JSON.parse(JSON.stringify(x))] on a number: [NaN] and the
    infinities come back as [null], [-0] as [0]. *)
Definition json_number (x : float) : option float :=
  if PrimFloat.is_nan x || PrimFloat.is_infinity x then None
  else if (x =? 0)%float then Some 0%float
  else Some x.

(** [x || d] on a possibly absent string: [undefined] and [''] are falsy. *)
Definition str_or (x : option string) (d : string) : string :=
  match x with
  | Some s => if truthy s then s else d
  | None => d
  end.

(** [parts.join(sep)]. *)
Fixpoint join (sep : string) (parts : list string) : string :=
  match parts with
  | [] => EmptyString
  | [p] => p
  | p :: rest => p +:+ sep +:+ join sep rest
  end.

(** ToInt32: the operand of a bit operator, as a signed 32-bit integer. *)
Definition toInt32 (x : Z) : Z := (x + 2 ^ 31) mod 2 ^ 32 - 2 ^ 31.

(** [a ^ b]. *)
Definition xor (a b : Z) : Z := toInt32 (Z.lxor (toInt32 a) (toInt32 b)).

(** [a << n]. *)
Definition shl (a n : Z) : Z := toInt32 (Z.shiftl (toInt32 a) (n mod 32)).

End Js.

(** A computation returns a value or throws; of what is thrown the
    pipeline reads the message only. *)
Inductive Outcome (A : Type) :=
| Return (a : A)
| Throw (message : string).
Arguments Return {A} a.
Arguments Throw {A} message.

(** A value that is not an array, as far as the pipeline can meet one
    under [embedding] in the reply of the provider. *)
Inductive JsValue :=
| JsUndefined
| JsNull
| JsBoolean (b : bool)
| JsNumber (x : float)
| JsString (s : string)
| JsObject (json : string).

(** What the language leaves to the engine.
    - [Math.sqrt] is implementation-approximated; at [+0] it is [+0].
    - [Array.prototype.sort] with a comparator that is not consistent
      leaves the elements in an implementation-defined order.
    - [exponential] is the rendering in a template literal of a finite
      number of magnitude [1e21] or more.
    - [score_outside value vector] is what the closure [cosine] of
      [searchSimilar] returns or throws for a query that is a string or
      an object other than an array: the reads of [length] and of the
      indices of such a value and their conversion to numbers depend on
      the characters and on the properties, which the model does not
      hold. *)
Class Host := {
  Math_sqrt : float -> float;
  Math_sqrt_zero : Math_sqrt 0%float = 0%float;
  unspecified_order : forall A : Type, (A -> A -> float) -> list A -> list A;
  unspecified_order_perm :
    forall (A : Type) (cmp : A -> A -> float) (l : list A),
      Permutation (unspecified_order A cmp l) l;
  exponential : float -> string;
  score_outside : JsValue -> list float -> Outcome float
}.

(** ** Data model *)

(** The metadata of a chunk, as far as the pipeline reads it.  A field
    that is absent is [None]. *)
Record Metadata := {
  md_title : option string;
  md_summary : option string;
  md_url : option string;
  md_source : option string
}.

(** A point identifier of the vector store: a number or a UUID string. *)
Inductive PointId :=
| NumId (n : Z)
| UuidId (s : string).

(** What a caller may pass as an identifier. *)
Inductive RawId :=
| RawNum (n : Z)
| RawStr (s : string).

(** A value of [memoryStore]. *)
Record Entry := {
  entry_id : PointId;
  entry_text : string;
  entry_vector : list float;
  entry_metadata : Metadata
}.

(** A retrieved match.  Matches of the indexed backend carry no [id]. *)
Record Doc := {
  doc_id : option PointId;
  doc_text : string;
  doc_score : float;
  doc_metadata : Metadata
}.

(** One element of [sources]. *)
Record Source := {
  src_title : string;
  src_url : string;
  src_score : float
}.

(** One element of [sources] as it comes back from the transcript: the
    score went through JSON, [None] is [null]. *)
Record StoredSource := {
  stored_title : string;
  stored_url : string;
  stored_score : option float
}.

Inductive Role := user | assistant.

(** A transcript entry, as [JSON.parse] gives it back: the session store
    holds the messages in this form.  Strings go through JSON unchanged,
    numbers as [Js.json_number] has it. *)
Record ChatMessage := {
  msg_type : Role;
  msg_content : string;
  msg_timestamp : string;
  msg_sources : option (list StoredSource)
}.

(** The value [processQuery] returns and [onComplete] receives. *)
Record QueryResult := {
  response : string;
  sources : list Source
}.

(** The fields of a [RAGService] object.  [memoryStore] is a JavaScript
    [Map]: an association list in insertion order of the keys. *)
Record RAGService := {
  useMemoryStorage : bool;
  memoryStore : option (list (PointId * Entry));
  jinaApiKey : option string;
  embeddingDim : option Z
}.

(** ** The outside world *)

(** What [generateEmbedding] returns and [searchSimilar] receives: an
    array of numbers, or the value that the provider put under
    [embedding]. *)
Inductive Embedding :=
| Vector (vec : list float)
| NotArray (value : JsValue).

(** Outcome of the request to the embedding provider: the request
    fails; the reply has no [data], no [data.data] or no [data.data[0]];
    [data.data[0].embedding] is an array, whose elements the model takes
    to be numbers; it is not an array, [undefined] when the field is
    missing. *)
Inductive EmbedReply :=
| EmbedFails (message : string)
| EmbedMalformed
| EmbedVector (vec : list float)
| EmbedOther (value : JsValue).

(** One hit of the indexed backend. *)
Record QdrantHit := {
  hit_text : string;
  hit_payload : Metadata;
  hit_score : float
}.

Inductive QdrantReply :=
| QdrantFails (message : string)
| QdrantHits (hits : list QdrantHit).

(** Outcome of [model.generateContent]. *)
Inductive GenReply :=
| GenFails (message : string)
| GenText (text : string).

(** Outcome of [model.generateContentStream]: the fragments the stream
    yields, and the error it throws after them, if any.  A call that is
    rejected at once is a stream that fails before its first fragment. *)
Record StreamReply := {
  stream_chunks : list string;
  stream_failure : option string
}.

(** The variables of [process.env] the service reads.  [EMBEDDING_DIM]
    is given as [parseInt] reads it: [None] when it is not a number. *)
Record Env := {
  USE_MEMORY_STORAGE : option string;
  QDRANT_URL : option string;
  JINA_API_KEY : option string;
  EMBEDDING_DIM : option Z
}.

Record World := {
  process_env : Env;
  embedding_api : string -> EmbedReply;
  qdrant_search : Embedding -> Z -> QdrantReply;
  (** [Some e] when the upsert into the index is rejected with [e]. *)
  qdrant_upsert_failure : option string;
  generateContent : string -> GenReply;
  generateContentStream : string -> StreamReply;
  (** [Some e] when the calls to the session store are rejected with [e]. *)
  redis_failure : option string;
  (** [new Date().toISOString()] *)
  now : string;
  (** [uuidv4()] *)
  uuid : string;
  (** the identifier synthesized from the clock and a random number *)
  synthesized_id : Z
}.

(** ** Machine and effects *)

(** The calls a run makes, in the order in which it makes them. *)
Inductive Event :=
| EvGenerateEmbedding (text : string)
| EvEmbeddingApi (text : string)
| EvSearchSimilar (queryEmbedding : Embedding) (topK : Z)
| EvQdrantSearch (queryEmbedding : Embedding) (topK : Z)
| EvQdrantUpsert (id : PointId) (vector : list float)
| EvGenerateContent (prompt : string)
| EvGenerateContentStream (prompt : string)
| EvOnChunk (fragment : string)
| EvOnComplete (result : QueryResult)
| EvLPush (key : string) (message : ChatMessage)
| EvLRange (key : string) (start stop : Z)
| EvDel (key : string).

Record Machine := {
  this : RAGService;
  redis : gmap string (list ChatMessage);
  trace : list Event
}.

Definition M (A : Type) : Type := Machine -> Machine * Outcome A.

Definition ret {A} (a : A) : M A := fun m => (m, Return a).

Definition throw {A} (message : string) : M A := fun m => (m, Throw message).

Definition bind {A B} (c : M A) (k : A -> M B) : M B :=
  fun m =>
    match c m with
    | (m', Return a) => k a m'
    | (m', Throw e) => (m', Throw e)
    end.

(** [try { c } catch (error) { handler error }]: the effects of [c] up to
    the throw stay. *)
Definition try_catch {A} (c : M A) (handler : string -> M A) : M A :=
  fun m =>
    match c m with
    | (m', Return a) => (m', Return a)
    | (m', Throw e) => handler e m'
    end.

Notation "'let*' x := c1 'in' c2" := (bind c1 (fun x => c2))
  (at level 10, x name, c1 at level 100, c2 at level 200).
Notation "c1 ;; c2" := (bind c1 (fun _ => c2))
  (at level 100, c2 at level 200, right associativity).

Definition emit (e : Event) : M unit :=
  fun m => ({| this := this m; redis := redis m; trace := trace m ++ [e] |}, Return tt).

Definition get_this : M RAGService := fun m => (m, Return (this m)).

Definition set_this (svc : RAGService) : M unit :=
  fun m => ({| this := svc; redis := redis m; trace := trace m |}, Return tt).

(** ** The session store *)

Module Redis.

(** LRANGE on a list, as the Redis command reference defines it (the
    server and its client are not part of the repository): negative
    indexes count from the end, a stop past the end is the last element,
    an empty range is the empty list. *)
Definition lrange {A} (l : list A) (start stop : Z) : list A :=
  let llen := Z.of_nat (length l) in
  let start := if start <? 0 then llen + start else start in
  let stop := if stop <? 0 then llen + stop else stop in
  let start := if start <? 0 then 0 else start in
  if (start >? stop) || (start >=? llen) then []
  else
    let stop := if stop >=? llen then llen - 1 else stop in
    take (Z.to_nat (stop - start + 1)) (drop (Z.to_nat start) l).

(** The list under a key; a key that does not exist holds the empty list. *)
Definition list_at (db : gmap string (list ChatMessage)) (key : string)
  : list ChatMessage := default [] (db !! key).

(** [redisClient.lPush(key, value)] *)
Definition lPush (w : World) (key : string) (value : ChatMessage) : M Z :=
  fun m =>
    match redis_failure w with
    | Some e => (m, Throw e)
    | None =>
        let l := value :: list_at (redis m) key in
        ({| this := this m;
            redis := <[key := l]> (redis m);
            trace := trace m ++ [EvLPush key value] |},
         Return (Z.of_nat (length l)))
    end.

(** [redisClient.lRange(key, start, stop)] *)
Definition lRange (w : World) (key : string) (start stop : Z)
  : M (list ChatMessage) :=
  fun m =>
    match redis_failure w with
    | Some e => (m, Throw e)
    | None =>
        ({| this := this m; redis := redis m;
            trace := trace m ++ [EvLRange key start stop] |},
         Return (lrange (list_at (redis m) key) start stop))
    end.

(** [redisClient.del(key)] *)
Definition del (w : World) (key : string) : M Z :=
  fun m =>
    match redis_failure w with
    | Some e => (m, Throw e)
    | None =>
        ({| this := this m; redis := delete key (redis m);
            trace := trace m ++ [EvDel key] |},
         Return (match redis m !! key with Some _ => 1 | None => 0 end))
    end.

End Redis.

(** The stand-in of [config/redis.js] for a process without a Redis
    server.  Its methods are spelled [lpush] and [lrange]; the service
    calls [lPush] and [lRange], which this class does not define, so with
    it every call of the service to the store is rejected: that is the
    world with [redis_failure = Some _]. *)
Module MemoryStorage.

(** [lpush(key, ...values)]: [list.unshift(...values)], the new length. *)
Definition lpush {A} (data : gmap string (list A)) (key : string)
    (values : list A) : gmap string (list A) * Z :=
  let list := default [] (data !! key) in
  let list := values ++ list in
  (<[key := list]> data, Z.of_nat (length list)).

(** [lrange(key, start, stop)] *)
Definition lrange {A} (data : gmap string (list A)) (key : string)
    (start stop : Z) : list A :=
  let list := default [] (data !! key) in
  Js.slice list start (if stop =? -1 then None else Some (stop + 1)).

End MemoryStorage.

(** ** The service: [class RAGService] *)

Section RAGService.

Context `{Host}.

Definition nl : string := String (ascii_of_nat 10) EmptyString.
Definition dquote : string := String (ascii_of_nat 34) EmptyString.

(** A value used as a condition. *)
Definition truthy_key (k : option string) : bool :=
  match k with Some s => Js.truthy s | None => false end.

(** [this.embeddingDim] used as a condition: [null] and [0] are falsy. *)
Definition truthy_dim (d : option Z) : option Z :=
  match d with
  | Some n => if n =? 0 then None else Some n
  | None => None
  end.

Definition set_embeddingDim (d : Z) : M unit :=
  let* svc := get_this in
  set_this {| useMemoryStorage := useMemoryStorage svc;
              memoryStore := memoryStore svc;
              jinaApiKey := jinaApiKey svc;
              embeddingDim := Some d |}.

(** [while (padded.length < dim) padded.push(0)]; [fuel] bounds the
    number of turns. *)
Fixpoint pad_loop (fuel : nat) (dim : Z) (padded : list float) : list float :=
  match fuel with
  | O => padded
  | S fuel' =>
      if Z.of_nat (length padded) <? dim
      then pad_loop fuel' dim (padded ++ [0%float])
      else padded
  end.

(** The three cases of the harmonization with an established dimension. *)
Definition harmonize (dim : Z) (vec : list float) : list float :=
  let len := Z.of_nat (length vec) in
  if len =? dim then vec
  else if len >? dim then Js.slice vec 0 (Some dim)
  else pad_loop (Z.to_nat dim) dim (Js.slice vec 0 None).

(** [text.toLowerCase().split(/[^a-z0-9]+/)]: the pieces between the
    maximal runs of separators; [cur] is the piece being read,
    [in_sep] tells that the previous character was a separator. *)
Fixpoint split_go (in_sep : bool) (cur : string) (s : string) : list string :=
  match s with
  | EmptyString => [cur]
  | String c s' =>
      if Js.is_lower_alnum c
      then split_go false (cur +:+ String c EmptyString) s'
      else if in_sep then split_go true cur s'
      else cur :: split_go true EmptyString s'
  end.

Definition split_non_alnum (s : string) : list string :=
  split_go false EmptyString s.

Definition tokens_of (text : string) : list string :=
  List.filter Js.truthy (split_non_alnum (Js.toLowerCase text)).

(** One turn of the inner loop: [h ^= c], then [h +=] the five shifts. *)
Definition hash_step (h : Z) (c : ascii) : Z :=
  let h := Js.xor h (Js.charCode c) in
  h + (Js.shl h 1 + Js.shl h 4 + Js.shl h 7 + Js.shl h 8 + Js.shl h 24).

Definition token_hash (t : string) : Z :=
  fold_left hash_step (list_ascii_of_string t) 2166136261.

(** [Math.abs(h) % dim] *)
Definition bucket (dim : Z) (t : string) : Z :=
  Z.rem (Z.abs (token_hash t)) dim.

(** [for (const t of tokens) vec[idx] += 1] *)
Definition count_tokens (dim : Z) (tokens : list string) (vec : list float)
  : list float :=
  fold_left
    (fun vec t => alter (fun v => (v + 1)%float) (Z.to_nat (bucket dim t)) vec)
    tokens vec.

(** [Math.sqrt(vec.reduce((s, v) => s + v * v, 0)) || 1] *)
Definition norm_of (vec : list float) : float :=
  Js.num_or (Math_sqrt (fold_left (fun s v => (s + v * v)%float) vec 0%float))
            1%float.

Definition normalize (vec : list float) : list float :=
  let norm := norm_of vec in
  map (fun v => (v / norm)%float) vec.

(** The body of the [catch] of [generateEmbedding].  [new Array(dim)]
    throws for a length that is negative or above [2^32 - 1]. *)
Definition fallbackEmbedding (dim : Z) (text : string) : Outcome Embedding :=
  if (dim <? 0) || (dim >? 2 ^ 32 - 1)
  then Throw "Invalid array length"
  else
    let vec := replicate (Z.to_nat dim) 0%float in
    Return (Vector (normalize (count_tokens dim (tokens_of text) vec))).

(** [async generateEmbedding(text)].  A reply whose [embedding] is not
    an array is returned as it is: both tests of [Array.isArray] fail,
    nothing is thrown and the dimension is not touched. *)
Definition generateEmbedding (w : World) (text : string) : M Embedding :=
  emit (EvGenerateEmbedding text) ;;
  try_catch
    (let* svc := get_this in
     if negb (truthy_key (jinaApiKey svc))
     then throw "Missing JINA_API_KEY"
     else
       emit (EvEmbeddingApi text) ;;
       match embedding_api w text with
       | EmbedFails e => throw e
       | EmbedMalformed => throw "Invalid embedding response"
       | EmbedVector vec =>
           match truthy_dim (embeddingDim svc) with
           | Some dim => ret (Vector (harmonize dim vec))
           | None =>
               set_embeddingDim (Z.of_nat (length vec)) ;;
               ret (Vector vec)
           end
       | EmbedOther value => ret (NotArray value)
       end)
    (fun error =>
       let* svc := get_this in
       let dim := match truthy_dim (embeddingDim svc) with
                  | Some d => d
                  | None => 1024
                  end in
       fun m => (m, fallbackEmbedding dim text)).

(** *** The in-process store *)

Definition PointId_eqb (a b : PointId) : bool :=
  match a, b with
  | NumId x, NumId y => x =? y
  | UuidId x, UuidId y => String.eqb x y
  | _, _ => false
  end.

(** [map.set(key, value)]: a key that is present keeps its place. *)
Fixpoint map_set (store : list (PointId * Entry)) (key : PointId)
    (value : Entry) : list (PointId * Entry) :=
  match store with
  | [] => [(key, value)]
  | (k, v) :: rest =>
      if PointId_eqb k key then (k, value) :: rest
      else (k, v) :: map_set rest key value
  end.

Definition is_hex (c : ascii) : bool :=
  let n := Js.charCode c in
  Js.in_range 48 57 n || Js.in_range 97 102 n || Js.in_range 65 70 n.

Definition one_of (cs : string) (c : ascii) : bool :=
  existsb (Ascii.eqb c) (list_ascii_of_string cs).

(** The classes of the UUID pattern, position by position. *)
Definition uuid_pattern : list (ascii -> bool) :=
  let dash := one_of "-" in
  replicate 8 is_hex ++ [dash] ++
  replicate 4 is_hex ++ [dash] ++
  [one_of "12345"] ++ replicate 3 is_hex ++ [dash] ++
  [one_of "89abAB"] ++ replicate 3 is_hex ++ [dash] ++
  replicate 12 is_hex.

Fixpoint matches (pattern : list (ascii -> bool)) (s : string) : bool :=
  match pattern, s with
  | [], EmptyString => true
  | p :: pattern', String c s' => p c && matches pattern' s'
  | _, _ => false
  end.

Definition isUuid (s : string) : bool := matches uuid_pattern s.

Definition toPointId (w : World) (raw : RawId) : PointId :=
  match raw with
  | RawNum n => if n >=? 0 then NumId n else NumId (Z.abs (synthesized_id w))
  | RawStr s => if isUuid s then UuidId s else NumId (Z.abs (synthesized_id w))
  end.

(** [async storeEmbedding(id, text, embedding, metadata)] *)
Definition storeEmbedding (w : World) (id : RawId) (text : string)
    (embedding : list float) (metadata : Metadata) : M unit :=
  let pointId := toPointId w id in
  let* svc := get_this in
  if useMemoryStorage svc then
    let store := default [] (memoryStore svc) in
    set_this {| useMemoryStorage := true;
                memoryStore :=
                  Some (map_set store pointId
                          {| entry_id := pointId; entry_text := text;
                             entry_vector := embedding;
                             entry_metadata := metadata |});
                jinaApiKey := jinaApiKey svc;
                embeddingDim := embeddingDim svc |}
  else
    emit (EvQdrantUpsert pointId embedding) ;;
    match qdrant_upsert_failure w with
    | Some e => throw e
    | None => ret tt
    end.

(** [a[i] || 0] *)
Definition at_or_0 (a : list float) (i : nat) : float :=
  match a !! i with
  | Some x => Js.num_or x 0%float
  | None => 0%float
  end.

(** The closure [cosine] of [searchSimilar], on two arrays of numbers. *)
Definition cosine (a b : list float) : float :=
  let '(dot, na, nb) :=
    fold_left
      (fun '(dot, na, nb) i =>
         let av := at_or_0 a i in
         let bv := at_or_0 b i in
         (dot + av * bv, na + av * av, nb + bv * bv)%float)
      (seq 0 (length a)) (0, 0, 0)%float in
  let denom := Js.num_or (Math_sqrt na * Math_sqrt nb)%float 1%float in
  (dot / denom)%float.

(** The comparator [(x, y) => y.score - x.score]. *)
Definition by_score (x y : Doc) : float := (doc_score y - doc_score x)%float.

(** What a comparator says of two elements: [a] goes first (the value is
    below 0), [b] goes first (it is above 0), or neither; [NaN] counts
    as 0. *)
Definition comes_before {A} (cmp : A -> A -> float) (a b : A) : bool :=
  (cmp a b <? 0)%float.

Definition comes_after {A} (cmp : A -> A -> float) (a b : A) : bool :=
  (0 <? cmp a b)%float.

Definition ties {A} (cmp : A -> A -> float) (a b : A) : bool :=
  negb (comes_before cmp a b) && negb (comes_after cmp a b).

(** A consistent comparator for the elements of [l], as the language
    defines it: every element ties with itself, ties are symmetric and
    transitive, and so are the two strict orders. *)
Definition consistent {A} (cmp : A -> A -> float) (l : list A) : bool :=
  forallb
    (fun a =>
       ties cmp a a &&
       forallb
         (fun b =>
            implb (ties cmp a b) (ties cmp b a) &&
            forallb
              (fun c =>
                 implb (ties cmp a b && ties cmp b c) (ties cmp a c) &&
                 implb (comes_before cmp a b && comes_before cmp b c)
                       (comes_before cmp a c) &&
                 implb (comes_after cmp a b && comes_after cmp b c)
                       (comes_after cmp a c))
              l)
         l)
    l.

(** [sort_insert x l] puts [x], which comes before all of [l] in the
    input, into the sorted [l]: an element moves in front of an earlier
    one only when the comparator puts it strictly first. *)
Fixpoint sort_insert {A} (cmp : A -> A -> float) (x : A) (l : list A) : list A :=
  match l with
  | [] => [x]
  | y :: l' =>
      if comes_before cmp y x then y :: sort_insert cmp x l'
      else x :: y :: l'
  end.

(** The stable sort: with a consistent comparator every implementation
    of [Array.prototype.sort] returns this list. *)
Definition stable_sort {A} (cmp : A -> A -> float) (l : list A) : list A :=
  foldr (sort_insert cmp) [] l.

(** [l.sort(cmp)] *)
Definition array_sort {A} (cmp : A -> A -> float) (l : list A) : list A :=
  if consistent cmp l then stable_sort cmp l
  else unspecified_order A cmp l.

Definition score_entry (queryEmbedding : list float) (e : Entry) : Doc :=
  {| doc_id := Some (entry_id e);
     doc_text := entry_text e;
     doc_score := cosine queryEmbedding (entry_vector e);
     doc_metadata := entry_metadata e |}.

(** The closure [cosine] on a query that is not an array.  The read of
    [length] throws on [undefined] and on [null]; on a boolean and on a
    number it gives [undefined], so the loop has no turn. *)
Definition cosine_outside (value : JsValue) (b : list float) : Outcome float :=
  match value with
  | JsUndefined =>
      Throw "Cannot read properties of undefined (reading 'length')"
  | JsNull => Throw "Cannot read properties of null (reading 'length')"
  | JsBoolean _ | JsNumber _ => Return (cosine [] b)
  | JsString _ | JsObject _ => score_outside value b
  end.

(** One turn of the loop over [memoryStore.values()]. *)
Definition scored (queryEmbedding : Embedding) (e : Entry) : Outcome Doc :=
  match queryEmbedding with
  | Vector a => Return (score_entry a e)
  | NotArray value =>
      match cosine_outside value (entry_vector e) with
      | Return score =>
          Return {| doc_id := Some (entry_id e);
                    doc_text := entry_text e;
                    doc_score := score;
                    doc_metadata := entry_metadata e |}
      | Throw error => Throw error
      end
  end.

(** The loop: the first score that throws ends it. *)
Fixpoint score_all (queryEmbedding : Embedding) (entries : list Entry)
  : Outcome (list Doc) :=
  match entries with
  | [] => Return []
  | e :: rest =>
      match scored queryEmbedding e with
      | Throw error => Throw error
      | Return doc =>
          match score_all queryEmbedding rest with
          | Throw error => Throw error
          | Return docs => Return (doc :: docs)
          end
      end
  end.

Definition doc_of_hit (hit : QdrantHit) : Doc :=
  {| doc_id := None;
     doc_text := hit_text hit;
     doc_score := hit_score hit;
     doc_metadata := hit_payload hit |}.

(** The branch of [searchSimilar] over the in-process store. *)
Definition searchMemory (store : option (list (PointId * Entry)))
    (queryEmbedding : Embedding) (topK : Z) : Outcome (list Doc) :=
  match store with
  | None => Return []
  | Some store =>
      if Z.of_nat (length store) =? 0 then Return []
      else
        match score_all queryEmbedding (map snd store) with
        | Throw error => Throw error
        | Return docs => Return (Js.slice (array_sort by_score docs) 0 (Some topK))
        end
  end.

(** [async searchSimilar(queryEmbedding, topK = 5)] *)
Definition searchSimilar (w : World) (queryEmbedding : Embedding) (topK : Z)
  : M (list Doc) :=
  emit (EvSearchSimilar queryEmbedding topK) ;;
  let* svc := get_this in
  if useMemoryStorage svc
  then fun m => (m, searchMemory (memoryStore svc) queryEmbedding topK)
  else
    emit (EvQdrantSearch queryEmbedding topK) ;;
    match qdrant_search w queryEmbedding topK with
    | QdrantFails e => throw e
    | QdrantHits hits => ret (map doc_of_hit hits)
    end.

(** *** Prompts and the fallback answer *)

Definition createPrompt (query context : string) : string :=
  "You are a helpful news assistant. Answer the user's question based on the provided news context. " +:+ nl +:+
  "If the context doesn't contain enough information to answer the question, say so politely." +:+ nl +:+
  nl +:+
  "Context from recent news articles:" +:+ nl +:+
  context +:+ nl +:+
  nl +:+
  "User Question: " +:+ query +:+ nl +:+
  nl +:+
  "Please provide a comprehensive answer based on the news context above. If you reference specific information, try to be specific about which news source or event you're referring to." +:+ nl +:+
  nl +:+
  "Answer:".

Definition createGeneralPrompt (query : string) : string :=
  "You are a friendly and knowledgeable AI assistant. The user is asking: " +:+ dquote +:+ query +:+ dquote +:+ nl +:+
  nl +:+
  "Please provide a helpful, informative, and engaging response. Be conversational, clear, and comprehensive. If the question is about recent news or current events, politely explain that you don't have access to real-time news data, but offer to provide general information about the topic or suggest reliable news sources." +:+ nl +:+
  nl +:+
  "Guidelines:" +:+ nl +:+
  "- Be friendly and conversational" +:+ nl +:+
  "- Provide detailed, helpful answers" +:+ nl +:+
  "- Use examples when appropriate" +:+ nl +:+
  "- If unsure, ask clarifying questions" +:+ nl +:+
  "- Keep responses well-structured and easy to read" +:+ nl +:+
  nl +:+
  "Answer:".

Definition fallback_header : string :=
  "I apologize, but I'm currently experiencing API limitations. However, I can provide you with some relevant information based on the news articles I have:" +:+ nl +:+ nl.

Definition fallback_intro : string :=
  "Here are some relevant news articles I found:" +:+ nl +:+ nl.

Definition fallback_no_articles : string :=
  "Unfortunately, I couldn't find specific articles matching your query at the moment. Please try rephrasing your question or ask about general news topics like:" +:+ nl +:+
  "- Technology developments" +:+ nl +:+
  "- Business news" +:+ nl +:+
  "- Current events" +:+ nl +:+
  "- Breaking news" +:+ nl.

Definition fallback_closing (n : nat) : string :=
  "Based on these " +:+ Js.showZ (Z.of_nat n) +:+
  " relevant articles, I can help answer questions about recent technology developments, news trends, and current events. Please try asking more specific questions about the topics mentioned above.".

Definition title_line (index : Z) (title : string) : string :=
  Js.showZ (index + 1) +:+ ". **" +:+ title +:+ "**" +:+ nl.

(** The snippet: the first 200 characters of the summary, and an
    ellipsis when the summary is longer. *)
Definition summary_line (summary : string) : string :=
  "   " +:+ Js.substring0 200 summary +:+
  (if Z.of_nat (String.length summary) >? 200 then "..." else EmptyString) +:+ nl.

Definition source_line (source : string) : string :=
  "   Source: " +:+ source +:+ nl.

Definition url_line (url : string) : string :=
  "   Read more: " +:+ url +:+ nl.

(** [`${Math.round(x)}`]: [Math.round] keeps [NaN], the infinities and
    the zeros, and gives an integer otherwise; the template literal
    writes [-0] as [0] and an integer below [1e21] with its digits. *)
Definition show_round (x : float) : string :=
  match Prim2SF x with
  | S754_nan => "NaN"
  | S754_infinity s => if s then "-Infinity" else "Infinity"
  | S754_zero _ => "0"
  | S754_finite s m e =>
      let n := Js.round_half_up s m e in
      if Z.abs n <? 10 ^ 21 then Js.showZ n
      else exponential x
  end.

Definition relevance_line (score : float) : string :=
  "   Relevance: " +:+ show_round (Js.num_or score 0 * 100)%float +:+ "%" +:+
  nl +:+ nl.

(** The callback of [forEach] in [createFallbackResponse].  The matches
    have no [payload] field, so [doc.payload || doc.metadata || {}] is
    the metadata. *)
Definition fallback_item (response : string) (doc : Doc) (index : Z) : string :=
  let metadata := doc_metadata doc in
  let title := Js.str_or (md_title metadata) "News Article" in
  let summary := Js.str_or (md_summary metadata) EmptyString in
  let url := Js.str_or (md_url metadata) EmptyString in
  let source := Js.str_or (md_source metadata) EmptyString in
  let response := response +:+ title_line index title in
  let response :=
    if Js.truthy summary then response +:+ summary_line summary else response in
  let response :=
    if Js.truthy source then response +:+ source_line source else response in
  let response :=
    if Js.truthy url && negb (String.eqb url EmptyString)
    then response +:+ url_line url else response in
  response +:+ relevance_line (doc_score doc).

(** [l.forEach((x, index) => ...)] with the accumulator made explicit. *)
Fixpoint forEach {A S} (f : S -> A -> Z -> S) (l : list A) (index : Z) (s : S) : S :=
  match l with
  | [] => s
  | x :: l' => forEach f l' (index + 1) (f s x index)
  end.

Definition createFallbackResponse (query : string) (similarDocs : list Doc)
  : string :=
  let response := fallback_header in
  if Z.of_nat (length similarDocs) >? 0 then
    let response := response +:+ fallback_intro in
    let response := forEach fallback_item (Js.slice similarDocs 0 (Some 3)) 0 response in
    response +:+ fallback_closing (length similarDocs)
  else
    response +:+ fallback_no_articles.

(** *** The pipeline *)

(** The condition of the inner [catch]: the messages that lead to the
    fallback answer. *)
Definition degradable (message : string) : bool :=
  Js.includes "429" message || Js.includes "quota" message ||
  Js.includes "API_KEY_INVALID" message || Js.includes "expired" message ||
  Js.includes "overloaded" message || Js.includes "503" message.

Definition to_sources (similarDocs : list Doc) : list Source :=
  map (fun doc =>
         {| src_title := Js.str_or (md_title (doc_metadata doc)) "News Article";
            src_url := Js.str_or (md_url (doc_metadata doc)) EmptyString;
            src_score := doc_score doc |})
      similarDocs.

(** A source as the transcript gives it back. *)
Definition to_stored (source : Source) : StoredSource :=
  {| stored_title := src_title source;
     stored_url := src_url source;
     stored_score := Js.json_number (src_score source) |}.

Definition assistant_message (w : World) (content : string)
    (similarDocs : list Doc) : ChatMessage :=
  {| msg_type := assistant;
     msg_content := content;
     msg_timestamp := now w;
     msg_sources := Some (map to_stored (to_sources similarDocs)) |}.

Definition chat_key (sessionId : string) : string := "chat:" +:+ sessionId.

(** The first block of [processQuery] and of
    [processQueryWithStreaming], the same in both: the context and the
    matches. *)
Definition retrieve_context (w : World) (query : string)
  : M (string * list Doc) :=
  let* svc := get_this in
  if useMemoryStorage svc
  then ret ("No specific news articles available in memory storage.", [])
  else
    let* queryEmbedding := generateEmbedding w query in
    let* similarDocs := searchSimilar w queryEmbedding 5 in
    ret (Js.join (nl +:+ nl) (map doc_text similarDocs), similarDocs).

Definition choose_prompt (query context : string) : M string :=
  let* svc := get_this in
  ret (if useMemoryStorage svc
       then createGeneralPrompt query
       else createPrompt query context).

(** [async processQuery(query, sessionId)].  The outer [try] logs and
    throws again, so it is left out. *)
Definition processQuery (w : World) (query sessionId : string)
  : M QueryResult :=
  let* retrieved := retrieve_context w query in
  let context := fst retrieved in
  let similarDocs := snd retrieved in
  let* response :=
    try_catch
      (let* prompt := choose_prompt query context in
       emit (EvGenerateContent prompt) ;;
       match generateContent w prompt with
       | GenFails e => throw e
       | GenText text => ret text
       end)
      (fun error =>
         if degradable error
         then ret (createFallbackResponse query similarDocs)
         else throw error) in
  Redis.lPush w (chat_key sessionId) (assistant_message w response similarDocs) ;;
  ret {| response := response; sources := to_sources similarDocs |}.

(** [for await (const chunk of result.stream)]: each fragment is added
    to [fullResponse] and handed to [onChunk]; the stream may throw
    after its last fragment. *)
Fixpoint for_await (chunks : list string) (failure : option string)
    (fullResponse : string) : M string :=
  match chunks with
  | [] =>
      match failure with
      | Some e => throw e
      | None => ret fullResponse
      end
  | chunkText :: rest =>
      let fullResponse := fullResponse +:+ chunkText in
      emit (EvOnChunk chunkText) ;;
      for_await rest failure fullResponse
  end.

(** [async processQueryWithStreaming(query, sessionId, onChunk,
    onComplete)]; the two callbacks are the events [EvOnChunk] and
    [EvOnComplete], and they are taken not to throw.  The outer [try]
    logs and throws again, so it is left out. *)
Definition processQueryWithStreaming (w : World) (query sessionId : string)
  : M unit :=
  let* retrieved := retrieve_context w query in
  let context := fst retrieved in
  let similarDocs := snd retrieved in
  let* fullResponse :=
    try_catch
      (let* prompt := choose_prompt query context in
       emit (EvGenerateContentStream prompt) ;;
       let result := generateContentStream w prompt in
       for_await (stream_chunks result) (stream_failure result) EmptyString)
      (fun error =>
         if degradable error
         then
           let fullResponse := createFallbackResponse query similarDocs in
           emit (EvOnChunk fullResponse) ;;
           ret fullResponse
         else throw error) in
  Redis.lPush w (chat_key sessionId) (assistant_message w fullResponse similarDocs) ;;
  emit (EvOnComplete {| response := fullResponse;
                        sources := to_sources similarDocs |}).

(** [async getChatHistory(sessionId, limit = 50)] *)
Definition getChatHistory (w : World) (sessionId : string) (limit : Z)
  : M (list ChatMessage) :=
  let* messages := Redis.lRange w (chat_key sessionId) 0 (limit - 1) in
  ret (rev messages).

(** [async clearChatHistory(sessionId)] *)
Definition clearChatHistory (w : World) (sessionId : string) : M unit :=
  Redis.del w (chat_key sessionId) ;;
  ret tt.

End RAGService.

(** ** The callers of the service *)

Section EntryPoints.

Context `{Host}.

(** [new RAGService()] *)
Definition constructor (env : Env) : RAGService :=
  let memory :=
    match USE_MEMORY_STORAGE env with
    | Some v => String.eqb v "true"
    | None => false
    end || negb (truthy_key (QDRANT_URL env)) in
  {| useMemoryStorage := memory;
     memoryStore := if memory then Some [] else None;
     jinaApiKey := JINA_API_KEY env;
     embeddingDim := truthy_dim (EMBEDDING_DIM env) |}.

Definition new_RAGService (w : World) : M unit :=
  set_this (constructor (process_env w)).

Definition user_message (w : World) (content : string) : ChatMessage :=
  {| msg_type := user;
     msg_content := content;
     msg_timestamp := now w;
     msg_sources := None |}.

(** [!message || !message.trim()]; a field missing from the body is [None]. *)
Definition rejected (message : option string) : bool :=
  match message with
  | None => true
  | Some s => negb (Js.truthy s) || negb (Js.truthy (Js.trim s))
  end.

(** What a route of [routes/chat.js] answers. *)
Inductive HttpReply :=
| Status400 (error : string)
| Status200 (sessionId : string) (result : QueryResult) (timestamp : string)
| Status500 (error : string)
| EventStream (failed : bool).

(** [router.post('/message', ...)] *)
Definition post_message (w : World) (message sessionId : option string)
  : Machine -> Machine * HttpReply :=
  fun m =>
    if rejected message then (m, Status400 "Message is required")
    else
      let message := default EmptyString message in
      let finalSessionId :=
        match sessionId with
        | Some s => if Js.truthy s then s else uuid w
        | None => uuid w
        end in
      let run :=
        Redis.lPush w (chat_key finalSessionId) (user_message w message) ;;
        new_RAGService w ;;
        processQuery w message finalSessionId in
      match run m with
      | (m', Return result) => (m', Status200 finalSessionId result (now w))
      | (m', Throw _) => (m', Status500 "Failed to process message")
      end.

(** [router.post('/stream', ...)]; what the two callbacks write to the
    response is read off the trace. *)
Definition post_stream (w : World) (message sessionId : option string)
  : Machine -> Machine * HttpReply :=
  fun m =>
    if rejected message then (m, Status400 "Message is required")
    else
      let message := default EmptyString message in
      let finalSessionId :=
        match sessionId with
        | Some s => if Js.truthy s then s else uuid w
        | None => uuid w
        end in
      let run :=
        Redis.lPush w (chat_key finalSessionId) (user_message w message) ;;
        new_RAGService w ;;
        processQueryWithStreaming w message finalSessionId in
      match run m with
      | (m', Return _) => (m', EventStream false)
      | (m', Throw _) => (m', EventStream true)
      end.

(** What the socket handler sends when it is done. *)
Inductive SocketReply :=
| Completed
| ChatError (error : string).

(** [socket.on('chat-message', ...)] of the server file: the message
    goes to the store and to the service as it arrives. *)
Definition on_chat_message (w : World) (sessionId message : string)
  : Machine -> Machine * SocketReply :=
  fun m =>
    let run :=
      Redis.lPush w (chat_key sessionId) (user_message w message) ;;
      new_RAGService w ;;
      processQueryWithStreaming w message sessionId in
    match run m with
    | (m', Return _) => (m', Completed)
    | (m', Throw _) => (m', ChatError "Failed to process message")
    end.

End EntryPoints.

(** ** Reading a trace *)

Definition is_provider_call (e : Event) : bool :=
  match e with
  | EvEmbeddingApi _ | EvQdrantSearch _ _ | EvQdrantUpsert _ _
  | EvGenerateContent _ | EvGenerateContentStream _ => true
  | _ => false
  end.

Definition is_retrieval (e : Event) : bool :=
  match e with
  | EvGenerateEmbedding _ | EvEmbeddingApi _
  | EvSearchSimilar _ _ | EvQdrantSearch _ _ => true
  | _ => false
  end.

(** The fragments handed to [onChunk], in order. *)
Definition fragments (t : list Event) : list string :=
  omap (fun e => match e with EvOnChunk s => Some s | _ => None end) t.

(** The results handed to [onComplete], in order. *)
Definition completions (t : list Event) : list QueryResult :=
  omap (fun e => match e with EvOnComplete r => Some r | _ => None end) t.

(** The prompts sent to the generator, in order. *)
Definition prompts (t : list Event) : list string :=
  omap (fun e => match e with
                 | EvGenerateContent p | EvGenerateContentStream p => Some p
                 | _ => None
                 end) t.

(** The messages pushed to the store, with their keys, in order. *)
Definition pushes (t : list Event) : list (string * ChatMessage) :=
  omap (fun e => match e with EvLPush k v => Some (k, v) | _ => None end) t.

Fixpoint concat_strings (l : list string) : string :=
  match l with
  | [] => EmptyString
  | s :: l' => s +:+ concat_strings l'
  end.

(** [messages] appended to a session one after the other, oldest first,
    as the callers do with [lPush]. *)
Fixpoint append_all (w : World) (sessionId : string)
    (messages : list ChatMessage) : M unit :=
  match messages with
  | [] => ret tt
  | message :: rest =>
      Redis.lPush w (chat_key sessionId) message ;;
      append_all w sessionId rest
  end.

(** The assistant message that goes with a result. *)
Definition message_of (w : World) (result : QueryResult) : ChatMessage :=
  {| msg_type := assistant;
     msg_content := response result;
     msg_timestamp := now w;
     msg_sources := Some (map to_stored (sources result)) |}.

(** From [m] to [m']: the session store and the storage mode are the
    same, and the calls made in between all satisfy [ok]. *)
Definition steps (ok : Event -> bool) (m m' : Machine) : Prop :=
  redis m' = redis m /\
  useMemoryStorage (this m') = useMemoryStorage (this m) /\
  exists evs, trace m' = trace m ++ evs /\ forallb ok evs = true.

(** ** Reading a run of [generateEmbedding] *)

(** The run goes to the [catch]: the key is missing, the request fails
    or the reply has no first element. *)
Definition takes_fallback (w : World) (svc : RAGService) (text : string) : bool :=
  negb (truthy_key (jinaApiKey svc)) ||
  match embedding_api w text with
  | EmbedVector _ | EmbedOther _ => false
  | EmbedFails _ | EmbedMalformed => true
  end.

(** The dimension of the fallback vector: [this.embeddingDim || 1024]. *)
Definition fallback_dim (svc : RAGService) : Z :=
  default 1024 (truthy_dim (embeddingDim svc)).

(** The number of tokens that fall into bucket [i]. *)
Definition tally (dim : Z) (tokens : list string) (i : nat) : nat :=
  length (List.filter (fun t => bucket dim t =? Z.of_nat i) tokens).

(** A count as the loop builds it: [n] times [+= 1], from [0]. *)
Definition count_of (n : nat) : float :=
  Nat.iter n (fun v => (v + 1)%float) 0%float.

(** The maximal runs of [a-z0-9] of [s], read from left to right; [cur]
    is the run being read. *)
Fixpoint runs (cur : string) (s : string) : list string :=
  match s with
  | EmptyString => if Js.truthy cur then [cur] else []
  | String c s' =>
      if Js.is_lower_alnum c then runs (cur +:+ String c EmptyString) s'
      else (if Js.truthy cur then [cur] else []) ++ runs EmptyString s'
  end.

(** A token: not empty, made of [a-z] and [0-9] only. *)
Definition is_token (t : string) : Prop :=
  t <> EmptyString /\
  forallb Js.is_lower_alnum (list_ascii_of_string t) = true.

(** ** Reading the result of a search *)

(** [a] may stand before [b] in a ranking: its score is not below. *)
Definition ranks_before (a b : Doc) : Prop :=
  (doc_score b <=? doc_score a)%float = true.

(** The matches whose score is [s]. *)
Definition with_score (s : float) (docs : list Doc) : list Doc :=
  List.filter (fun d => (doc_score d =? s)%float) docs.

(** Every score is a number. *)
Definition scores_are_numbers (docs : list Doc) : Prop :=
  Forall (fun d => PrimFloat.is_nan (doc_score d) = false) docs.

(** The dot product, summed from the first component on. *)
Definition dot (a b : list float) : float :=
  fold_left (fun s xy => (s + fst xy * snd xy)%float) (combine a b) 0%float.

(** The components of the query as [cosine] reads them, and those of a
    stored vector at the indices of a query of [n] components. *)
Definition read_query (a : list float) : list float :=
  map (fun x => Js.num_or x 0%float) a.

Definition read_stored (n : nat) (b : list float) : list float :=
  map (at_or_0 b) (seq 0 n).

(** The values of the store, in insertion order: [memoryStore.values()]. *)
Definition stored_values (svc : RAGService) : list Entry :=
  match memoryStore svc with
  | Some store => map snd store
  | None => []
  end.

(** ** Reading the fallback answer *)

(** What the callback of [forEach] adds for one match. *)
Definition item_text `{Host} (doc : Doc) (index : Z) : string :=
  fallback_item EmptyString doc index.

(** The texts added for the matches [docs], the first one numbered
    [index + 1]. *)
Fixpoint items `{Host} (docs : list Doc) (index : Z) : list string :=
  match docs with
  | [] => []
  | doc :: rest => item_text doc index :: items rest (index + 1)
  end.

(** An optional line of an item. *)
Definition line_if (present : bool) (line : string) : string :=
  if present then line else EmptyString.

(** ** Sample worlds and machines *)

(** An engine for the examples: the square root of the processor, an
    array with an inconsistent comparator left as it is, one rendering
    for the large numbers and [NaN] for the score of a string or an
    object; the examples reach neither of the last two. *)
Definition sample_host : Host :=
  {| Math_sqrt := PrimFloat.sqrt;
     Math_sqrt_zero := eq_refl;
     unspecified_order := fun A cmp l => l;
     unspecified_order_perm := fun A cmp l => Permutation_refl l;
     exponential := fun x => "1e+21";
     score_outside := fun value vector => Return PrimFloat.nan |}.

Definition no_env : Env :=
  {| USE_MEMORY_STORAGE := None; QDRANT_URL := None;
     JINA_API_KEY := None; EMBEDDING_DIM := None |}.

Definition titled (t : string) : Metadata :=
  {| md_title := Some t; md_summary := None; md_url := None; md_source := None |}.

(** Two hits, with the scores 0.87 and 0.41 as JSON.parse reads them. *)
Definition two_hits : list QdrantHit :=
  [{| hit_text := "The central bank increased interest rates.";
      hit_payload :=
        {| md_title := Some "Central Bank raises rates";
           md_summary := Some "Rates rise by 25 basis points.";
           md_url := Some "https://news.example/rates";
           md_source := Some "Example Wire" |};
      hit_score := 0x1.bd70a3d70a3d7p-1%float |};
   {| hit_text := "A new accelerator chip was announced.";
      hit_payload := titled "Tech company unveils new AI chip";
      hit_score := 0x1.a3d70a3d70a3dp-2%float |}].

(** A world, from what its providers and its session store answer. *)
Definition world_of (embedding : EmbedReply) (hits : list QdrantHit)
    (text : GenReply) (stream : StreamReply) (store_failure : option string)
  : World :=
  {| process_env := no_env;
     embedding_api := fun _ => embedding;
     qdrant_search := fun _ _ => QdrantHits hits;
     qdrant_upsert_failure := None;
     generateContent := fun _ => text;
     generateContentStream := fun _ => stream;
     redis_failure := store_failure;
     now := "2025-01-01T00:00:00.000Z";
     uuid := "123e4567-e89b-42d3-a456-426614174000";
     synthesized_id := 1735689600000123 |}.

Definition provider_timeout : EmbedReply := EmbedFails "timeout of 10000ms exceeded".

Definition whole_stream : StreamReply :=
  {| stream_chunks := ["Here is "; "the news."]; stream_failure := None |}.

(** Every provider answers, the store accepts every call. *)
Definition calm_world : World :=
  world_of (EmbedVector [1; 0; 0]%float) [] (GenText "Here is the news.")
           whole_stream None.

(** The embedding provider times out. *)
Definition provider_down : World :=
  world_of provider_timeout [] (GenText "Here is the news.") whole_stream None.

(** The embedding provider answers with a first datum whose embedding is
    [null]. *)
Definition provider_confused : World :=
  world_of (EmbedOther JsNull) [] (GenText "Here is the news.") whole_stream
           None.

(** The generator answers every prompt with "429 Too Many Requests". *)
Definition quota_exceeded (store_failure : option string) : World :=
  world_of provider_timeout two_hits (GenFails "429 Too Many Requests")
           {| stream_chunks := [];
              stream_failure := Some "429 Too Many Requests" |}
           store_failure.

(** The generator answers every prompt with an error that is not in the
    list of the fallback. *)
Definition generator_broken : World :=
  world_of provider_timeout [] (GenFails "Candidate was blocked due to SAFETY")
           {| stream_chunks := [];
              stream_failure := Some "Candidate was blocked due to SAFETY" |}
           None.

(** The stream yields two fragments and then fails with an error of the
    fallback list. *)
Definition midstream_overload : World :=
  world_of provider_timeout [] (GenText "Rates rose.")
           {| stream_chunks := ["Rates "; "rose"];
              stream_failure :=
                Some "503 Service Unavailable: the model is overloaded" |}
           None.

Definition memory_service : RAGService :=
  {| useMemoryStorage := true; memoryStore := Some [];
     jinaApiKey := None; embeddingDim := None |}.

Definition fresh_machine : Machine :=
  {| this := memory_service; redis := ∅; trace := [] |}.

(** The indexed backend, with a key for the embedding provider. *)
Definition keyed_service (dim : Z) : RAGService :=
  {| useMemoryStorage := false; memoryStore := None;
     jinaApiKey := Some "jina_key"; embeddingDim := Some dim |}.

Definition keyed_machine (dim : Z) : Machine :=
  {| this := keyed_service dim; redis := ∅; trace := [] |}.

(** The indexed backend, without a key. *)
Definition offline_service (dim : Z) : RAGService :=
  {| useMemoryStorage := false; memoryStore := None;
     jinaApiKey := None; embeddingDim := Some dim |}.

Definition offline_machine (dim : Z) : Machine :=
  {| this := offline_service dim; redis := ∅; trace := [] |}.

(** Three chunks stored one after the other; the first and the third
    have the same direction. *)
Definition stock_store : M unit :=
  storeEmbedding calm_world (RawNum 1) "A" [1; 0]%float (titled "A") ;;
  storeEmbedding calm_world (RawNum 2) "B" [0; 1]%float (titled "B") ;;
  storeEmbedding calm_world (RawNum 3) "C" [1; 0]%float (titled "C").

Definition stocked_machine : Machine := fst (stock_store fresh_machine).

(** Two chunks of the same direction and of different lengths. *)
Definition scaled_store : M unit :=
  storeEmbedding calm_world (RawNum 1) "A" [1; 1]%float (titled "A") ;;
  storeEmbedding calm_world (RawNum 2) "B" [3; 3]%float (titled "B").

Definition scaled_machine : Machine := fst (scaled_store fresh_machine).

(** A chunk whose components are [2^1023], in front of a chunk of
    small components. *)
Definition overflow_store : M unit :=
  storeEmbedding calm_world (RawNum 2) "B" [0x1p1023; 0x1p1023]%float
                 (titled "B") ;;
  storeEmbedding calm_world (RawNum 3) "C" [2; 2]%float (titled "C").

Definition overflow_machine : Machine := fst (overflow_store fresh_machine).

(** The same two, behind a chunk that is orthogonal to [2, 2]. *)
Definition overflow_store_3 : M unit :=
  storeEmbedding calm_world (RawNum 1) "A" [1; -1]%float (titled "A") ;;
  overflow_store.

Definition overflow_machine_3 : Machine := fst (overflow_store_3 fresh_machine).

(** The matches made of [two_hits], and the context made of their texts. *)
Definition quota_docs : list Doc := map doc_of_hit two_hits.

Definition quota_context : string :=
  Js.join (nl +:+ nl) (map doc_text quota_docs).

Definition hello : ChatMessage :=
  {| msg_type := user; msg_content := "hello";
     msg_timestamp := "2025-01-01T00:00:00.000Z"; msg_sources := None |}.

Definition hi_there : ChatMessage :=
  {| msg_type := assistant; msg_content := "hi there";
     msg_timestamp := "2025-01-01T00:00:01.000Z"; msg_sources := Some [] |}.

Definition thanks : ChatMessage :=
  {| msg_type := user; msg_content := "thanks";
     msg_timestamp := "2025-01-01T00:00:02.000Z"; msg_sources := None |}.

(** ** More of the service: the index and the statistics *)

(** [map.get(key)] on the in-process store. *)
Fixpoint map_get (store : list (PointId * Entry)) (key : PointId)
  : option Entry :=
  match store with
  | [] => None
  | (k, v) :: rest => if PointId_eqb k key then Some v else map_get rest key
  end.

(** What [qdrantClient.count] answers: the fields [count] and
    [result.count] of the reply, when they are there. *)
Record CountReply := {
  reply_count : option Z;
  reply_result_count : option Z
}.

(** The index as [initialize] and [getEmbeddingStats] see it: the name
    kept in [this.collectionName] and what each call answers.
    [get_collection] is the number read at
    [info?.result?.config?.params?.vectors?.size]. *)
Record Index := {
  collectionName : string;
  get_collections : Outcome (list string);
  get_collection : Outcome (option Z);
  delete_failure : option string;
  create_failure : option string;
  count_reply : Outcome CountReply
}.

(** The calls made to the index, in order. *)
Inductive IndexCall :=
| GetCollections
| GetCollection (name : string)
| DeleteCollection (name : string)
| CreateCollection (name : string) (size : option Z).

Definition set_dimension (d : Z) (m : Machine) : Machine :=
  {| this := {| useMemoryStorage := useMemoryStorage (this m);
                memoryStore := memoryStore (this m);
                jinaApiKey := jinaApiKey (this m);
                embeddingDim := Some d |};
     redis := redis m; trace := trace m |}.

(** [this.useMemoryStorage = true; this.memoryStore = new Map()] *)
Definition to_memory_storage (m : Machine) : Machine :=
  {| this := {| useMemoryStorage := true;
                memoryStore := Some [];
                jinaApiKey := jinaApiKey (this m);
                embeddingDim := embeddingDim (this m) |};
     redis := redis m; trace := trace m |}.

(** [Array.isArray(probe) ? probe.length : 1024] *)
Definition probe_dimension (probe : Embedding) : Z :=
  match probe with
  | Vector vec => Z.of_nat (length vec)
  | NotArray _ => 1024
  end.

(** [currentDim && currentDim !== this.embeddingDim] *)
Definition dimension_differs (currentDim : option Z) (dim : option Z) : bool :=
  match truthy_dim currentDim with
  | Some d => match dim with
              | Some d' => negb (d =? d')
              | None => true
              end
  | None => false
  end.

Section Initialize.

Context `{Host}.

(** [async createCollection(size)], with the calls made before it. *)
Definition createCollection (ix : Index) (before : list IndexCall)
    (size : option Z) (m : Machine) : Machine * list IndexCall * Outcome unit :=
  let calls := before ++ [CreateCollection (collectionName ix) size] in
  match create_failure ix with
  | Some e => (m, calls, Throw e)
  | None => (m, calls, Return tt)
  end.

(** The inner [try] of [initialize]: the probe of the dimension, then
    the collection. *)
Definition prepare_collection (w : World) (ix : Index) (m : Machine)
  : Machine * list IndexCall * Outcome unit :=
  let probed :=
    match truthy_dim (embeddingDim (this m)) with
    | Some _ => (m, Return tt)
    | None =>
        match generateEmbedding w "dimension probe" m with
        | (m1, Return probe) =>
            (set_dimension (probe_dimension probe) m1, Return tt)
        | (m1, Throw e) => (m1, Throw e)
        end
    end in
  match probed with
  | (m1, Throw e) => (m1, [], Throw e)
  | (m1, Return _) =>
      let name := collectionName ix in
      match get_collections ix with
      | Throw e => (m1, [GetCollections], Throw e)
      | Return names =>
          if existsb (String.eqb name) names then
            let currentDim :=
              match get_collection ix with
              | Return size => truthy_dim size
              | Throw _ => None
              end in
            let calls := [GetCollections; GetCollection name] in
            if dimension_differs currentDim (embeddingDim (this m1)) then
              match delete_failure ix with
              | Some e => (m1, calls ++ [DeleteCollection name], Throw e)
              | None =>
                  createCollection ix (calls ++ [DeleteCollection name])
                                   (embeddingDim (this m1)) m1
              end
            else (m1, calls, Return tt)
          else createCollection ix [GetCollections] (embeddingDim (this m1)) m1
      end
  end.

(** [async initialize()].  The outer [try] logs and throws again, so it
    is left out; the inner [catch] turns every failure into the switch
    to the in-process store. *)
Definition initialize (w : World) (ix : Index) (m : Machine)
  : Machine * list IndexCall * Outcome unit :=
  if useMemoryStorage (this m) then (m, [], Return tt)
  else
    match prepare_collection w ix m with
    | (m1, calls, Throw qdrantError) => (to_memory_storage m1, calls, Return tt)
    | (m1, calls, Return u) => (m1, calls, Return u)
    end.

End Initialize.

(** The value of [getEmbeddingStats]. *)
Record Stats := {
  totalDocuments : Z;
  vectorSize : Z;
  indexedDocuments : Z
}.

(** [(countRes && countRes.count) || (countRes?.result?.count) || 0] *)
Definition counted (r : CountReply) : Z :=
  match truthy_dim (reply_count r) with
  | Some n => n
  | None => default 0 (truthy_dim (reply_result_count r))
  end.

(** [async getEmbeddingStats()] *)
Definition getEmbeddingStats (ix : Index) : M Stats :=
  try_catch
    (let* svc := get_this in
     if useMemoryStorage svc then
       let size := match memoryStore svc with
                   | Some store => Z.of_nat (length store)
                   | None => 0
                   end in
       ret {| totalDocuments := size; vectorSize := 1024;
              indexedDocuments := size |}
     else
       match count_reply ix with
       | Throw e => throw e
       | Return countRes =>
           ret {| totalDocuments := counted countRes; vectorSize := 1024;
                  indexedDocuments := counted countRes |}
       end)
    (fun error =>
       ret {| totalDocuments := 0; vectorSize := 1024; indexedDocuments := 0 |}).

(** [llen(key)] of the stand-in of [config/redis.js]. *)
Definition MemoryStorage_llen {A} (data : gmap string (list A)) (key : string) : Z :=
  let list := default [] (data !! key) in
  Z.of_nat (length list).

(** ** More callers: the routes of [routes/session.js] *)

(** The store as the session routes use it: the lists of the machine,
    the hashes under the [session:] keys and the expiry set on keys, in
    seconds.  List keys start with [chat:], hash keys with [session:]. *)
Record Server := {
  machine : Machine;
  hashes : gmap string (gmap string string);
  expiry : gmap string Z
}.

Definition session_key (sessionId : string) : string := "session:" +:+ sessionId.

(** [hSet(key, field, value)]: the field is set, the key is created when
    it does not exist, its expiry is not touched. *)
Definition hSet_field (key field value : string)
    (h : gmap string (gmap string string)) : gmap string (gmap string string) :=
  <[key := <[field := value]> (default ∅ (h !! key))]> h.

(** What a route of [routes/session.js] answers. *)
Inductive SessionReply :=
| Created (sessionId : string)
| History (sessionId : string) (messages : list ChatMessage) (count : Z)
| Cleared (sessionId : string)
| Failed (error : string).

(** [router.post('/create', ...)]; [ttl] is [parseInt(process.env.SESSION_TTL)]. *)
Definition post_create (w : World) (ttl : option Z) (s : Server)
  : Server * SessionReply :=
  let sessionId := uuid w in
  match redis_failure w with
  | Some _ => (s, Failed "Failed to create session")
  | None =>
      let key := session_key sessionId in
      let sessionTTL := default 3600 (truthy_dim ttl) in
      ({| machine := machine s;
          hashes := hSet_field key "lastActivity" (now w)
                      (hSet_field key "created" (now w) (hashes s));
          expiry := <[key := sessionTTL]> (expiry s) |},
       Created sessionId)
  end.

(** [router.get('/:sessionId/history', ...)]; [limit] is
    [parseInt(req.query.limit)]. *)
Definition get_history (w : World) (sessionId : string) (limit : option Z)
    (s : Server) : Server * SessionReply :=
  let limit := default 50 (truthy_dim limit) in
  let run :=
    set_this (constructor (process_env w)) ;;
    getChatHistory w sessionId limit in
  match run (machine s) with
  | (m', Throw _) =>
      ({| machine := m'; hashes := hashes s; expiry := expiry s |},
       Failed "Failed to get chat history")
  | (m', Return messages) =>
      match redis_failure w with
      | Some _ =>
          ({| machine := m'; hashes := hashes s; expiry := expiry s |},
           Failed "Failed to get chat history")
      | None =>
          ({| machine := m';
              hashes := hSet_field (session_key sessionId) "lastActivity" (now w)
                          (hashes s);
              expiry := expiry s |},
           History sessionId messages (Z.of_nat (length messages)))
      end
  end.

(** [router.delete('/:sessionId/clear', ...)] *)
Definition delete_clear (w : World) (sessionId : string) (s : Server)
  : Server * SessionReply :=
  let run :=
    set_this (constructor (process_env w)) ;;
    clearChatHistory w sessionId in
  match run (machine s) with
  | (m', Throw _) =>
      ({| machine := m'; hashes := hashes s; expiry := expiry s |},
       Failed "Failed to clear chat history")
  | (m', Return _) =>
      match redis_failure w with
      | Some _ =>
          ({| machine := m'; hashes := hashes s; expiry := expiry s |},
           Failed "Failed to clear chat history")
      | None =>
          ({| machine := m';
              hashes := hSet_field (session_key sessionId) "lastActivity" (now w)
                          (hashes s);
              expiry := expiry s |},
           Cleared sessionId)
      end
  end.

(** ** The ingestion: texts and identifiers *)

(** [s.split(/[...]+/)] for a class [sep] of separator characters: the
    pieces between the maximal runs of separators. *)
Fixpoint split_runs (sep : ascii -> bool) (in_sep : bool) (cur s : string)
  : list string :=
  match s with
  | EmptyString => [cur]
  | String c s' =>
      if sep c then
        if in_sep then split_runs sep true cur s'
        else cur :: split_runs sep true EmptyString s'
      else split_runs sep false (cur +:+ String c EmptyString) s'
  end.

(** The class [[.!?]]. *)
Definition is_terminator (c : ascii) : bool := one_of ".!?" c.

(** [text.split(/[.!?]+/)] *)
Definition split_sentences (text : string) : list string :=
  split_runs is_terminator false EmptyString text.

(** [s.split(' ')]: the pieces between the spaces, the empty ones too. *)
Fixpoint split_on (c : ascii) (cur s : string) : list string :=
  match s with
  | EmptyString => [cur]
  | String x s' =>
      if Ascii.eqb x c then cur :: split_on c EmptyString s'
      else split_on c (cur +:+ String x EmptyString) s'
  end.

Definition len (s : string) : Z := Z.of_nat (String.length s).

(** The sentences of [chunkText]:
    [text.split(/[.!?]+/).filter(s => s.trim().length > 0)]. *)
Definition chunk_sentences (text : string) : list string :=
  List.filter (fun s => len (Js.trim s) >? 0) (split_sentences text).

(** The words kept as overlap:
    [currentChunk.split(' ').slice(-Math.floor(overlap / 10)).join(' ')]. *)
Definition overlap_of (overlap : Z) (currentChunk : string) : string :=
  let words := split_on " " EmptyString currentChunk in
  let overlapWords := Js.slice words (- (overlap / 10)) None in
  Js.join " " overlapWords.

(** The [while] loop of [chunkText]; [fuel] bounds the number of turns,
    [None] is a loop that has not ended within them.  The loop ends with
    the pair of [currentChunk] and [chunks]. *)
Fixpoint chunk_loop (fuel : nat) (sentences : list string)
    (maxChunkSize overlap : Z) (i : nat) (currentChunk : string)
    (chunks : list string) : option (string * list string) :=
  match fuel with
  | O => None
  | S fuel' =>
      match sentences !! i with
      | None => Some (currentChunk, chunks)
      | Some raw =>
          let sentence := Js.trim raw in
          if len currentChunk + len sentence + 1 <=? maxChunkSize then
            chunk_loop fuel' sentences maxChunkSize overlap (S i)
              (currentChunk +:+
               (if Js.truthy currentChunk then ". " else EmptyString) +:+
               sentence)
              chunks
          else if Js.truthy currentChunk then
            chunk_loop fuel' sentences maxChunkSize overlap i
              (overlap_of overlap currentChunk)
              (chunks ++ [currentChunk +:+ "."])
          else
            chunk_loop fuel' sentences maxChunkSize overlap (S i)
              EmptyString (chunks ++ [sentence +:+ "."])
      end
  end.

(** [chunkText(text, maxChunkSize = 1000, overlap = 100)] of
    [scripts/ingestNews.js] *)
Definition chunkText (fuel : nat) (text : string) (maxChunkSize overlap : Z)
  : option (list string) :=
  match chunk_loop fuel (chunk_sentences text) maxChunkSize overlap 0
                   EmptyString [] with
  | None => None
  | Some (currentChunk, chunks) =>
      Some (if Js.truthy currentChunk
            then chunks ++ [currentChunk +:+ "."]
            else chunks)
  end.

(** The identifier of the [i]-th chunk of an article:
    [`${article.id}_chunk_${i}`]. *)
Definition chunkId (articleId : string) (i : Z) : string :=
  articleId +:+ "_chunk_" +:+ Js.showZ i.

(** [a & b] *)
Definition bit_and (a b : Z) : Z :=
  Js.toInt32 (Z.land (Js.toInt32 a) (Js.toInt32 b)).

(** One turn of the loop of [generateArticleId]:
    [hash = ((hash << 5) - hash) + char; hash = hash & hash]. *)
Definition article_hash_step (hash : Z) (c : ascii) : Z :=
  let hash := (Js.shl hash 5 - hash) + Js.charCode c in
  bit_and hash hash.

Definition article_hash (url : string) : Z :=
  fold_left article_hash_step (list_ascii_of_string url) 0.

(** [generateArticleId(url)] of the news service *)
Definition generateArticleId (url : string) : string :=
  Js.showZ (Z.abs (article_hash url)).

(** The loop of [createSummary]; it breaks at the first sentence that
    would pass [maxLength]. *)
Fixpoint summary_loop (sentences : list string) (maxLength : Z)
    (summary : string) : string :=
  match sentences with
  | [] => summary
  | sentence :: rest =>
      if len summary + len sentence >? maxLength then summary
      else summary_loop rest maxLength (summary +:+ Js.trim sentence +:+ ". ")
  end.

(** [createSummary(content, maxLength = 300)] of the news service *)
Definition createSummary (content : string) (maxLength : Z) : string :=
  if negb (Js.truthy content) then EmptyString
  else
    let sentences :=
      List.filter (fun s => len (Js.trim s) >? 10) (split_sentences content) in
    let summary := summary_loop sentences maxLength EmptyString in
    if Js.truthy (Js.trim summary) then Js.trim summary
    else Js.substring0 (Z.to_nat maxLength) content +:+ "...".

(** A text of [n] letters x. *)
Definition xs (n : nat) : string := string_of_list_ascii (replicate n "x"%char).

(** The indexed backend with a key, while no dimension is established. *)
Definition open_service : RAGService :=
  {| useMemoryStorage := false; memoryStore := None;
     jinaApiKey := Some "jina_key"; embeddingDim := None |}.

Definition open_machine : Machine :=
  {| this := open_service; redis := ∅; trace := [] |}.

(** A character that a UUID may hold. *)
Definition uuid_char (c : ascii) : bool := is_hex c || one_of "-" c.

Definition is_digit (c : ascii) : bool := Js.in_range 48 57 (Js.charCode c).

(** ** Sample indexes *)

(** An index that holds the collection with 768 components and accepts
    every call. *)
Definition index_768 : Index :=
  {| collectionName := "news_embeddings";
     get_collections := Return ["other"; "news_embeddings"];
     get_collection := Return (Some 768);
     delete_failure := None;
     create_failure := None;
     count_reply := Return {| reply_count := Some 42; reply_result_count := None |} |}.

(** An index that cannot be reached. *)
Definition index_down : Index :=
  {| collectionName := "news_embeddings";
     get_collections := Throw "connect ECONNREFUSED 127.0.0.1:6333";
     get_collection := Throw "connect ECONNREFUSED 127.0.0.1:6333";
     delete_failure := Some "connect ECONNREFUSED 127.0.0.1:6333";
     create_failure := Some "connect ECONNREFUSED 127.0.0.1:6333";
     count_reply := Throw "connect ECONNREFUSED 127.0.0.1:6333" |}.

(** An index that deletes the collection and then rejects its creation. *)
Definition index_half : Index :=
  {| collectionName := "news_embeddings";
     get_collections := Return ["news_embeddings"];
     get_collection := Return (Some 768);
     delete_failure := None;
     create_failure := Some "Service Unavailable";
     count_reply := Return {| reply_count := Some 42; reply_result_count := None |} |}.

(** A server that holds nothing. *)
Definition empty_server : Server :=
  {| machine := fresh_machine; hashes := ∅; expiry := ∅ |}.

(** ** Reading a number *)

(** The result of a rounding that is not zero and has the sign [s]. *)
Definition signed_nonzero (s : bool) (x : spec_float) : Prop :=
  match x with
  | S754_finite s' _ _ | S754_infinity s' => s' = s
  | _ => False
  end.

(** A finite number as a multiple of [2 ^ ez], for [ez] at most its
    exponent. *)
Definition aligned (s : bool) (m : positive) (e ez : Z) : Z :=
  cond_Zopp s (Zpos (fst (shl_align m e ez))).

(** A number that is not NaN, as an integer that grows with it; the two
    zeros have the same one. *)
Definition SFrank (x : spec_float) : option Z :=
  match x with
  | S754_nan => None
  | S754_zero _ => Some 0
  | S754_infinity s => Some (cond_Zopp s (4000 * 2 ^ 53))
  | S754_finite s m e => Some (cond_Zopp s ((e - emin + 1) * 2 ^ 53 + Zpos m))
  end.

Definition compare_ranks (a b : option Z) : option comparison :=
  match a, b with
  | Some a, Some b => Some (a ?= b)
  | _, _ => None
  end.

Definition rank (x : float) : option Z := SFrank (Prim2SF x).

(** * Properties *)

(** ** Numbers in double precision *)

(** The mantissa [m] has [digits2_pos m] binary digits. *)
Lemma digits2_pos_bounds (m : positive) :
  2 ^ (Zpos (digits2_pos m) - 1) <= Zpos m < 2 ^ Zpos (digits2_pos m).
Proof.
  induction m as [m IH | m IH |]; cbn [digits2_pos].
  - rewrite Pos2Z.inj_succ.
    replace (Z.succ (Zpos (digits2_pos m)) - 1) with (Z.succ (Zpos (digits2_pos m) - 1)) by lia.
    rewrite !Z.pow_succ_r by lia. lia.
  - rewrite Pos2Z.inj_succ.
    replace (Z.succ (Zpos (digits2_pos m)) - 1) with (Z.succ (Zpos (digits2_pos m) - 1)) by lia.
    rewrite !Z.pow_succ_r by lia. lia.
  - cbn. lia.
Qed.

Lemma bounded_facts (m : positive) (e : Z) :
  bounded prec emax m e = true ->
  emin <= e /\ Zpos m < 2 ^ 53 /\ (emin < e -> 2 ^ 52 <= Zpos m).
Proof.
  unfold bounded, canonical_mantissa, fexp, SpecFloat.emin, prec, emax.
  intros Hb. apply andb_true_iff in Hb as [Hc _]. apply Z.eqb_eq in Hc.
  pose proof (digits2_pos_bounds m) as Hd.
  set (d := Zpos (digits2_pos m)) in *.
  assert (Hd53 : d <= 53) by lia.
  repeat split; try lia.
  - eapply Z.lt_le_trans; [apply Hd |]. apply Z.pow_le_mono_r; lia.
  - intros He. assert (d = 53) by lia.
    replace 52 with (d - 1) by lia. apply Hd.
Qed.

Lemma shr_m_of_loc (m : Z) (l : location) : shr_m (shr_record_of_loc m l) = m.
Proof. destruct l as [| []]; reflexivity. Qed.

Lemma shr_1_m (r : shr_record) :
  0 <= shr_m r -> shr_m (shr_1 r) = shr_m r / 2.
Proof.
  destruct r as [m rb sb]. cbn [shr_m shr_1]. intros Hm.
  destruct m as [| p | p]; [reflexivity | | lia].
  destruct p as [p | p |]; cbn [shr_m].
  - rewrite Pos2Z.inj_xI. apply Z.div_unique with 1; lia.
  - rewrite Pos2Z.inj_xO. apply Z.div_unique with 0; lia.
  - reflexivity.
Qed.

Lemma iter_shr_m (p : positive) :
  forall r, 0 <= shr_m r ->
            shr_m (SpecFloat.iter_pos shr_1 p r) = shr_m r / 2 ^ Zpos p.
Proof.
  induction p as [p IH | p IH |]; intros r Hr; cbn [SpecFloat.iter_pos].
  - assert (H1 : 0 <= shr_m (shr_1 r)) by (rewrite shr_1_m by lia; apply Z.div_pos; lia).
    assert (H2 : 0 <= shr_m (SpecFloat.iter_pos shr_1 p (shr_1 r)))
      by (rewrite IH by lia; apply Z.div_pos; [lia | apply Z.pow_pos_nonneg; lia]).
    rewrite IH, IH, shr_1_m by lia.
    rewrite !Z.div_div by (try apply Z.pow_pos_nonneg; lia).
    f_equal.
    assert (E : Z.pos p~1 = 1 + Z.pos p + Z.pos p) by lia.
    rewrite E, !Z.pow_add_r by lia. change (2 ^ 1) with 2. lia.
  - assert (H2 : 0 <= shr_m (SpecFloat.iter_pos shr_1 p r))
      by (rewrite IH by lia; apply Z.div_pos; [lia | apply Z.pow_pos_nonneg; lia]).
    rewrite IH, IH by lia.
    rewrite !Z.div_div by (try apply Z.pow_pos_nonneg; lia).
    f_equal.
    assert (E : Z.pos p~0 = Z.pos p + Z.pos p) by lia.
    rewrite E, !Z.pow_add_r by lia. lia.
  - rewrite shr_1_m by lia. reflexivity.
Qed.

(** Shifting a positive mantissa to its canonical exponent leaves it positive. *)
Lemma shr_fexp_pos (m : positive) (e : Z) (l : location) :
  emin <= e ->
  0 < shr_m (fst (shr_fexp prec emax (Zpos m) e l)) /\
  emin <= snd (shr_fexp prec emax (Zpos m) e l).
Proof.
  intros He. unfold shr_fexp, shr, fexp, Zdigits2.
  pose proof (digits2_pos_bounds m) as Hd.
  set (d := Zpos (digits2_pos m)) in *.
  fold emin.
  destruct (Z.max (d + e - prec) emin - e) as [| p | p] eqn:Hn; cbn [fst snd].
  - rewrite shr_m_of_loc. lia.
  - rewrite iter_shr_m by (rewrite shr_m_of_loc; lia).
    rewrite shr_m_of_loc. unfold prec in *.
    assert (Hp : Zpos p = d - 53) by lia.
    split; [| lia].
    apply Z.div_str_pos. split; [apply Z.pow_pos_nonneg; lia |].
    etransitivity; [| apply Hd]. apply Z.pow_le_mono_r; lia.
  - rewrite shr_m_of_loc. lia.
Qed.

Lemma round_nearest_even_pos (m : Z) (l : location) :
  0 < m -> 0 < round_nearest_even m l.
Proof.
  intros Hm. destruct l as [| []]; cbn [round_nearest_even]; try lia.
  destruct (Z.even m); lia.
Qed.

Lemma binary_round_aux_sign (s : bool) (m : positive) (e : Z) (l : location) :
  emin <= e -> signed_nonzero s (binary_round_aux prec emax s (Zpos m) e l).
Proof.
  intros He. unfold binary_round_aux.
  pose proof (shr_fexp_pos m e l He) as [Hm1 He1].
  destruct (shr_fexp prec emax (Zpos m) e l) as [mrs' e']. cbn [fst snd] in *.
  pose proof (round_nearest_even_pos (shr_m mrs') (loc_of_shr_record mrs') Hm1) as Hr.
  destruct (round_nearest_even (shr_m mrs') (loc_of_shr_record mrs')) as [| m2 | m2];
    try lia.
  pose proof (shr_fexp_pos m2 e' loc_Exact He1) as [Hm2 _].
  destruct (shr_fexp prec emax (Zpos m2) e' loc_Exact) as [mrs'' e''].
  cbn [fst snd] in *.
  destruct (shr_m mrs'') as [| m3 | m3]; try lia.
  destruct (e'' <=? emax - prec); reflexivity.
Qed.

Lemma binary_round_sign (s : bool) (m : positive) (e : Z) :
  emin <= e -> signed_nonzero s (binary_round prec emax s m e).
Proof.
  intros He. unfold binary_round, shl_align.
  destruct (fexp prec emax (Zpos (digits2_pos m) + e) - e) as [| d | d] eqn:Hd;
    apply binary_round_aux_sign; try assumption.
  unfold fexp in *. fold emin in *. lia.
Qed.

Lemma pos_iter_xO (m d : positive) : Zpos (Pos.iter xO m d) = Zpos m * 2 ^ Zpos d.
Proof.
  revert m. induction d as [| d IH] using Pos.peano_ind; intros m.
  - cbn. lia.
  - rewrite Pos.iter_succ, Pos2Z.inj_xO, IH, Pos2Z.inj_succ, Z.pow_succ_r by lia. lia.
Qed.

Lemma shl_align_val (m : positive) (e e' : Z) :
  e' <= e -> Zpos (fst (shl_align m e e')) = Zpos m * 2 ^ (e - e').
Proof.
  intros He. unfold shl_align.
  destruct (e' - e) as [| d | d] eqn:Hd; cbn [fst].
  - replace (e - e') with 0 by lia. lia.
  - lia.
  - rewrite pos_iter_xO. f_equal. f_equal. lia.
Qed.

Lemma aligned_val (s : bool) (m : positive) (e ez : Z) :
  ez <= e -> aligned s m e ez = cond_Zopp s (Zpos m * 2 ^ (e - ez)).
Proof. intros He. unfold aligned. now rewrite shl_align_val. Qed.

Lemma compare_aligned (sx sy : bool) (mx my : positive) (ex ey : Z) :
  bounded prec emax mx ex = true ->
  bounded prec emax my ey = true ->
  SFcompare (S754_finite sx mx ex) (S754_finite sy my ey) =
  Some (aligned sx mx ex (Z.min ex ey) ?= aligned sy my ey (Z.min ex ey)).
Proof.
  intros Hx Hy.
  apply bounded_facts in Hx as (Hex & Hmx & Hnx).
  apply bounded_facts in Hy as (Hey & Hmy & Hny).
  rewrite !aligned_val by lia. cbn [SFcompare]. f_equal.
  assert (Hpx : 0 < 2 ^ (ex - Z.min ex ey)) by (apply Z.pow_pos_nonneg; lia).
  assert (Hpy : 0 < 2 ^ (ey - Z.min ex ey)) by (apply Z.pow_pos_nonneg; lia).
  pose proof (Pos2Z.is_pos mx) as Hx0. pose proof (Pos2Z.is_pos my) as Hy0.
  change (Pos.compare_cont Eq mx my) with (Pos.compare mx my).
  rewrite Pos2Z.inj_compare.
  destruct (Z.compare_spec ex ey) as [E | E | E].
  - subst ey. rewrite Z.min_id, Z.sub_diag in *. change (2 ^ 0) with 1.
    rewrite !Z.mul_1_r.
    destruct sx, sy; reflexivity.
  - (* ex < ey *)
    rewrite Z.min_l in * by lia. rewrite Z.sub_diag in *. change (2 ^ 0) with 1.
    rewrite Z.mul_1_r.
    assert (Hbig : Zpos mx < Zpos my * 2 ^ (ey - ex)).
    { specialize (Hny ltac:(lia)).
      assert (2 <= 2 ^ (ey - ex)).
      { change 2 with (2 ^ 1) at 1. apply Z.pow_le_mono_r; lia. }
      nia. }
    destruct sx, sy; cbn [cond_Zopp]; symmetry;
      first [apply Z.compare_lt_iff; lia | apply Z.compare_gt_iff; lia].
  - (* ey < ex *)
    rewrite Z.min_r in * by lia. rewrite Z.sub_diag in *. change (2 ^ 0) with 1.
    rewrite Z.mul_1_r.
    assert (Hbig : Zpos my < Zpos mx * 2 ^ (ex - ey)).
    { specialize (Hnx ltac:(lia)).
      assert (2 <= 2 ^ (ex - ey)).
      { change 2 with (2 ^ 1) at 1. apply Z.pow_le_mono_r; lia. }
      nia. }
    destruct sx, sy; cbn [cond_Zopp]; symmetry;
      first [apply Z.compare_lt_iff; lia | apply Z.compare_gt_iff; lia].
Qed.

Lemma binary_normalize_sign (v ez : Z) :
  emin <= ez ->
  match v ?= 0 with
  | Eq => binary_normalize prec emax v ez false = S754_zero false
  | Lt => signed_nonzero true (binary_normalize prec emax v ez false)
  | Gt => signed_nonzero false (binary_normalize prec emax v ez false)
  end.
Proof.
  intros He. destruct v as [| p | p]; cbn [Z.compare binary_normalize].
  - reflexivity.
  - now apply binary_round_sign.
  - now apply binary_round_sign.
Qed.

(** The sign of a difference is the comparison of its operands. *)
Lemma SFsub_sign (x y : spec_float) :
  valid_binary x = true -> valid_binary y = true ->
  SFltb (SF64sub x y) (S754_zero false) = SFltb x y /\
  SFltb (S754_zero false) (SF64sub x y) = SFltb y x.
Proof.
  intros Hx Hy.
  destruct x as [sx | sx | | sx mx ex], y as [sy | sy | | sy my ey];
    try (destruct sx; try destruct sy; split; reflexivity);
    try (destruct sy; split; reflexivity);
    try (split; reflexivity).
  cbn [valid_binary SpecFloat.valid_binary] in Hx, Hy.
  unfold SFltb. rewrite (compare_aligned sx sy mx my ex ey Hx Hy).
  rewrite (compare_aligned sy sx my mx ey ex Hy Hx).
  unfold SF64sub, SFsub. cbv zeta. fold (aligned sx mx ex (Z.min ex ey)).
  fold (aligned sy my ey (Z.min ex ey)). rewrite (Z.min_comm ey ex).
  set (vx := aligned sx mx ex (Z.min ex ey)).
  set (vy := aligned sy my ey (Z.min ex ey)).
  assert (He : emin <= Z.min ex ey).
  { apply bounded_facts in Hx as (? & _). apply bounded_facts in Hy as (? & _). lia. }
  pose proof (binary_normalize_sign (vx - vy) (Z.min ex ey) He) as Hs.
  rewrite (Z.compare_antisym vx vy).
  destruct (Z.compare_spec (vx - vy) 0) as [E | E | E].
  - rewrite Hs. replace vy with vx by lia. rewrite Z.compare_refl. split; reflexivity.
  - destruct (binary_normalize prec emax (vx - vy) (Z.min ex ey) false)
      as [? | s | | s ? ?]; cbn in Hs; try contradiction; subst s;
      rewrite (proj2 (Z.compare_lt_iff vx vy)) by lia; split; reflexivity.
  - destruct (binary_normalize prec emax (vx - vy) (Z.min ex ey) false)
      as [? | s | | s ? ?]; cbn in Hs; try contradiction; subst s;
      rewrite (proj2 (Z.compare_gt_iff vx vy)) by lia; split; reflexivity.
Qed.

Lemma sub_sign (x y : float) :
  ((x - y <? 0) = (x <? y))%float /\ ((0 <? x - y) = (y <? x))%float.
Proof.
  rewrite !FloatAxioms.ltb_spec, FloatAxioms.sub_spec.
  change (Prim2SF 0) with (S754_zero false).
  apply SFsub_sign; apply Prim2SF_valid.
Qed.

Lemma SFcompare_rank (x y : spec_float) :
  valid_binary x = true -> valid_binary y = true ->
  SFcompare x y = compare_ranks (SFrank x) (SFrank y).
Proof.
  intros Hx Hy.
  assert (Hfin : forall m e, bounded prec emax m e = true ->
                   2 ^ 53 <= (e - emin + 1) * 2 ^ 53 + Zpos m < 4000 * 2 ^ 53).
  { intros m e Hb. pose proof Hb as Hb'.
    apply bounded_facts in Hb as (He & Hm & _).
    unfold bounded in Hb'. apply andb_true_iff in Hb' as [_ Hmax].
    apply Z.leb_le in Hmax. unfold emax, prec, SpecFloat.emin in *.
    pose proof (Pos2Z.is_pos m). lia. }
  destruct x as [sx | sx | | sx mx ex], y as [sy | sy | | sy my ey];
    cbn [SFcompare SFrank compare_ranks valid_binary SpecFloat.valid_binary] in *;
    try reflexivity.
  all: try (pose proof (Hfin mx ex Hx) as Hfx).
  all: try (pose proof (Hfin my ey Hy) as Hfy).
  all: f_equal; symmetry.
  all: try (destruct sx; try destruct sy; cbn [cond_Zopp];
            first [ reflexivity
                  | apply Z.compare_lt_iff; lia
                  | apply Z.compare_gt_iff; lia ]; fail).
  all: try (destruct sy; cbn [cond_Zopp];
            first [ reflexivity
                  | apply Z.compare_lt_iff; lia
                  | apply Z.compare_gt_iff; lia ]; fail).
  (* two finite numbers *)
  apply bounded_facts in Hx as (Hex & Hmx & _).
  apply bounded_facts in Hy as (Hey & Hmy & _).
  pose proof (Pos2Z.is_pos mx). pose proof (Pos2Z.is_pos my).
  change (Pos.compare_cont Eq mx my) with (Pos.compare mx my).
  rewrite Pos2Z.inj_compare.
  unfold SpecFloat.emin, emax, prec in *.
  destruct sx, sy; cbn [cond_Zopp];
    destruct (Z.compare_spec ex ey) as [E | E | E];
    try (first [ apply Z.compare_lt_iff; lia | apply Z.compare_gt_iff; lia ]; fail).
  all: subst ey;
    destruct (Z.compare_spec (Zpos mx) (Zpos my)) as [E' | E' | E']; cbn [CompOpp];
      first [ apply Z.compare_eq_iff; lia
            | apply Z.compare_lt_iff; lia | apply Z.compare_gt_iff; lia ].
Qed.

Lemma compare_rank (x y : float) :
  SFcompare (Prim2SF x) (Prim2SF y) = compare_ranks (rank x) (rank y).
Proof. apply SFcompare_rank; apply Prim2SF_valid. Qed.

Lemma ltb_rank (x y : float) :
  (x <? y)%float = match rank x, rank y with
                   | Some a, Some b => a <? b
                   | _, _ => false
                   end.
Proof.
  rewrite FloatAxioms.ltb_spec. unfold SFltb. rewrite compare_rank.
  destruct (rank x) as [a |], (rank y) as [b |]; reflexivity.
Qed.

Lemma leb_rank (x y : float) :
  (x <=? y)%float = match rank x, rank y with
                    | Some a, Some b => a <=? b
                    | _, _ => false
                    end.
Proof.
  rewrite FloatAxioms.leb_spec. unfold SFleb. rewrite compare_rank.
  destruct (rank x) as [a |], (rank y) as [b |]; try reflexivity.
  all: cbn [compare_ranks]; unfold Z.leb; now destruct (a ?= b).
Qed.

Lemma eqb_rank (x y : float) :
  (x =? y)%float = match rank x, rank y with
                   | Some a, Some b => a =? b
                   | _, _ => false
                   end.
Proof.
  rewrite FloatAxioms.eqb_spec. unfold SFeqb. rewrite compare_rank.
  destruct (rank x) as [a |], (rank y) as [b |]; try reflexivity.
  cbn [compare_ranks]. rewrite Z.eqb_compare. now destruct (a ?= b).
Qed.

Lemma is_nan_rank (x : float) :
  is_nan x = match rank x with Some _ => false | None => true end.
Proof.
  unfold is_nan. rewrite eqb_rank.
  destruct (rank x) as [a |]; [| reflexivity]. now rewrite Z.eqb_refl.
Qed.

(** ** Lists: [slice] and [LRANGE] *)

Lemma slice_0_take {A} (l : list A) (n : Z) :
  0 <= n -> Js.slice l 0 (Some n) = take (Z.to_nat n) l.
Proof.
  intros Hn. unfold Js.slice, Js.rel_index.
  replace (0 <? 0) with false by reflexivity.
  destruct (n <? 0) eqn:E; [apply Z.ltb_lt in E; lia |].
  rewrite (Z.min_l 0) by lia. simpl drop. rewrite drop_0, Z.sub_0_r.
  destruct (Z.le_gt_cases n (Z.of_nat (length l))) as [Hle | Hgt].
  - rewrite Z.min_l by lia. reflexivity.
  - rewrite Z.min_r by lia. rewrite Nat2Z.id.
    rewrite !take_ge by lia. reflexivity.
Qed.

Lemma slice_all {A} (l : list A) : Js.slice l 0 None = l.
Proof.
  unfold Js.slice, Js.rel_index.
  replace (0 <? 0) with false by reflexivity.
  rewrite (Z.min_l 0) by lia. rewrite Z.sub_0_r, Nat2Z.id.
  simpl drop. rewrite drop_0. apply take_ge. lia.
Qed.

(** Case analysis on every integer comparison of the goal. *)
Ltac case_Zb :=
  repeat match goal with
         | |- context [?a <? ?b] => destruct (Z.ltb_spec a b)
         | |- context [?a <=? ?b] => destruct (Z.leb_spec a b)
         | |- context [?a >? ?b] => rewrite (Z.gtb_ltb a b)
         | |- context [?a >=? ?b] => rewrite (Z.geb_leb a b)
         | |- context [?a =? ?b] => destruct (Z.eqb_spec a b)
         end;
  cbn [orb andb negb].

Lemma lrange_prefix {A} (l : list A) (limit : Z) :
  1 <= limit -> Redis.lrange l 0 (limit - 1) = take (Z.to_nat limit) l.
Proof.
  intros Hl. unfold Redis.lrange. case_Zb; try lia.
  all: change (Z.to_nat 0) with 0%nat; rewrite ?drop_0.
  all: first [ f_equal; lia
             | rewrite !take_ge by lia; reflexivity
             | destruct l; [now rewrite take_nil | simpl in *; lia] ].
Qed.

Lemma lrange_whole {A} (l : list A) : Redis.lrange l 0 (-1) = l.
Proof.
  unfold Redis.lrange. case_Zb; try lia.
  all: change (Z.to_nat 0) with 0%nat; rewrite ?drop_0.
  all: first [ apply take_ge; lia
             | destruct l; [reflexivity | simpl in *; lia] ].
Qed.

(** The stand-in of [config/redis.js] slices exactly the range that
    LRANGE denotes. *)
Lemma MemoryStorage_lrange_is_LRANGE {A} (data : gmap string (list A))
    (key : string) (start stop : Z) :
  MemoryStorage.lrange data key start stop =
  Redis.lrange (default [] (data !! key)) start stop.
Proof.
  unfold MemoryStorage.lrange, Redis.lrange, Js.slice, Js.rel_index.
  set (l := default [] (data !! key)).
  set (n := Z.of_nat (length l)).
  assert (Hn : 0 <= n) by (subst n; lia).
  assert (Hlen : length l = Z.to_nat n) by (subst n; lia).
  assert (Hempty : forall a b, (Z.to_nat a = 0%nat \/ (n <= Z.of_nat (Z.to_nat b)))
                     -> take (Z.to_nat a) (drop (Z.to_nat b) l) = []).
  { intros a b [Ha | Hb].
    - rewrite Ha. reflexivity.
    - rewrite drop_ge by lia. apply take_nil. }
  assert (Heq : forall a a' b b', b = b' ->
                  (Z.to_nat a `min` (Z.to_nat n - Z.to_nat b) =
                   Z.to_nat a' `min` (Z.to_nat n - Z.to_nat b'))%nat ->
                  take (Z.to_nat a) (drop (Z.to_nat b) l) =
                  take (Z.to_nat a') (drop (Z.to_nat b') l)).
  { intros a a' b b' -> Hm.
    assert (Hd : length (drop (Z.to_nat b') l) = (Z.to_nat n - Z.to_nat b')%nat)
      by (rewrite length_drop; lia).
    destruct (Nat.le_gt_cases (Z.to_nat a) (Z.to_nat n - Z.to_nat b')),
             (Nat.le_gt_cases (Z.to_nat a') (Z.to_nat n - Z.to_nat b')).
    - f_equal. lia.
    - rewrite (take_ge _ (Z.to_nat a')) by lia.
      replace (Z.to_nat a) with (Z.to_nat n - Z.to_nat b')%nat by lia.
      apply take_ge. lia.
    - rewrite (take_ge _ (Z.to_nat a)) by lia.
      replace (Z.to_nat a') with (Z.to_nat n - Z.to_nat b')%nat by lia.
      symmetry. apply take_ge. lia.
    - rewrite !take_ge by lia. reflexivity. }
  destruct (stop =? -1) eqn:Es; [apply Z.eqb_eq in Es; subst stop |
                                 apply Z.eqb_neq in Es];
    destruct (start <? 0) eqn:E1;
      [apply Z.ltb_lt in E1 | apply Z.ltb_ge in E1
      | apply Z.ltb_lt in E1 | apply Z.ltb_ge in E1];
    case_Zb;
    first [ apply Hempty; lia | apply Heq; lia ].
Qed.

(** One value pushed by the stand-in lands where LPUSH puts it. *)
Lemma MemoryStorage_lpush_is_LPUSH {A} (data : gmap string (list A))
    (key : string) (value : A) :
  MemoryStorage.lpush data key [value] =
  (<[key := value :: default [] (data !! key)]> data,
   Z.of_nat (S (length (default [] (data !! key))))).
Proof. reflexivity. Qed.

(** ** Examples of the primitives *)

Example toInt32_offset_basis : Js.toInt32 2166136261 = -2128831035.
Proof. reflexivity. Qed.

Example token_hash_a : token_hash "a" = -4763932372.
Proof. reflexivity. Qed.

Example tokens_of_headline :
  tokens_of "Rates UP 0.25%, markets-react!" = ["rates"; "up"; "0"; "25"; "markets"; "react"].
Proof. reflexivity. Qed.

Example split_keeps_outer_pieces :
  split_non_alnum ",a,,b," = [EmptyString; "a"; "b"; EmptyString].
Proof. reflexivity. Qed.

Example isUuid_v4 : isUuid "123e4567-e89b-42d3-a456-426614174000" = true.
Proof. reflexivity. Qed.

Example isUuid_chunk_id : isUuid "123e4567-e89b-42d3-a456-426614174000_chunk_0" = false.
Proof. reflexivity. Qed.

Example lrange_drops_last : Redis.lrange [1; 2; 3; 4] 0 (-2) = [1; 2; 3].
Proof. reflexivity. Qed.

Example degradable_quota : degradable "[429 Too Many Requests] quota exceeded" = true.
Proof. reflexivity. Qed.

Example not_degradable_safety : degradable "Candidate was blocked due to SAFETY" = false.
Proof. reflexivity. Qed.

(** ** The transcript *)

Lemma list_at_insert (db : gmap string (list ChatMessage)) (key : string)
    (l : list ChatMessage) :
  Redis.list_at (<[key := l]> db) key = l.
Proof. unfold Redis.list_at. now rewrite lookup_insert_eq. Qed.

Lemma lPush_run (w : World) (key : string) (value : ChatMessage) (m : Machine) :
  redis_failure w = None ->
  Redis.lPush w key value m =
  ({| this := this m;
      redis := <[key := value :: Redis.list_at (redis m) key]> (redis m);
      trace := trace m ++ [EvLPush key value] |},
   Return (Z.of_nat (S (length (Redis.list_at (redis m) key))))).
Proof. intros Hw. unfold Redis.lPush. rewrite Hw. reflexivity. Qed.

(** Appending puts the messages in front of the list, the newest first. *)
Lemma append_all_run (w : World) (sessionId : string)
    (messages : list ChatMessage) (m : Machine) :
  redis_failure w = None ->
  snd (append_all w sessionId messages m) = Return tt /\
  Redis.list_at (redis (fst (append_all w sessionId messages m)))
                (chat_key sessionId) =
  rev messages ++ Redis.list_at (redis m) (chat_key sessionId).
Proof.
  intros Hw. revert m.
  induction messages as [| message rest IH]; intros m.
  - split; reflexivity.
  - cbn [append_all]. unfold bind. rewrite lPush_run by assumption.
    destruct (IH {| this := this m;
                    redis := <[chat_key sessionId :=
                                 message :: Redis.list_at (redis m) (chat_key sessionId)]>
                               (redis m);
                    trace := trace m ++ [EvLPush (chat_key sessionId) message] |})
      as [IHr IHl].
    split; [exact IHr |].
    rewrite IHl. cbn [redis]. rewrite list_at_insert.
    cbn [rev]. now rewrite <- app_assoc.
Qed.

Lemma getChatHistory_run (w : World) (sessionId : string) (limit : Z)
    (m : Machine) :
  redis_failure w = None ->
  snd (getChatHistory w sessionId limit m) =
  Return (rev (Redis.lrange (Redis.list_at (redis m) (chat_key sessionId))
                            0 (limit - 1))).
Proof.
  intros Hw. unfold getChatHistory, bind, Redis.lRange. rewrite Hw. reflexivity.
Qed.

(** C7, as the code has it.  For a session that received [messages]
    (oldest first) and a read limit of at least 1, [getChatHistory]
    returns the [min (M, limit)] most recent messages, oldest first: the
    messages without their first [M - limit], which is the reverse of the
    first [limit] entries of the stored list.  A limit below 1 is left
    out. *)
Theorem history_window (w : World) (sessionId : string)
    (messages : list ChatMessage) (limit : Z) (m : Machine) :
  redis_failure w = None ->
  redis m !! chat_key sessionId = None ->
  1 <= limit ->
  let stored := Redis.list_at (redis (fst (append_all w sessionId messages m)))
                            (chat_key sessionId) in
  let read := drop (length messages - Z.to_nat limit) messages in
  stored = rev messages /\
  snd (getChatHistory w sessionId limit
         (fst (append_all w sessionId messages m))) = Return read /\
  read = rev (take (Z.to_nat limit) stored) /\
  Z.of_nat (length read) = Z.min (Z.of_nat (length messages)) limit.
Proof.
  intros Hw Hfresh Hl stored read.
  assert (Hstored : stored = rev messages).
  { subst stored.
    destruct (append_all_run w sessionId messages m Hw) as [_ ->].
    unfold Redis.list_at. rewrite Hfresh. cbn [default]. apply app_nil_r. }
  assert (Hread : read = rev (take (Z.to_nat limit) stored)).
  { rewrite Hstored, firstn_rev, rev_involutive. reflexivity. }
  repeat split.
  - exact Hstored.
  - rewrite getChatHistory_run by assumption. fold stored.
    rewrite lrange_prefix by assumption. now rewrite Hread.
  - exact Hread.
  - subst read. rewrite length_drop. lia.
Qed.

(** Three messages appended, read with the limit 2. *)
Lemma history_window_witness :
  let after := fst (append_all calm_world "s" [hello; hi_there; thanks]
                      fresh_machine) in
  let stored := Redis.list_at (redis after) (chat_key "s") in
  stored = [thanks; hi_there; hello] /\
  snd (getChatHistory calm_world "s" 2 after) = Return [hi_there; thanks] /\
  [hi_there; thanks] = rev (take (Z.to_nat 2) stored) /\
  Z.of_nat (length [hi_there; thanks]) = Z.min (Z.of_nat 3) 2.
Proof.
  apply (history_window calm_world "s" [hello; hi_there; thanks] 2 fresh_machine);
    [reflexivity | reflexivity | lia].
Defined.

(** C7 as stated fails at the limit 0: one message was appended, the
    read returns it, and [min (1, 0)] is 0. *)
Lemma history_window_fails_at_zero :
  ~ (forall (w : World) (sessionId : string) (messages : list ChatMessage)
       (limit : Z) (m : Machine),
       redis_failure w = None ->
       redis m !! chat_key sessionId = None ->
       exists read,
         snd (getChatHistory w sessionId limit
                (fst (append_all w sessionId messages m))) = Return read /\
         Z.of_nat (length read) = Z.min (Z.of_nat (length messages)) limit).
Proof.
  intros claim.
  destruct (claim calm_world "s" [hello] 0 fresh_machine eq_refl eq_refl)
    as [read [Hread Hlen]].
  vm_compute in Hread. injection Hread as <-. discriminate Hlen.
Qed.

(** C10.  With the limit 0 the range read is [0 .. -1], the whole list:
    [getChatHistory] returns every message of the transcript, oldest
    first, and not the empty list. *)
Theorem history_limit_zero (w : World) (sessionId : string) (m : Machine) :
  redis_failure w = None ->
  Redis.list_at (redis m) (chat_key sessionId) <> [] ->
  let transcript := Redis.list_at (redis m) (chat_key sessionId) in
  Redis.lrange transcript 0 (0 - 1) = transcript /\
  snd (getChatHistory w sessionId 0 m) = Return (rev transcript) /\
  length (rev transcript) = length transcript /\
  rev transcript <> [].
Proof.
  intros Hw Hne transcript.
  assert (Hall : Redis.lrange transcript 0 (0 - 1) = transcript)
    by apply lrange_whole.
  repeat split.
  - exact Hall.
  - rewrite getChatHistory_run by assumption. fold transcript.
    now rewrite Hall.
  - apply length_rev.
  - intros Hrev. apply Hne. fold transcript.
    rewrite <- (rev_involutive transcript), Hrev. reflexivity.
Qed.

(** Three messages appended, read with the limit 0. *)
Lemma history_limit_zero_witness :
  let m := fst (append_all calm_world "s" [hello; hi_there; thanks] fresh_machine) in
  let transcript := Redis.list_at (redis m) (chat_key "s") in
  Redis.lrange transcript 0 (0 - 1) = transcript /\
  snd (getChatHistory calm_world "s" 0 m) = Return (rev transcript) /\
  length (rev transcript) = length transcript /\
  rev transcript <> [].
Proof.
  apply (history_limit_zero calm_world "s"
           (fst (append_all calm_world "s" [hello; hi_there; thanks] fresh_machine)));
    [reflexivity | vm_compute; discriminate].
Defined.

(** ** Embeddings *)

Section Embedding.

Context `{Host}.

Lemma pad_loop_spec (fuel : nat) (dim : Z) (padded : list float) :
  pad_loop fuel dim padded =
  padded ++ replicate (fuel `min` Z.to_nat (dim - Z.of_nat (length padded))) 0%float.
Proof.
  revert padded. induction fuel as [| fuel IH]; intros padded.
  - cbn. now rewrite app_nil_r.
  - cbn [pad_loop]. destruct (Z.ltb_spec (Z.of_nat (length padded)) dim) as [Hlt | Hge].
    + rewrite IH, length_app. cbn [length]. rewrite <- app_assoc. f_equal.
      replace (S fuel `min` Z.to_nat (dim - Z.of_nat (length padded)))%nat
        with (S (fuel `min` Z.to_nat (dim - Z.of_nat (length padded + 1)%nat)))
        by lia.
      reflexivity.
    + replace (Z.to_nat (dim - Z.of_nat (length padded))) with 0%nat by lia.
      rewrite Nat.min_0_r. cbn. now rewrite app_nil_r.
Qed.

(** The three cases of the harmonization, for a positive dimension. *)
Lemma harmonize_spec (dim : Z) (vec : list float) :
  0 < dim ->
  let len := Z.of_nat (length vec) in
  Z.of_nat (length (harmonize dim vec)) = dim /\
  (len = dim -> harmonize dim vec = vec) /\
  (len > dim -> harmonize dim vec = take (Z.to_nat dim) vec) /\
  (len < dim ->
   harmonize dim vec = vec ++ replicate (Z.to_nat (dim - len)) 0%float).
Proof.
  intros Hdim len.
  assert (Heq : len = dim -> harmonize dim vec = vec).
  { intros E. unfold harmonize. fold len. rewrite E, Z.eqb_refl. reflexivity. }
  assert (Hgt : len > dim -> harmonize dim vec = take (Z.to_nat dim) vec).
  { intros E. unfold harmonize. fold len.
    destruct (Z.eqb_spec len dim); [lia |].
    rewrite Z.gtb_ltb. destruct (Z.ltb_spec dim len); [| lia].
    apply slice_0_take. lia. }
  assert (Hlt : len < dim ->
                harmonize dim vec = vec ++ replicate (Z.to_nat (dim - len)) 0%float).
  { intros E. unfold harmonize. fold len.
    destruct (Z.eqb_spec len dim); [lia |].
    rewrite Z.gtb_ltb. destruct (Z.ltb_spec dim len); [lia |].
    rewrite slice_all, pad_loop_spec. fold len. f_equal. f_equal. lia. }
  repeat split; try assumption.
  destruct (Z.lt_trichotomy len dim) as [E | [E | E]].
  - rewrite Hlt by assumption. rewrite length_app, length_replicate. lia.
  - rewrite Heq by assumption. exact E.
  - rewrite Hgt by lia. rewrite length_take. lia.
Qed.

(** C6.  With a key for the provider, an established dimension [dim]
    and a provider that returns [vec], [generateEmbedding] returns a
    vector of length [dim]: [vec] itself when the lengths agree, its
    first [dim] components when it is longer, [vec] followed by zeros
    when it is shorter. *)
Theorem generateEmbedding_harmonizes (w : World) (text : string)
    (m : Machine) (key : string) (dim : Z) (vec : list float) :
  jinaApiKey (this m) = Some key ->
  Js.truthy key = true ->
  embeddingDim (this m) = Some dim ->
  0 < dim ->
  embedding_api w text = EmbedVector vec ->
  let len := Z.of_nat (length vec) in
  exists result,
    snd (generateEmbedding w text m) = Return (Vector result) /\
    Z.of_nat (length result) = dim /\
    (len = dim -> result = vec) /\
    (len > dim -> result = take (Z.to_nat dim) vec) /\
    (len < dim -> result = vec ++ replicate (Z.to_nat (dim - len)) 0%float).
Proof.
  intros Hkey Htruthy Hdim Hpos Hreply len.
  exists (harmonize dim vec). split.
  - unfold generateEmbedding, bind, try_catch, emit, get_this, ret.
    cbn. rewrite Hkey. cbn. rewrite Htruthy. cbn.
    rewrite Hreply, Hdim. cbn.
    destruct (Z.eqb_spec dim 0); [lia | reflexivity].
  - apply harmonize_spec. assumption.
Qed.

End Embedding.

(** A provider vector of length 3 for a collection of dimension 5. *)
Lemma generateEmbedding_harmonizes_witness :
  exists result,
    snd (@generateEmbedding sample_host calm_world "rates" (keyed_machine 5))
    = Return (Vector result) /\
    Z.of_nat (length result) = 5 /\
    (3 = 5 -> result = [1; 0; 0]%float) /\
    (3 > 5 -> result = take (Z.to_nat 5) [1; 0; 0]%float) /\
    (3 < 5 -> result = [1; 0; 0]%float ++ replicate (Z.to_nat (5 - 3)) 0%float).
Proof.
  apply (@generateEmbedding_harmonizes sample_host calm_world "rates"
           (keyed_machine 5) "jina_key" 5 [1; 0; 0]%float);
    [reflexivity | reflexivity | reflexivity | lia | reflexivity].
Defined.

Section FallbackEmbedding.

Context `{Host}.

Lemma generateEmbedding_fallback (w : World) (text : string) (m : Machine) :
  takes_fallback w (this m) text = true ->
  snd (generateEmbedding w text m) = fallbackEmbedding (fallback_dim (this m)) text.
Proof.
  unfold takes_fallback, fallback_dim, generateEmbedding, bind, try_catch,
    emit, get_this, ret, throw.
  cbn. intros Hfb.
  destruct (truthy_key (jinaApiKey (this m))); cbn in *.
  - destruct (embedding_api w text); cbn; try discriminate;
      destruct (truthy_dim (embeddingDim (this m))); reflexivity.
  - destruct (truthy_dim (embeddingDim (this m))); reflexivity.
Qed.

(** Counting on natural numbers gives the same vector as the loop. *)
Lemma count_tokens_counts (dim : Z) (tokens : list string) (counts : list nat) :
  count_tokens dim tokens (map count_of counts) =
  map count_of
    (fold_left (fun c t => alter S (Z.to_nat (bucket dim t)) c) tokens counts).
Proof.
  revert counts. induction tokens as [| t tokens IH]; intros counts.
  - reflexivity.
  - unfold count_tokens in *. cbn [fold_left].
    rewrite <- IH. f_equal.
    change (map count_of) with (fmap (M := list) count_of).
    rewrite (list_fmap_alter count_of S (fun v => (v + 1)%float));
      [reflexivity |].
    apply Forall_forall. intros c _. reflexivity.
Qed.

Lemma tally_cons (dim : Z) (t : string) (tokens : list string) (i : nat) :
  tally dim (t :: tokens) i =
  ((if (bucket dim t =? Z.of_nat i)%Z then 1 else 0) + tally dim tokens i)%nat.
Proof.
  unfold tally. cbn [List.filter].
  destruct (bucket dim t =? Z.of_nat i); reflexivity.
Qed.

Lemma bucket_range (dim : Z) (t : string) :
  0 < dim -> 0 <= bucket dim t < dim.
Proof. intros Hd. unfold bucket. apply Z.rem_bound_pos; lia. Qed.

(** Each token adds one to the component of its bucket, and to no other. *)
Lemma fold_alter_lookup (dim : Z) (tokens : list string) (counts : list nat)
    (i : nat) :
  0 < dim ->
  fold_left (fun c t => alter S (Z.to_nat (bucket dim t)) c)
            tokens counts !! i =
  (fun v => (v + tally dim tokens i)%nat) <$> counts !! i.
Proof.
  intros Hd. revert counts.
  induction tokens as [| t tokens IH]; intros counts.
  - cbn. destruct (counts !! i); cbn; [f_equal; unfold tally; cbn; lia | reflexivity].
  - cbn [fold_left]. rewrite IH, tally_cons.
    pose proof (bucket_range dim t Hd) as Hb.
    destruct (Z.eqb_spec (bucket dim t) (Z.of_nat i)) as [E | E].
    + replace (Z.to_nat (bucket dim t)) with i by lia.
      rewrite list_lookup_alter_eq.
      destruct (counts !! i); cbn; [f_equal; lia | reflexivity].
    + rewrite list_lookup_alter_ne by lia.
      destruct (counts !! i); cbn; [f_equal; lia | reflexivity].
Qed.

(** The vector before normalization holds, in each bucket, the count of
    the tokens that hash to it. *)
Lemma count_tokens_tally (dim : Z) (tokens : list string) :
  0 < dim ->
  count_tokens dim tokens (replicate (Z.to_nat dim) 0%float) =
  map (fun i => count_of (tally dim tokens i)) (seq 0 (Z.to_nat dim)).
Proof.
  intros Hd.
  change (replicate (Z.to_nat dim) 0%float)
    with (replicate (Z.to_nat dim) (count_of 0)).
  rewrite <- (fmap_replicate count_of).
  change (fmap (M := list) count_of) with (map count_of).
  rewrite count_tokens_counts.
  apply list_eq. intros i.
  rewrite !list_lookup_fmap, fold_alter_lookup by assumption.
  destruct (Nat.lt_ge_cases i (Z.to_nat dim)) as [Hi | Hi].
  - rewrite lookup_replicate_2 by assumption.
    rewrite lookup_seq_lt by assumption. cbn. reflexivity.
  - rewrite (proj1 (lookup_replicate_None _ _ _)) by lia.
    rewrite lookup_seq_ge by assumption. reflexivity.
Qed.

Lemma forallb_append (p : ascii -> bool) (a b : string) :
  forallb p (list_ascii_of_string (a +:+ b)) =
  forallb p (list_ascii_of_string a) && forallb p (list_ascii_of_string b).
Proof.
  induction a as [| c a IH]; simpl.
  - reflexivity.
  - rewrite IH. apply andb_assoc.
Qed.

Lemma split_go_alnum (in_sep : bool) (cur s : string) :
  forallb Js.is_lower_alnum (list_ascii_of_string cur) = true ->
  Forall (fun t => forallb Js.is_lower_alnum (list_ascii_of_string t) = true)
         (split_go in_sep cur s).
Proof.
  revert in_sep cur. induction s as [| c s IH]; intros in_sep cur Hcur.
  - cbn. repeat constructor. assumption.
  - cbn [split_go]. destruct (Js.is_lower_alnum c) eqn:Ec.
    + apply IH. rewrite forallb_append, Hcur.
      cbn [list_ascii_of_string forallb]. now rewrite Ec.
    + destruct in_sep.
      * now apply IH.
      * constructor; [assumption | now apply IH].
Qed.

(** Splitting at the runs of separators and dropping the empty pieces
    leaves the maximal runs of [a-z0-9]. *)
Lemma split_go_runs (in_sep : bool) (cur s : string) :
  (in_sep = true -> cur = EmptyString) ->
  List.filter Js.truthy (split_go in_sep cur s) = runs cur s.
Proof.
  revert in_sep cur. induction s as [| c s IH]; intros in_sep cur Hsep.
  - cbn. destruct (Js.truthy cur); reflexivity.
  - cbn [split_go runs]. destruct (Js.is_lower_alnum c).
    + apply IH. discriminate.
    + destruct in_sep.
      * rewrite (Hsep eq_refl). cbn [Js.truthy app]. now apply IH.
      * cbn [List.filter]. rewrite (IH true EmptyString) by reflexivity.
        destruct (Js.truthy cur); reflexivity.
Qed.

Lemma tokens_are_runs (text : string) :
  tokens_of text = runs EmptyString (Js.toLowerCase text).
Proof. apply split_go_runs. discriminate. Qed.

Lemma tokens_are_tokens (text : string) : Forall is_token (tokens_of text).
Proof.
  unfold tokens_of, split_non_alnum.
  pose proof (split_go_alnum false EmptyString (Js.toLowerCase text) eq_refl) as Hall.
  induction Hall as [| t pieces Ht _ IH]; cbn [List.filter].
  - constructor.
  - destruct (Js.truthy t) eqn:Et; [| exact IH].
    constructor; [| exact IH].
    split; [| exact Ht]. intros ->. discriminate Et.
Qed.

(** C4.  Two runs of [generateEmbedding] that go to the fallback, on the
    same text and with the same dimension, return the same vector,
    whatever the two worlds and the rest of the two machines are.  For a
    dimension that an array can have, the vector is this one: the tokens
    are the maximal runs of [a-z0-9] of the lower-cased text; the hash
    of a token starts at 2166136261 and takes, for each character, the
    exclusive or with its code and then the sum with its shifts by 1, 4,
    7, 8 and 24; the bucket of a token is the remainder of the absolute
    value of its hash by the dimension; the component [i] is the count
    of the tokens of bucket [i]; every component is divided by the
    square root of the sum of the squares of the counts, or by 1 when
    that is 0 or [NaN]. *)
Theorem fallback_embedding_deterministic (w1 w2 : World) (m1 m2 : Machine)
    (text : string) :
  takes_fallback w1 (this m1) text = true ->
  takes_fallback w2 (this m2) text = true ->
  fallback_dim (this m1) = fallback_dim (this m2) ->
  let dim := fallback_dim (this m1) in
  let tokens := tokens_of text in
  snd (generateEmbedding w1 text m1) = snd (generateEmbedding w2 text m2) /\
  (0 < dim <= 2 ^ 32 - 1 ->
   let counts :=
     map (fun i => count_of (tally dim tokens i)) (seq 0 (Z.to_nat dim)) in
   let squares := fold_left (fun s v => (s + v * v)%float) counts 0%float in
   let norm := Js.num_or (Math_sqrt squares) 1%float in
   snd (generateEmbedding w1 text m1) =
   Return (Vector (map (fun v => (v / norm)%float) counts))) /\
  tokens = runs EmptyString (Js.toLowerCase text) /\
  Forall is_token tokens /\
  (forall t, 0 < dim ->
     bucket dim t = Z.abs (token_hash t) mod dim /\ 0 <= bucket dim t < dim) /\
  (forall t,
     token_hash t =
     fold_left
       (fun h c =>
          let x := Js.xor h (Js.charCode c) in
          x + (Js.shl x 1 + Js.shl x 4 + Js.shl x 7 + Js.shl x 8 + Js.shl x 24))
       (list_ascii_of_string t) 2166136261).
Proof.
  intros Hf1 Hf2 Hdim dim tokens.
  repeat split.
  - rewrite !generateEmbedding_fallback by assumption. now rewrite Hdim.
  - intros [Hpos Hmax] counts squares norm.
    rewrite generateEmbedding_fallback by assumption. fold dim.
    unfold fallbackEmbedding.
    destruct (Z.ltb_spec dim 0); [lia |].
    rewrite Z.gtb_ltb. destruct (Z.ltb_spec (2 ^ 32 - 1) dim); [lia |].
    cbn [orb]. unfold normalize, norm_of. fold tokens.
    rewrite count_tokens_tally by assumption. reflexivity.
  - apply tokens_are_runs.
  - apply tokens_are_tokens.
  - unfold bucket. apply Z.rem_mod_nonneg; lia.
  - apply bucket_range. assumption.
  - apply bucket_range. assumption.
Qed.

End FallbackEmbedding.

(** One text embedded without a key, and with a key while the provider
    times out. *)
Lemma fallback_embedding_deterministic_witness :
  let dim := fallback_dim (this (offline_machine 8)) in
  let tokens := tokens_of "Rates rise; rates fall." in
  snd (@generateEmbedding sample_host calm_world "Rates rise; rates fall."
         (offline_machine 8)) =
  snd (@generateEmbedding sample_host provider_down "Rates rise; rates fall."
         (keyed_machine 8)) /\
  (0 < dim <= 2 ^ 32 - 1 ->
   let counts :=
     map (fun i => count_of (tally dim tokens i)) (seq 0 (Z.to_nat dim)) in
   let squares := fold_left (fun s v => (s + v * v)%float) counts 0%float in
   let norm := Js.num_or (@Math_sqrt sample_host squares) 1%float in
   snd (@generateEmbedding sample_host calm_world "Rates rise; rates fall."
          (offline_machine 8)) =
   Return (Vector (map (fun v => (v / norm)%float) counts))) /\
  tokens = runs EmptyString (Js.toLowerCase "Rates rise; rates fall.") /\
  Forall is_token tokens /\
  (forall t, 0 < dim ->
     bucket dim t = Z.abs (token_hash t) mod dim /\ 0 <= bucket dim t < dim) /\
  (forall t,
     token_hash t =
     fold_left
       (fun h c =>
          let x := Js.xor h (Js.charCode c) in
          x + (Js.shl x 1 + Js.shl x 4 + Js.shl x 7 + Js.shl x 8 + Js.shl x 24))
       (list_ascii_of_string t) 2166136261).
Proof.
  apply (@fallback_embedding_deterministic sample_host calm_world provider_down
           (offline_machine 8) (keyed_machine 8) "Rates rise; rates fall.");
    reflexivity.
Defined.

(** The run of the witness: four tokens, two of them the same, fall
    into the buckets 4, 0, 4 and 0 of eight; the counts are 2 and 2, the
    norm is the root of 8, and the two components are 0.7071067811865475. *)
Example fallback_embedding_of_rates :
  tokens_of "Rates rise; rates fall." = ["rates"; "rise"; "rates"; "fall"] /\
  map token_hash ["rates"; "rise"; "fall"]
  = [-852577412; -450133792; 4166649696] /\
  map (bucket 8) ["rates"; "rise"; "fall"] = [4; 0; 0] /\
  map (tally 8 (tokens_of "Rates rise; rates fall.")) (seq 0 8)
  = [2; 0; 0; 0; 2; 0; 0; 0]%nat /\
  snd (@generateEmbedding sample_host provider_down "Rates rise; rates fall."
         (keyed_machine 8))
  = Return (Vector [0x1.6a09e667f3bccp-1; 0; 0; 0;
                    0x1.6a09e667f3bccp-1; 0; 0; 0]%float).
Proof. repeat split; vm_compute; reflexivity. Qed.

(** ** Similarity search in the in-process store *)

(** *** The order of the numbers *)

Lemma number_rank (x : float) :
  PrimFloat.is_nan x = false -> exists k, rank x = Some k.
Proof.
  rewrite is_nan_rank. destruct (rank x) as [k |]; [eauto | discriminate].
Qed.

Lemma leb_is_number (x y : float) :
  (x <=? y)%float = true ->
  PrimFloat.is_nan x = false /\ PrimFloat.is_nan y = false.
Proof.
  rewrite leb_rank, !is_nan_rank.
  destruct (rank x), (rank y); try discriminate. now split.
Qed.

Lemma leb_trans (x y z : float) :
  (x <=? y)%float = true -> (y <=? z)%float = true -> (x <=? z)%float = true.
Proof.
  rewrite !leb_rank.
  destruct (rank x), (rank y), (rank z); try discriminate.
  rewrite !Z.leb_le. lia.
Qed.

Lemma ltb_leb (x y : float) :
  (x <? y)%float = true -> (x <=? y)%float = true.
Proof.
  rewrite ltb_rank, leb_rank.
  destruct (rank x), (rank y); try discriminate.
  rewrite Z.ltb_lt, Z.leb_le. lia.
Qed.

Lemma not_ltb_leb (x y : float) :
  PrimFloat.is_nan x = false -> PrimFloat.is_nan y = false ->
  (x <? y)%float = false -> (y <=? x)%float = true.
Proof.
  rewrite ltb_rank, leb_rank, !is_nan_rank.
  destruct (rank x), (rank y); try discriminate.
  rewrite Z.ltb_ge, Z.leb_le. lia.
Qed.

Lemma eqb_not_ltb (x y s : float) :
  (x =? s)%float = true -> (y =? s)%float = true -> (x <? y)%float = false.
Proof.
  rewrite !eqb_rank, ltb_rank.
  destruct (rank x), (rank y), (rank s); try discriminate.
  rewrite !Z.eqb_eq, Z.ltb_ge. lia.
Qed.

Lemma eqb_number_refl (x : float) :
  PrimFloat.is_nan x = false -> (x =? x)%float = true.
Proof.
  rewrite eqb_rank, is_nan_rank.
  destruct (rank x); [intros _; apply Z.eqb_refl | discriminate].
Qed.

Lemma leb_antisym (x y : float) :
  (x <=? y)%float = true -> (y <=? x)%float = true -> (x =? y)%float = true.
Proof.
  rewrite !leb_rank, eqb_rank.
  destruct (rank x), (rank y); try discriminate.
  rewrite !Z.leb_le, Z.eqb_eq. lia.
Qed.

Lemma eqb_trans_l (x y s : float) :
  (x =? y)%float = true -> (x =? s)%float = (y =? s)%float.
Proof.
  rewrite !eqb_rank.
  destruct (rank x), (rank y), (rank s); try discriminate; try reflexivity.
  rewrite Z.eqb_eq. now intros ->.
Qed.

(** *** The comparator and the sort *)

Section Search.

Context `{Host}.

(** The comparator puts first the match of the higher score. *)
Lemma by_score_before (x y : Doc) :
  comes_before by_score x y = (doc_score y <? doc_score x)%float.
Proof. unfold comes_before, by_score. apply sub_sign. Qed.

Lemma by_score_after (x y : Doc) :
  comes_after by_score x y = (doc_score x <? doc_score y)%float.
Proof. unfold comes_after, by_score. apply sub_sign. Qed.

(** On scores that are numbers the comparator is consistent. *)
Lemma by_score_consistent (l : list Doc) :
  scores_are_numbers l -> consistent by_score l = true.
Proof.
  intros Hnum. unfold consistent.
  assert (Hk : forall d, In d l -> exists k, rank (doc_score d) = Some k).
  { intros d Hd. apply number_rank.
    exact (proj1 (List.Forall_forall _ _) Hnum d Hd). }
  apply forallb_forall. intros a Ha. destruct (Hk a Ha) as [ka Ea].
  apply andb_true_iff. split.
  { unfold ties. rewrite by_score_before, by_score_after, ltb_rank, Ea.
    now rewrite Z.ltb_irrefl. }
  apply forallb_forall. intros b Hb. destruct (Hk b Hb) as [kb Eb].
  apply andb_true_iff. split.
  { unfold ties. rewrite !by_score_before, !by_score_after, !ltb_rank, Ea, Eb.
    destruct (Z.ltb_spec ka kb), (Z.ltb_spec kb ka); reflexivity. }
  apply forallb_forall. intros c Hc. destruct (Hk c Hc) as [kc Ec].
  unfold ties. rewrite !by_score_before, !by_score_after, !ltb_rank, Ea, Eb, Ec.
  destruct (Z.ltb_spec ka kb), (Z.ltb_spec kb ka), (Z.ltb_spec kb kc),
    (Z.ltb_spec kc kb), (Z.ltb_spec ka kc), (Z.ltb_spec kc ka);
    try reflexivity; lia.
Qed.

Lemma sort_insert_perm {A} (cmp : A -> A -> float) (x : A) (l : list A) :
  Permutation (sort_insert cmp x l) (x :: l).
Proof.
  induction l as [| y l IH]; cbn [sort_insert].
  - reflexivity.
  - destruct (comes_before cmp y x).
    + rewrite IH. apply perm_swap.
    + reflexivity.
Qed.

Lemma stable_sort_perm {A} (cmp : A -> A -> float) (l : list A) :
  Permutation (stable_sort cmp l) l.
Proof.
  induction l as [| x l IH]; cbn.
  - reflexivity.
  - fold (stable_sort cmp l). rewrite sort_insert_perm. now rewrite IH.
Qed.

(** Whatever the comparator, the sort reorders and neither adds nor
    loses an element. *)
Lemma array_sort_perm {A} (cmp : A -> A -> float) (l : list A) :
  Permutation (array_sort cmp l) l.
Proof.
  unfold array_sort. destruct (consistent cmp l).
  - apply stable_sort_perm.
  - apply unspecified_order_perm.
Qed.

Lemma array_sort_numbers (l : list Doc) :
  scores_are_numbers l -> array_sort by_score l = stable_sort by_score l.
Proof.
  intros Hnum. unfold array_sort. now rewrite by_score_consistent.
Qed.

Lemma sort_insert_sorted (x : Doc) (l : list Doc) :
  scores_are_numbers (x :: l) ->
  StronglySorted ranks_before l ->
  StronglySorted ranks_before (sort_insert by_score x l).
Proof.
  intros Hnum Hs. inversion Hnum as [| ? ? Hx Hl]; subst. clear Hnum.
  induction Hs as [| y l Hs IH Hy]; cbn [sort_insert].
  - repeat constructor.
  - inversion Hl as [| ? ? Hny Hl']; subst.
    rewrite by_score_before.
    destruct (doc_score x <? doc_score y)%float eqn:E.
    + constructor; [now apply IH |].
      eapply Permutation_Forall; [symmetry; apply sort_insert_perm |].
      constructor; [| assumption].
      unfold ranks_before. now apply ltb_leb.
    + assert (Hxy : ranks_before x y)
        by (unfold ranks_before; now apply not_ltb_leb).
      constructor; [now constructor |].
      constructor; [assumption |].
      eapply Forall_impl; [exact Hy |].
      intros z Hz. unfold ranks_before in *. eapply leb_trans; eassumption.
Qed.

Lemma stable_sort_sorted (l : list Doc) :
  scores_are_numbers l -> StronglySorted ranks_before (stable_sort by_score l).
Proof.
  induction 1 as [| x l Hx Hl IH]; cbn.
  - constructor.
  - fold (stable_sort by_score l). apply sort_insert_sorted; [| exact IH].
    constructor; [assumption |].
    eapply Permutation_Forall; [symmetry; apply stable_sort_perm | assumption].
Qed.

(** Only a match of a strictly higher score moves in front of [x]. *)
Lemma sort_insert_stable (s : float) (x : Doc) (l : list Doc) :
  with_score s (sort_insert by_score x l) = with_score s (x :: l).
Proof.
  unfold with_score.
  induction l as [| y l IH]; cbn [sort_insert].
  - reflexivity.
  - rewrite by_score_before.
    destruct (doc_score x <? doc_score y)%float eqn:E; [| reflexivity].
    cbn [List.filter] in *. rewrite IH.
    destruct (doc_score x =? s)%float eqn:Ex; [| reflexivity].
    destruct (doc_score y =? s)%float eqn:Ey; [| reflexivity].
    rewrite (eqb_not_ltb _ _ _ Ex Ey) in E. discriminate E.
Qed.

Lemma stable_sort_stable (s : float) (l : list Doc) :
  with_score s (stable_sort by_score l) = with_score s l.
Proof.
  induction l as [| x l IH].
  - reflexivity.
  - change (stable_sort by_score (x :: l))
      with (sort_insert by_score x (stable_sort by_score l)).
    rewrite sort_insert_stable.
    unfold with_score in *. cbn [List.filter]. now rewrite IH.
Qed.

Lemma with_score_nil (l : list Doc) :
  scores_are_numbers l -> (forall s, with_score s l = []) -> l = [].
Proof.
  destruct l as [| d l]; [reflexivity |].
  intros Hnum Hall. inversion Hnum as [| ? ? Hd _]; subst.
  specialize (Hall (doc_score d)).
  unfold with_score in Hall. cbn [List.filter] in Hall.
  rewrite (eqb_number_refl _ Hd) in Hall. discriminate Hall.
Qed.

(** The head of a ranking has the highest score. *)
Lemma head_is_best (a b : Doc) (l1 l2 : list Doc) :
  PrimFloat.is_nan (doc_score a) = false ->
  PrimFloat.is_nan (doc_score b) = false ->
  StronglySorted ranks_before (b :: l2) ->
  (forall s, with_score s (a :: l1) = with_score s (b :: l2)) ->
  (doc_score a <=? doc_score b)%float = true.
Proof.
  intros Ha Hb Hs Hall. specialize (Hall (doc_score a)).
  unfold with_score in Hall. cbn [List.filter] in Hall.
  rewrite (eqb_number_refl _ Ha) in Hall.
  destruct (doc_score b =? doc_score a)%float eqn:Eb.
  - rewrite leb_rank. rewrite eqb_rank in Eb.
    destruct (rank (doc_score a)), (rank (doc_score b)); try discriminate.
    apply Z.eqb_eq in Eb. apply Z.leb_le. lia.
  - assert (Hin : In a (List.filter
                          (fun d => (doc_score d =? doc_score a)%float) l2))
      by (rewrite <- Hall; now left).
    apply filter_In in Hin as [Hin _].
    inversion Hs as [| ? ? _ Hbest]; subst.
    exact (proj1 (List.Forall_forall _ _) Hbest a Hin).
Qed.

(** A ranking of numbers is determined by its order and by the order of
    the matches of each score. *)
Lemma stable_sorted_unique (l1 l2 : list Doc) :
  scores_are_numbers l1 -> scores_are_numbers l2 ->
  StronglySorted ranks_before l1 ->
  StronglySorted ranks_before l2 ->
  (forall s, with_score s l1 = with_score s l2) ->
  l1 = l2.
Proof.
  intros Hn1 Hn2 Hs1. revert l2 Hn2.
  induction Hs1 as [| a l1 Hs1 IH Ha]; intros l2 Hn2 Hs2 Hall.
  - symmetry. apply with_score_nil; [assumption |].
    intros s. now rewrite <- Hall.
  - destruct l2 as [| b l2].
    + apply with_score_nil; [assumption |]. intros s. now rewrite Hall.
    + inversion Hn1 as [| ? ? Hna Hn1']; subst.
      inversion Hn2 as [| ? ? Hnb Hn2']; subst.
      assert (Hab : (doc_score a =? doc_score b)%float = true).
      { apply leb_antisym.
        - eapply head_is_best; eassumption.
        - apply (head_is_best b a l2 l1); try assumption; [now constructor |].
          intros s. symmetry. apply Hall. }
      assert (Heq : a = b).
      { specialize (Hall (doc_score b)). unfold with_score in Hall.
        cbn [List.filter] in Hall.
        rewrite Hab, (eqb_number_refl _ Hnb) in Hall.
        now injection Hall. }
      subst b. f_equal. apply IH; try assumption.
      * now inversion Hs2.
      * intros s. specialize (Hall s). unfold with_score in *.
        cbn [List.filter] in Hall.
        destruct (doc_score a =? s)%float; [now injection Hall | exact Hall].
Qed.

(** On scores that are numbers every sort that is ordered and stable
    returns the list of [array_sort]. *)
Lemma array_sort_is_the_stable_sort (l sorted : list Doc) :
  scores_are_numbers l ->
  Permutation sorted l ->
  StronglySorted ranks_before sorted ->
  (forall s, with_score s sorted = with_score s l) ->
  sorted = array_sort by_score l.
Proof.
  intros Hnum Hperm Hs Hst. rewrite array_sort_numbers by assumption.
  apply stable_sorted_unique.
  - eapply Permutation_Forall; [symmetry; exact Hperm | exact Hnum].
  - eapply Permutation_Forall; [symmetry; apply stable_sort_perm | exact Hnum].
  - exact Hs.
  - now apply stable_sort_sorted.
  - intros s. now rewrite stable_sort_stable.
Qed.

Lemma StronglySorted_take {A} (R : A -> A -> Prop) (n : nat) (l : list A) :
  StronglySorted R l -> StronglySorted R (take n l).
Proof.
  intros Hs. revert n. induction Hs as [| x l Hs IH Hx]; intros [| n]; cbn.
  - constructor.
  - constructor.
  - constructor.
  - constructor; [apply IH |].
    apply Forall_forall. intros y Hy.
    rewrite Forall_forall in Hx. apply Hx.
    eapply subseteq_take. exact Hy.
Qed.

(** *** The score *)

(** The three sums of the loop of [cosine], one by one. *)
Lemma cosine_sums (f g : nat -> float) (idx : list nat) (d na nb : float) :
  fold_left
    (fun '(dot, na, nb) i =>
       let av := f i in
       let bv := g i in
       (dot + av * bv, na + av * av, nb + bv * bv)%float)
    idx (d, na, nb)
  = (fold_left (fun s xy => (s + fst xy * snd xy)%float)
               (combine (map f idx) (map g idx)) d,
     fold_left (fun s xy => (s + fst xy * snd xy)%float)
               (combine (map f idx) (map f idx)) na,
     fold_left (fun s xy => (s + fst xy * snd xy)%float)
               (combine (map g idx) (map g idx)) nb).
Proof.
  revert d na nb. induction idx as [| i idx IH]; intros d na nb.
  - reflexivity.
  - cbn [fold_left map combine fst snd]. apply IH.
Qed.

Lemma read_query_indices (a : list float) :
  map (at_or_0 a) (seq 0 (length a)) = read_query a.
Proof.
  unfold read_query. apply list_eq. intros i.
  change (map (at_or_0 a)) with (fmap (M := list) (at_or_0 a)).
  change (map (fun x => Js.num_or x 0%float))
    with (fmap (M := list) (fun x => Js.num_or x 0%float)).
  rewrite !list_lookup_fmap.
  destruct (a !! i) as [x |] eqn:E.
  - rewrite lookup_seq_lt by (eapply lookup_lt_Some; exact E).
    cbn. unfold at_or_0. now rewrite E.
  - rewrite lookup_seq_ge by (now apply lookup_ge_None).
    reflexivity.
Qed.

(** The score is the dot product of the two vectors as the loop reads
    them, over the product of the roots of their squares, or over 1. *)
Lemma cosine_dot (a b : list float) :
  cosine a b =
  let a' := read_query a in
  let b' := read_stored (length a) b in
  (dot a' b' /
   Js.num_or (Math_sqrt (dot a' a') * Math_sqrt (dot b' b')) 1)%float.
Proof.
  unfold cosine. rewrite cosine_sums, read_query_indices. reflexivity.
Qed.

(** *** The search *)

Lemma score_all_vector (queryEmbedding : list float) (entries : list Entry) :
  score_all (Vector queryEmbedding) entries =
  Return (map (score_entry queryEmbedding) entries).
Proof.
  induction entries as [| e entries IH]; cbn; [reflexivity |].
  now rewrite IH.
Qed.

Lemma searchMemory_spec (svc : RAGService) (queryEmbedding : list float)
    (topK : Z) :
  0 <= topK ->
  searchMemory (memoryStore svc) (Vector queryEmbedding) topK =
  Return
    (take (Z.to_nat topK)
          (array_sort by_score
             (map (score_entry queryEmbedding) (stored_values svc)))).
Proof.
  intros Hk. unfold searchMemory, stored_values.
  destruct (memoryStore svc) as [store |].
  - destruct (Z.eqb_spec (Z.of_nat (length store)) 0) as [E | E].
    + destruct store; [| cbn in E; lia]. cbn. now rewrite take_nil.
    + rewrite score_all_vector, slice_0_take by assumption.
      now rewrite map_map.
  - cbn. now rewrite take_nil.
Qed.

Lemma searchSimilar_memory (w : World) (queryEmbedding : Embedding) (topK : Z)
    (m : Machine) :
  useMemoryStorage (this m) = true ->
  snd (searchSimilar w queryEmbedding topK m)
  = searchMemory (memoryStore (this m)) queryEmbedding topK.
Proof.
  intros Hmem. unfold searchSimilar, bind, emit, get_this, ret. cbn.
  now rewrite Hmem.
Qed.

(** C3.  On the in-process store with [N] entries, for a query vector
    and [topK >= 0], [searchSimilar] returns, and never throws: its
    result is the first [topK] elements of a reordering of all [N]
    scored entries, it has [min (N, topK)] elements, and it is empty
    when the store is.  The score of an entry is the cosine of the loop:
    the dot product of the query and the stored vector, read at the
    indices of the query with [|| 0], over the product of the square
    roots of their squares, or over 1 when that product is 0 or [NaN].
    When no score is [NaN] the reordering is the stable sort: scores do
    not increase along it and entries of equal score keep their
    insertion order. *)
Theorem searchSimilar_top_k (w : World) (queryEmbedding : list float)
    (topK : Z) (m : Machine) :
  useMemoryStorage (this m) = true ->
  0 <= topK ->
  let entries := stored_values (this m) in
  let scored := map (score_entry queryEmbedding) entries in
  exists ranked,
    snd (searchSimilar w (Vector queryEmbedding) topK m)
    = Return (take (Z.to_nat topK) ranked) /\
    Z.of_nat (length (take (Z.to_nat topK) ranked))
    = Z.min (Z.of_nat (length entries)) topK /\
    Permutation ranked scored /\
    (entries = [] -> take (Z.to_nat topK) ranked = []) /\
    (forall e,
       let a := read_query queryEmbedding in
       let b := read_stored (length queryEmbedding) (entry_vector e) in
       doc_score (score_entry queryEmbedding e) =
       (dot a b / Js.num_or (Math_sqrt (dot a a) * Math_sqrt (dot b b)) 1)%float) /\
    (scores_are_numbers scored ->
     ranked = stable_sort by_score scored /\
     StronglySorted ranks_before ranked /\
     StronglySorted ranks_before (take (Z.to_nat topK) ranked) /\
     (forall s, with_score s ranked = with_score s scored)).
Proof.
  intros Hmem Hk entries scored.
  exists (array_sort by_score scored).
  assert (Hperm : Permutation (array_sort by_score scored) scored)
    by apply array_sort_perm.
  split; [| split; [| split; [| split; [| split]]]].
  - rewrite searchSimilar_memory by assumption. now apply searchMemory_spec.
  - rewrite length_take, (Permutation_length Hperm).
    subst scored. rewrite length_map. lia.
  - exact Hperm.
  - intros He.
    assert (E : scored = []) by (subst scored; now rewrite He).
    rewrite E in Hperm |- *.
    symmetry in Hperm. apply Permutation_nil in Hperm.
    rewrite Hperm. apply take_nil.
  - intros e a b. cbn [score_entry doc_score]. apply cosine_dot.
  - intros Hnum. rewrite array_sort_numbers by assumption.
    split; [reflexivity |]. split; [now apply stable_sort_sorted |].
    split; [now apply StronglySorted_take, stable_sort_sorted |].
    intros s. apply stable_sort_stable.
Qed.

End Search.

(** The two best of three stored chunks, two of them with the same score. *)
Lemma searchSimilar_top_k_witness :
  let entries := stored_values (this stocked_machine) in
  let scored := map (@score_entry sample_host [1; 0]%float) entries in
  exists ranked,
    snd (@searchSimilar sample_host calm_world (Vector [1; 0]%float) 2
           stocked_machine)
    = Return (take (Z.to_nat 2) ranked) /\
    Z.of_nat (length (take (Z.to_nat 2) ranked))
    = Z.min (Z.of_nat (length entries)) 2 /\
    Permutation ranked scored /\
    (entries = [] -> take (Z.to_nat 2) ranked = []) /\
    (forall e,
       let a := read_query [1; 0]%float in
       let b := read_stored (length [1; 0]%float) (entry_vector e) in
       doc_score (@score_entry sample_host [1; 0]%float e) =
       (dot a b /
        Js.num_or (@Math_sqrt sample_host (dot a a) *
                   @Math_sqrt sample_host (dot b b)) 1)%float) /\
    (scores_are_numbers scored ->
     ranked = stable_sort by_score scored /\
     StronglySorted ranks_before ranked /\
     StronglySorted ranks_before (take (Z.to_nat 2) ranked) /\
     (forall s, with_score s ranked = with_score s scored)).
Proof.
  apply (@searchSimilar_top_k sample_host calm_world [1; 0]%float 2
           stocked_machine);
    [reflexivity | lia].
Defined.

(** The run of the witness: the first and the third chunk, of score 1,
    in the order of their insertion; the scores are numbers. *)
Example searchSimilar_of_stock :
  map (fun d => (doc_text d, doc_score d))
      (match snd (@searchSimilar sample_host calm_world (Vector [1; 0]%float) 2
                    stocked_machine) with
       | Return docs => docs
       | Throw _ => []
       end)
  = [("A", 1%float); ("C", 1%float)] /\
  scores_are_numbers
    (map (@score_entry sample_host [1; 0]%float)
         (stored_values (this stocked_machine))).
Proof.
  split; [vm_compute; reflexivity |].
  repeat constructor.
Qed.

(** The roots are those of the processor, not exact ones: of the vectors
    [1, 1] and [3, 3], stored in this order, the query [1, 1] finds the
    second one first. *)
Example searchSimilar_of_scaled :
  map doc_text
      (match snd (@searchSimilar sample_host calm_world (Vector [1; 1]%float) 2
                    scaled_machine) with
       | Return docs => docs
       | Throw _ => []
       end)
  = ["B"; "A"].
Proof. vm_compute. reflexivity. Qed.

(** C3 as stated fails: the products of a query and of a
    stored vector can overflow, the score is then [NaN], and the
    comparator ties a [NaN] with every number.  With the vectors
    [2^1023, 2^1023] and [2, 2] stored in this order the query [2, 2]
    gets the scores [NaN] and [0.9999999999999998]: the comparator is
    consistent, every engine leaves the two as they are, and the best
    match, for [topK = 1], is the one without a score.  With [1, -1]
    stored in front of the two, the scores are 0, [NaN] and
    [0.9999999999999998]; an engine that leaves the array as it is
    answers with the score 0 in front of the higher one. *)
Theorem searchSimilar_unsorted_on_overflow :
  (exists first second,
     snd (@searchSimilar sample_host calm_world (Vector [2; 2]%float) 2
            overflow_machine) = Return [first; second] /\
     snd (@searchSimilar sample_host calm_world (Vector [2; 2]%float) 1
            overflow_machine) = Return [first] /\
     doc_text first = "B" /\ doc_text second = "C" /\
     PrimFloat.is_nan (doc_score first) = true /\
     doc_score second = 0x1.ffffffffffffep-1%float /\
     consistent by_score [first; second] = true /\
     ~ StronglySorted ranks_before [first; second]) /\
  (exists first second third,
     snd (@searchSimilar sample_host calm_world (Vector [2; 2]%float) 3
            overflow_machine_3) = Return [first; second; third] /\
     doc_score first = 0%float /\
     PrimFloat.is_nan (doc_score second) = true /\
     doc_score third = 0x1.ffffffffffffep-1%float /\
     (doc_score first <? doc_score third)%float = true /\
     consistent by_score [first; second; third] = false).
Proof.
  split.
  - eexists _, _.
    split; [vm_compute; reflexivity |].
    split; [vm_compute; reflexivity |].
    repeat (split; [vm_compute; reflexivity |]).
    intros Hs. inversion Hs as [| ? ? _ Hf]; subst.
    inversion Hf as [| ? ? Hr _]; subst.
    vm_compute in Hr. discriminate Hr.
  - eexists _, _, _.
    split; [vm_compute; reflexivity |].
    repeat split; vm_compute; reflexivity.
Qed.

(** ** Strings *)

Lemma append_assoc (a b c : string) : (a +:+ b) +:+ c = a +:+ (b +:+ c).
Proof.
  induction a as [| x a IH]; [reflexivity |].
  change (String x ((a +:+ b) +:+ c) = String x (a +:+ (b +:+ c))).
  now rewrite IH.
Qed.

Lemma append_empty_r (a : string) : a +:+ EmptyString = a.
Proof.
  induction a as [| x a IH]; [reflexivity |].
  change (String x (a +:+ EmptyString) = String x a).
  now rewrite IH.
Qed.

(** ** The fallback answer *)

Section FallbackAnswer.

Context `{Host}.

Lemma fallback_item_appends (response : string) (doc : Doc) (index : Z) :
  fallback_item response doc index = response +:+ item_text doc index.
Proof.
  unfold item_text, fallback_item.
  destruct (Js.truthy (Js.str_or (md_summary (doc_metadata doc)) EmptyString));
    destruct (Js.truthy (Js.str_or (md_source (doc_metadata doc)) EmptyString));
    destruct (Js.truthy (Js.str_or (md_url (doc_metadata doc)) EmptyString) &&
              negb (Js.str_or (md_url (doc_metadata doc)) EmptyString =? EmptyString)%string);
    cbn [append]; rewrite ?append_assoc; reflexivity.
Qed.

Lemma forEach_fallback_item (docs : list Doc) (index : Z) (response : string) :
  forEach fallback_item docs index response =
  response +:+ concat_strings (items docs index).
Proof.
  revert index response. induction docs as [| doc rest IH]; intros index response.
  - cbn. now rewrite append_empty_r.
  - cbn [forEach items concat_strings].
    rewrite IH, fallback_item_appends. apply append_assoc.
Qed.

(** The lines of one item: the title, then the snippet, the source and
    the link when the metadata has them, then the relevance. *)
Lemma item_text_lines (doc : Doc) (index : Z) :
  let metadata := doc_metadata doc in
  let summary := Js.str_or (md_summary metadata) EmptyString in
  let source := Js.str_or (md_source metadata) EmptyString in
  let url := Js.str_or (md_url metadata) EmptyString in
  item_text doc index =
  title_line index (Js.str_or (md_title metadata) "News Article") +:+
  line_if (Js.truthy summary) (summary_line summary) +:+
  line_if (Js.truthy source) (source_line source) +:+
  line_if (Js.truthy url) (url_line url) +:+
  relevance_line (doc_score doc).
Proof.
  intros metadata summary source url.
  unfold item_text, fallback_item. fold metadata. fold summary source url.
  assert (Hurl : Js.truthy url && negb (url =? EmptyString)%string = Js.truthy url)
    by (destruct url; reflexivity).
  rewrite Hurl.
  destruct (Js.truthy summary), (Js.truthy source), (Js.truthy url);
    cbn [line_if append]; rewrite ?append_assoc; reflexivity.
Qed.

Lemma items_length (docs : list Doc) (index : Z) :
  length (items docs index) = length docs.
Proof.
  revert index. induction docs as [| d docs IH]; intros index; cbn;
    [reflexivity | now rewrite IH].
Qed.

Lemma createFallbackResponse_shape (query : string) (similarDocs : list Doc) :
  (similarDocs = [] ->
   createFallbackResponse query similarDocs =
   fallback_header +:+ fallback_no_articles) /\
  (similarDocs <> [] ->
   createFallbackResponse query similarDocs =
   fallback_header +:+ fallback_intro +:+
   concat_strings (items (take 3 similarDocs) 0) +:+
   fallback_closing (length similarDocs)) /\
  length (items (take 3 similarDocs) 0) = (3 `min` length similarDocs)%nat.
Proof.
  repeat split.
  - intros ->. reflexivity.
  - intros Hne. unfold createFallbackResponse.
    destruct similarDocs as [| d docs]; [contradiction |].
    replace (Z.of_nat (length (d :: docs)) >? 0) with true
      by (symmetry; apply Z.gtb_lt; cbn [length]; lia).
    rewrite slice_0_take by lia.
    rewrite forEach_fallback_item, !append_assoc. reflexivity.
  - rewrite items_length, length_take. reflexivity.
Qed.

End FallbackAnswer.

(** ** Runs of the pipeline *)

Ltac run_monad :=
  unfold bind, try_catch, emit, get_this, set_this, ret, throw.

(** Case analysis on the innermost scrutinees of the goal. *)
Ltac case_matches :=
  repeat (cbv beta iota; cbn [this redis trace fst snd];
          match goal with
          | |- context [match ?x with _ => _ end] =>
              lazymatch x with
              | context [match _ with _ => _ end] => fail
              | _ => destruct x eqn:?
              end
          end);
  cbv beta iota; cbn [this redis trace fst snd].

(** Closes [steps ok m m'] when [m'] is [m] with events added. *)
Ltac show_steps :=
  unfold steps; cbn [this redis trace useMemoryStorage fst];
  split; [reflexivity | split; [reflexivity |]];
  first [ exists []; split; [symmetry; apply app_nil_r | reflexivity]
        | eexists; split; [rewrite <- ?app_assoc; reflexivity | reflexivity] ].

Lemma steps_trans (ok : Event -> bool) (m1 m2 m3 : Machine) :
  steps ok m1 m2 -> steps ok m2 m3 -> steps ok m1 m3.
Proof.
  intros (Hr1 & Hu1 & evs1 & Ht1 & Ho1) (Hr2 & Hu2 & evs2 & Ht2 & Ho2).
  repeat split; try congruence.
  exists (evs1 ++ evs2). split.
  - rewrite Ht2, Ht1. now rewrite app_assoc.
  - rewrite forallb_app, Ho1, Ho2. reflexivity.
Qed.

Section Pipeline.

Context `{Host}.

Lemma generateEmbedding_steps (w : World) (text : string) (m : Machine) :
  steps is_retrieval m (fst (generateEmbedding w text m)).
Proof.
  unfold generateEmbedding, set_embeddingDim. run_monad.
  cbn [this redis trace].
  case_matches; show_steps.
Qed.

Lemma searchSimilar_steps (w : World) (v : Embedding) (k : Z) (m : Machine) :
  steps is_retrieval m (fst (searchSimilar w v k m)).
Proof.
  unfold searchSimilar. run_monad. cbn [this redis trace].
  case_matches; show_steps.
Qed.

(** The first block only embeds and searches; in the mode of the
    in-process store it does nothing at all. *)
Lemma retrieve_context_steps (w : World) (query : string) (m : Machine) :
  steps is_retrieval m (fst (retrieve_context w query m)).
Proof.
  unfold retrieve_context. unfold bind at 1, get_this. cbn [this].
  destruct (useMemoryStorage (this m)).
  - unfold ret. show_steps.
  - unfold bind at 1.
    pose proof (generateEmbedding_steps w query m) as Hg.
    destruct (generateEmbedding w query m) as [m1 [queryEmbedding | e]];
      cbn [fst] in Hg; [| exact Hg].
    unfold bind at 1.
    pose proof (searchSimilar_steps w queryEmbedding 5 m1) as Hs.
    destruct (searchSimilar w queryEmbedding 5 m1) as [m2 [docs | e]];
      cbn [fst] in Hs; unfold ret; cbn [fst];
      exact (steps_trans _ _ _ _ Hg Hs).
Qed.

Lemma retrieve_context_memory (w : World) (query : string) (m : Machine) :
  useMemoryStorage (this m) = true ->
  retrieve_context w query m =
  (m, Return ("No specific news articles available in memory storage.", [])).
Proof.
  intros Hmem. unfold retrieve_context. run_monad. now rewrite Hmem.
Qed.

(** What [processQuery] does once the matches are there. *)
Lemma processQuery_generator_fails (w : World) (query sessionId : string)
    (m m1 : Machine) (context : string) (similarDocs : list Doc)
    (message : string) :
  retrieve_context w query m = (m1, Return (context, similarDocs)) ->
  generateContent w (if useMemoryStorage (this m1)
                     then createGeneralPrompt query
                     else createPrompt query context) = GenFails message ->
  snd (processQuery w query sessionId m) =
  if degradable message
  then match redis_failure w with
       | Some e => Throw e
       | None => Return {| response := createFallbackResponse query similarDocs;
                           sources := to_sources similarDocs |}
       end
  else Throw message.
Proof.
  intros Hr Hg. unfold processQuery. unfold bind at 1. rewrite Hr.
  cbn [fst snd]. unfold choose_prompt, Redis.lPush. run_monad.
  cbn [this redis trace]. rewrite Hg.
  destruct (degradable message); [| reflexivity].
  destruct (redis_failure w); reflexivity.
Qed.

(** C1, as the code has it.  When the matches were retrieved and the
    generator throws: if the message is one of the fallback list and the
    transcript append is accepted, [processQuery] returns the fallback
    answer built from the matches, and when the append is rejected it
    throws the error of the store; if the message is not of the list,
    [processQuery] throws the error of the generator.  The fallback
    answer is the header followed by the
    no-articles text when there is no match, and otherwise by the
    introduction, one item for each of the first three matches (title,
    then snippet, source and link when present, then relevance) and the
    closing line. *)
Theorem generator_failure_classified (w : World) (query sessionId : string)
    (m m1 : Machine) (context : string) (similarDocs : list Doc)
    (message : string) :
  retrieve_context w query m = (m1, Return (context, similarDocs)) ->
  generateContent w (if useMemoryStorage (this m1)
                     then createGeneralPrompt query
                     else createPrompt query context) = GenFails message ->
  (degradable message = true ->
   redis_failure w = None ->
   snd (processQuery w query sessionId m) =
   Return {| response := createFallbackResponse query similarDocs;
             sources := to_sources similarDocs |}) /\
  (degradable message = true ->
   forall e, redis_failure w = Some e ->
   snd (processQuery w query sessionId m) = Throw e) /\
  (degradable message = false ->
   snd (processQuery w query sessionId m) = Throw message) /\
  (similarDocs = [] ->
   createFallbackResponse query similarDocs =
   fallback_header +:+ fallback_no_articles) /\
  (similarDocs <> [] ->
   createFallbackResponse query similarDocs =
   fallback_header +:+ fallback_intro +:+
   concat_strings (items (take 3 similarDocs) 0) +:+
   fallback_closing (length similarDocs)) /\
  length (items (take 3 similarDocs) 0) = (3 `min` length similarDocs)%nat /\
  (forall doc index,
     let metadata := doc_metadata doc in
     let summary := Js.str_or (md_summary metadata) EmptyString in
     let source := Js.str_or (md_source metadata) EmptyString in
     let url := Js.str_or (md_url metadata) EmptyString in
     item_text doc index =
     title_line index (Js.str_or (md_title metadata) "News Article") +:+
     line_if (Js.truthy summary) (summary_line summary) +:+
     line_if (Js.truthy source) (source_line source) +:+
     line_if (Js.truthy url) (url_line url) +:+
     relevance_line (doc_score doc)).
Proof.
  intros Hr Hg.
  pose proof (processQuery_generator_fails w query sessionId m m1 context
                similarDocs message Hr Hg) as Hrun.
  destruct (createFallbackResponse_shape query similarDocs) as (Hnone & Hsome & Hlen).
  repeat split.
  - intros Hd Hw. now rewrite Hrun, Hd, Hw.
  - intros Hd e Hw. now rewrite Hrun, Hd, Hw.
  - intros Hd. now rewrite Hrun, Hd.
  - exact Hnone.
  - exact Hsome.
  - exact Hlen.
  - intros doc index. apply item_text_lines.
Qed.

End Pipeline.

(** The theorem at work: an indexed run with two matches where the
    generator is out of quota, and a run where the generator fails with
    an error that is not of the list. *)
Lemma generator_failure_classified_witness :
  snd (@processQuery sample_host (quota_exceeded None) "rates" "s" (offline_machine 8))
  = Return {| response := @createFallbackResponse sample_host "rates" quota_docs;
              sources := to_sources quota_docs |} /\
  snd (@processQuery sample_host generator_broken "rates" "s" fresh_machine)
  = Throw "Candidate was blocked due to SAFETY".
Proof.
  destruct (@generator_failure_classified sample_host (quota_exceeded None)
              "rates" "s" (offline_machine 8)
              (fst (@retrieve_context sample_host (quota_exceeded None) "rates"
                      (offline_machine 8)))
              quota_context quota_docs "429 Too Many Requests"
              eq_refl eq_refl) as [Hfallback _].
  destruct (@generator_failure_classified sample_host generator_broken
              "rates" "s" fresh_machine fresh_machine
              "No specific news articles available in memory storage." []
              "Candidate was blocked due to SAFETY"
              eq_refl eq_refl) as (_ & _ & Hfatal & _).
  split.
  - apply Hfallback; reflexivity.
  - apply Hfatal; reflexivity.
Defined.

(** The rounding is the one of the doubles: the score 0.175 times 100 is
    17.5 exactly and prints as 18, the score 0.285 times 100 is
    28.499999999999996 and prints as 28. *)
Example relevance_line_rounds_the_double :
  @relevance_line sample_host 0x1.6666666666666p-3%float
  = "   Relevance: 18%" +:+ nl +:+ nl /\
  @relevance_line sample_host 0x1.23d70a3d70a3dp-2%float
  = "   Relevance: 28%" +:+ nl +:+ nl.
Proof. split; vm_compute; reflexivity. Qed.

(** C1 as stated fails in two places.  When the store rejects the
    append, the generator throws an error of the fallback list, the
    matches are there, and [processQuery] throws instead of returning
    the fallback answer.  And a match whose metadata has a title only is
    listed without a snippet, a source and a link: the second item of
    the fallback answer for the two sample matches is its title line and
    its relevance line. *)
Theorem fallback_lost_or_without_lines :
  ~ (forall (w : World) (query sessionId : string) (m m1 : Machine)
       (context : string) (similarDocs : list Doc) (message : string),
       @retrieve_context sample_host w query m
       = (m1, Return (context, similarDocs)) ->
       generateContent w (if useMemoryStorage (this m1)
                          then createGeneralPrompt query
                          else createPrompt query context) = GenFails message ->
       degradable message = true ->
       snd (@processQuery sample_host w query sessionId m) =
       Return {| response := @createFallbackResponse sample_host query similarDocs;
                 sources := to_sources similarDocs |}) /\
  snd (@processQuery sample_host
         (quota_exceeded (Some "connect ECONNREFUSED 127.0.0.1:6379"))
         "rates" "s" (offline_machine 8))
  = Throw "connect ECONNREFUSED 127.0.0.1:6379" /\
  (exists first second,
     quota_docs = [first; second] /\
     md_summary (doc_metadata second) = None /\
     md_source (doc_metadata second) = None /\
     md_url (doc_metadata second) = None /\
     @item_text sample_host second 1
     = "2. **Tech company unveils new AI chip**" +:+ nl +:+
       "   Relevance: 41%" +:+ nl +:+ nl /\
     snd (@processQuery sample_host (quota_exceeded None) "rates" "s"
            (offline_machine 8))
     = Return
         {| response :=
              fallback_header +:+ fallback_intro +:+
              ("1. **Central Bank raises rates**" +:+ nl +:+
               "   Rates rise by 25 basis points." +:+ nl +:+
               "   Source: Example Wire" +:+ nl +:+
               "   Read more: https://news.example/rates" +:+ nl +:+
               "   Relevance: 87%" +:+ nl +:+ nl) +:+
              ("2. **Tech company unveils new AI chip**" +:+ nl +:+
               "   Relevance: 41%" +:+ nl +:+ nl) +:+
              fallback_closing 2;
            sources := to_sources [first; second] |}).
Proof.
  split; [| split].
  - intros claim.
    specialize (claim (quota_exceeded (Some "connect ECONNREFUSED 127.0.0.1:6379"))
                      "rates" "s" fresh_machine fresh_machine
                      "No specific news articles available in memory storage." []
                      "429 Too Many Requests" eq_refl eq_refl eq_refl).
    vm_compute in claim. discriminate claim.
  - vm_compute. reflexivity.
  - eexists _, _. split; [reflexivity |].
    repeat split; vm_compute; reflexivity.
Qed.

Section MemoryMode.

Context `{Host}.

Lemma for_await_run (chunks : list string) (failure : option string)
    (fullResponse : string) (m : Machine) :
  for_await chunks failure fullResponse m =
  ({| this := this m; redis := redis m;
      trace := trace m ++ map EvOnChunk chunks |},
   match failure with
   | Some e => Throw e
   | None => Return (fullResponse +:+ concat_strings chunks)
   end).
Proof.
  revert fullResponse m.
  induction chunks as [| c chunks IH]; intros fullResponse m.
  - cbn. rewrite app_nil_r, append_empty_r.
    destruct m, failure; reflexivity.
  - cbn [for_await]. run_monad. rewrite IH.
    cbn [this redis trace map concat_strings].
    rewrite <- app_assoc, append_assoc. reflexivity.
Qed.

Lemma fragments_chunks (chunks : list string) :
  fragments (map EvOnChunk chunks) = chunks.
Proof.
  unfold fragments. induction chunks as [| c chunks IH]; cbn;
    [reflexivity | now f_equal].
Qed.

Lemma no_retrieval_chunks (chunks : list string) :
  forallb (fun e => negb (is_retrieval e)) (map EvOnChunk chunks) = true.
Proof. induction chunks; cbn; [reflexivity | assumption]. Qed.

Lemma prompts_chunks (chunks : list string) : prompts (map EvOnChunk chunks) = [].
Proof. unfold prompts. induction chunks; cbn; [reflexivity | assumption]. Qed.

Lemma completions_chunks (chunks : list string) :
  completions (map EvOnChunk chunks) = [].
Proof. unfold completions. induction chunks; cbn; [reflexivity | assumption]. Qed.

Lemma pushes_chunks (chunks : list string) : pushes (map EvOnChunk chunks) = [].
Proof. unfold pushes. induction chunks; cbn; [reflexivity | assumption]. Qed.

(** C5.  With [useMemoryStorage] set, whatever [memoryStore] holds:
    a run of [processQuery] or of [processQueryWithStreaming] makes no
    call to [generateEmbedding], to [searchSimilar] or to their
    backends, sends exactly one prompt to the generator, the
    context-free one, and the sources it returns, hands to [onComplete]
    and writes to the transcript are empty.  Without the flag the run
    starts with [generateEmbedding] on the query. *)
Theorem memory_mode_skips_retrieval (w : World) (query sessionId : string)
    (m : Machine) :
  useMemoryStorage (this m) = true ->
  (exists evs,
     trace (fst (processQuery w query sessionId m)) = trace m ++ evs /\
     forallb (fun e => negb (is_retrieval e)) evs = true /\
     prompts evs = [createGeneralPrompt query] /\
     Forall (fun p => msg_sources (snd p) = Some []) (pushes evs)) /\
  (forall result,
     snd (processQuery w query sessionId m) = Return result ->
     sources result = []) /\
  (exists evs,
     trace (fst (processQueryWithStreaming w query sessionId m))
     = trace m ++ evs /\
     forallb (fun e => negb (is_retrieval e)) evs = true /\
     prompts evs = [createGeneralPrompt query] /\
     Forall (fun p => msg_sources (snd p) = Some []) (pushes evs) /\
     Forall (fun r => sources r = []) (completions evs)) /\
  (forall m',
     useMemoryStorage (this m') = false ->
     exists evs,
       trace (fst (retrieve_context w query m'))
       = trace m' ++ EvGenerateEmbedding query :: evs).
Proof.
  intros Hmem. repeat split.
  - unfold processQuery. unfold bind at 1.
    rewrite retrieve_context_memory by assumption.
    unfold choose_prompt, Redis.lPush. run_monad.
    cbn [this redis trace fst snd]. rewrite Hmem.
    case_matches;
      (eexists; split; [rewrite <- ?app_assoc; reflexivity |]);
      repeat split; repeat constructor.
  - intros result. unfold processQuery. unfold bind at 1.
    rewrite retrieve_context_memory by assumption.
    unfold choose_prompt, Redis.lPush. run_monad.
    cbn [this redis trace fst snd]. rewrite Hmem.
    case_matches; intros Hres; try discriminate Hres;
      injection Hres as <-; reflexivity.
  - unfold processQueryWithStreaming. unfold bind at 1.
    rewrite retrieve_context_memory by assumption.
    unfold choose_prompt, Redis.lPush. run_monad.
    cbn [this redis trace fst snd]. rewrite Hmem.
    rewrite for_await_run.
    case_matches;
      (eexists; split; [rewrite <- ?app_assoc; reflexivity |]);
      cbn [forallb is_retrieval negb andb];
      rewrite ?forallb_app, ?no_retrieval_chunks;
      unfold prompts, pushes, completions;
      cbn [omap]; rewrite ?omap_app;
      fold prompts pushes completions;
      rewrite ?prompts_chunks, ?pushes_chunks, ?completions_chunks;
      repeat split; repeat constructor.
  - intros m' Hidx. unfold retrieve_context. unfold bind at 1, get_this.
    cbn [this]. rewrite Hidx. unfold bind at 1.
    pose proof (searchSimilar_steps w) as Hs.
    unfold generateEmbedding at 1. unfold bind at 1, emit.
    cbv beta iota.
    match goal with
    | |- context [try_catch ?c ?h ?m1] =>
        assert (Hc : exists evs, trace (fst (try_catch c h m1)) = trace m1 ++ evs)
    end.
    { unfold set_embeddingDim. run_monad. cbn [this redis trace].
      case_matches;
        first [ exists []; symmetry; apply app_nil_r
              | eexists; rewrite <- ?app_assoc; reflexivity ]. }
    destruct Hc as [evs1 Hc].
    match goal with
    | |- context [try_catch ?c ?h ?m1] =>
        destruct (try_catch c h m1) as [m2 [queryEmbedding | e]]
    end; cbn [fst] in Hc.
    + unfold bind at 1.
      destruct (Hs queryEmbedding 5 m2) as (_ & _ & evs2 & Ht & _).
      destruct (searchSimilar w queryEmbedding 5 m2) as [m3 [docs | e]];
        cbn [fst] in Ht; unfold ret; cbn [fst];
        rewrite Ht, Hc; cbn [trace];
        exists (evs1 ++ evs2); rewrite <- !app_assoc; reflexivity.
    + cbn [fst]. rewrite Hc. cbn [trace].
      exists evs1. rewrite <- !app_assoc. reflexivity.
Qed.

End MemoryMode.

(** A run over a store that holds three chunks. *)
Lemma memory_mode_skips_retrieval_witness :
  (exists evs,
     trace (fst (@processQuery sample_host calm_world "rates" "s" stocked_machine))
     = trace stocked_machine ++ evs /\
     forallb (fun e => negb (is_retrieval e)) evs = true /\
     prompts evs = [createGeneralPrompt "rates"] /\
     Forall (fun p => msg_sources (snd p) = Some []) (pushes evs)) /\
  (forall result,
     snd (@processQuery sample_host calm_world "rates" "s" stocked_machine)
     = Return result ->
     sources result = []) /\
  (exists evs,
     trace (fst (@processQueryWithStreaming sample_host calm_world "rates" "s"
                   stocked_machine))
     = trace stocked_machine ++ evs /\
     forallb (fun e => negb (is_retrieval e)) evs = true /\
     prompts evs = [createGeneralPrompt "rates"] /\
     Forall (fun p => msg_sources (snd p) = Some []) (pushes evs) /\
     Forall (fun r => sources r = []) (completions evs)) /\
  (forall m',
     useMemoryStorage (this m') = false ->
     exists evs,
       trace (fst (@retrieve_context sample_host calm_world "rates" m'))
       = trace m' ++ EvGenerateEmbedding "rates" :: evs).
Proof.
  apply (@memory_mode_skips_retrieval sample_host calm_world "rates" "s"
           stocked_machine).
  reflexivity.
Defined.

(** ** The transcript after a run *)

Lemma retrieval_only (evs : list Event) :
  forallb is_retrieval evs = true ->
  pushes evs = [] /\ completions evs = [] /\ fragments evs = [] /\ prompts evs = [].
Proof.
  unfold pushes, completions, fragments, prompts.
  induction evs as [| e evs IH]; [easy |].
  cbn [forallb]. intros Hall. apply andb_true_iff in Hall as [He Hevs].
  destruct (IH Hevs) as (H1 & H2 & H3 & H4).
  destruct e; cbn in He; try discriminate He; csimpl;
    rewrite H1, H2, H3, H4; easy.
Qed.

Lemma snoc_eq {A} (t pre before : list A) (x : A) :
  pre = t ++ before -> pre ++ [x] = t ++ before ++ [x].
Proof. intros ->. now rewrite app_assoc. Qed.

Lemma snoc2_eq {A} (t pre before : list A) (x y : A) :
  pre = t ++ before -> (pre ++ [x]) ++ [y] = t ++ before ++ [x; y].
Proof. intros ->. now rewrite <- !app_assoc. Qed.

Section Completion.

Context `{Host}.

(** C9.  A run of [processQuery] that returns has put exactly one
    message in front of the transcript of the session, the assistant
    message with the response, the time and the sources of the result,
    and has changed nothing else in the store; the push is the last call
    of the run.  A run of [processQueryWithStreaming] that returns has
    done the same, and its push comes just before its only call of
    [onComplete]. *)
Theorem completion_appends_one_message (w : World) (query sessionId : string)
    (m : Machine) :
  (forall m' result,
     processQuery w query sessionId m = (m', Return result) ->
     let message := message_of w result in
     redis m' = <[chat_key sessionId :=
                    message :: Redis.list_at (redis m) (chat_key sessionId)]>
                (redis m) /\
     exists before,
       trace m' = trace m ++ before ++ [EvLPush (chat_key sessionId) message] /\
       pushes before = []) /\
  (forall m' u,
     processQueryWithStreaming w query sessionId m = (m', Return u) ->
     exists result before,
       let message := message_of w result in
       redis m' = <[chat_key sessionId :=
                      message :: Redis.list_at (redis m) (chat_key sessionId)]>
                  (redis m) /\
       trace m' = trace m ++ before ++
                  [EvLPush (chat_key sessionId) message; EvOnComplete result] /\
       pushes before = [] /\ completions before = []).
Proof.
  split.
  - intros m' result. unfold processQuery. unfold bind at 1.
    pose proof (retrieve_context_steps w query m) as Hsteps.
    destruct (retrieve_context w query m) as [m1 [[context similarDocs] | e]];
      [| discriminate].
    destruct Hsteps as (Hredis & _ & evs & Htrace & Hevs). cbn [fst] in *.
    apply retrieval_only in Hevs as (Hp & _ & _ & _).
    unfold choose_prompt, Redis.lPush. run_monad.
    cbn [this redis trace fst snd].
    case_matches; intros Hrun; try discriminate Hrun; injection Hrun as <- <-.
    all: cbv zeta; unfold message_of, assistant_message;
      cbn [redis trace response sources]; rewrite Hredis, Htrace.
    all: split; [reflexivity |].
    all: eexists; split;
      [apply snoc_eq; rewrite <- !app_assoc; reflexivity |].
    all: unfold pushes in *; rewrite omap_app, Hp; reflexivity.
  - intros m' u. unfold processQueryWithStreaming. unfold bind at 1.
    pose proof (retrieve_context_steps w query m) as Hsteps.
    destruct (retrieve_context w query m) as [m1 [[context similarDocs] | e]];
      [| discriminate].
    destruct Hsteps as (Hredis & _ & evs & Htrace & Hevs). cbn [fst] in *.
    apply retrieval_only in Hevs as (Hp & Hc & _ & _).
    unfold choose_prompt, Redis.lPush. run_monad.
    cbn [this redis trace fst snd]. rewrite for_await_run.
    case_matches; intros Hrun; try discriminate Hrun; injection Hrun as <- <-.
    all: eexists {| response := _; sources := _ |}; eexists.
    all: cbv zeta; unfold message_of, assistant_message;
      cbn [redis trace response sources]; rewrite Hredis, Htrace.
    all: split; [reflexivity |].
    all: split; [apply snoc2_eq; rewrite <- !app_assoc; reflexivity |].
    all: unfold pushes, completions in *; rewrite !omap_app, ?Hp, ?Hc.
    all: fold pushes completions;
      rewrite ?pushes_chunks, ?completions_chunks; split; reflexivity.
Qed.

End Completion.

(** A run of each of the two methods on a session without transcript. *)
Lemma completion_appends_one_message_witness :
  (let run := @processQuery sample_host calm_world "rates" "s" fresh_machine in
   let message := message_of calm_world
                    {| response := "Here is the news."; sources := [] |} in
   redis (fst run) = <[chat_key "s" := [message]]> ∅ /\
   exists before,
     trace (fst run) = [] ++ before ++ [EvLPush (chat_key "s") message] /\
     pushes before = []) /\
  (let run := @processQueryWithStreaming sample_host calm_world "rates" "s"
                fresh_machine in
   exists result before,
     let message := message_of calm_world result in
     redis (fst run) = <[chat_key "s" := [message]]> ∅ /\
     trace (fst run) = [] ++ before ++
                       [EvLPush (chat_key "s") message; EvOnComplete result] /\
     pushes before = [] /\ completions before = []).
Proof.
  destruct (@completion_appends_one_message sample_host calm_world "rates" "s"
              fresh_machine) as [Hsync Hstream].
  split.
  - exact (Hsync _ _ eq_refl).
  - exact (Hstream _ _ eq_refl).
Defined.

(** ** Streaming *)

Section Streaming.

Context `{Host}.

(** X26.  When the stream does not fail after a fragment (it ends, or
    it fails before its first fragment), the fragments of a run that
    completes add up to the response handed to [onComplete], and
    [onComplete] is the last call of the run and the only one. *)
Lemma streaming_integrity_without_midstream_failure (w : World)
    (query sessionId : string) (m m' : Machine) (u : unit) :
  (forall prompt,
     stream_failure (generateContentStream w prompt) = None \/
     stream_chunks (generateContentStream w prompt) = []) ->
  processQueryWithStreaming w query sessionId m = (m', Return u) ->
  exists result before,
    trace m' = trace m ++ before ++ [EvOnComplete result] /\
    completions before = [] /\
    concat_strings (fragments before) = response result.
Proof.
  intros Hwhole. unfold processQueryWithStreaming. unfold bind at 1.
  pose proof (retrieve_context_steps w query m) as Hsteps.
  destruct (retrieve_context w query m) as [m1 [[context similarDocs] | e]];
    [| discriminate].
  destruct Hsteps as (_ & _ & evs & Htrace & Hevs). cbn [fst] in *.
  apply retrieval_only in Hevs as (_ & Hc & Hf & _).
  unfold choose_prompt, Redis.lPush. run_monad.
  cbn [this redis trace fst snd]. rewrite for_await_run.
  case_matches; intros Hrun; try discriminate Hrun; injection Hrun as <- <-.
  all: match goal with
       | Hfail : stream_failure (generateContentStream _ ?p) = _ |- _ =>
           destruct (Hwhole p) as [Hnone | Hnil];
           [rewrite Hnone in Hfail; try discriminate Hfail
           | try rewrite Hnil]
       end.
  all: eexists {| response := _; sources := _ |}; eexists.
  all: cbn [trace response]; rewrite Htrace.
  all: split; [apply snoc_eq; rewrite <- !app_assoc; reflexivity |].
  all: unfold completions, fragments in *; rewrite !omap_app, ?Hc, ?Hf.
  all: fold completions fragments;
    rewrite ?completions_chunks, ?fragments_chunks; split;
    try reflexivity.
  all: cbn; rewrite ?app_nil_r, ?append_empty_r; reflexivity.
Qed.

End Streaming.

(** C2, evaluated where it fails.  The stream yields "Rates " and "rose"
    and then throws an error of the fallback list.  The run completes:
    [onChunk] has received the two fragments and then the whole fallback
    answer, [onComplete] receives the fallback answer alone, once and
    last, and the fragments put together are not that response. *)
Theorem streaming_midstream_failure_breaks_integrity :
  let run := @processQueryWithStreaming sample_host midstream_overload
               "rates" "s" fresh_machine in
  let fallback := @createFallbackResponse sample_host "rates" [] in
  degradable "503 Service Unavailable: the model is overloaded" = true /\
  snd run = Return tt /\
  fragments (trace (fst run)) = ["Rates "; "rose"; fallback] /\
  completions (trace (fst run)) = [{| response := fallback; sources := [] |}] /\
  last (trace (fst run)) = Some (EvOnComplete {| response := fallback; sources := [] |}) /\
  concat_strings (fragments (trace (fst run))) <> fallback.
Proof.
  vm_compute. repeat split. discriminate.
Qed.

(** ** Blank messages *)

Lemma trimEnd_keeps (c : ascii) (s : string) :
  Js.is_space c = false -> Js.trimEnd (String c s) <> EmptyString.
Proof.
  intros Hc. cbn [Js.trimEnd].
  destruct (Js.trimEnd s); [rewrite Hc |]; discriminate.
Qed.

(** [trim] leaves nothing exactly when every character is white space. *)
Lemma trim_empty_iff (s : string) :
  Js.truthy (Js.trim s) = false <->
  forallb Js.is_space (list_ascii_of_string s) = true.
Proof.
  unfold Js.trim. induction s as [| c s IH].
  - split; reflexivity.
  - cbn [Js.trimStart list_ascii_of_string forallb].
    destruct (Js.is_space c) eqn:Ec.
    + exact IH.
    + split; [| discriminate].
      intros Ht. pose proof (trimEnd_keeps c s Ec) as Hne.
      destruct (Js.trimEnd (String c s)); [contradiction | discriminate Ht].
Qed.

(** The guard of the two HTTP routes rejects the texts that are empty or
    made of white space only, and no others. *)
Lemma rejected_iff_blank (s : string) :
  rejected (Some s) = true <->
  forallb Js.is_space (list_ascii_of_string s) = true.
Proof.
  unfold rejected. rewrite orb_true_iff, !negb_true_iff, trim_empty_iff.
  split; [| now right].
  intros [Hs | Hall]; [| exact Hall]. destruct s; [reflexivity | discriminate Hs].
Qed.

Section Routes.

Context `{Host}.

(** The two HTTP routes answer a blank message with status 400 and make
    no call at all. *)
Lemma http_routes_reject_blank (w : World) (message sessionId : option string)
    (m : Machine) :
  rejected message = true ->
  post_message w message sessionId m = (m, Status400 "Message is required") /\
  post_stream w message sessionId m = (m, Status400 "Message is required").
Proof.
  intros Hr. unfold post_message, post_stream. now rewrite Hr.
Qed.

End Routes.

(** C8, evaluated where it fails.  The text of three spaces is one that
    the guard of the HTTP routes rejects, and the route answers 400.  The
    socket handler has no guard: it stores the same text as a user
    message, sends the prompt made from it to the generator and
    completes.  [processQuery] called with it, or with the empty text,
    calls the generator as well. *)
Theorem socket_handler_accepts_blank_message :
  let blank := "   " in
  let run := @on_chat_message sample_host calm_world "s" blank fresh_machine in
  rejected (Some blank) = true /\
  @post_message sample_host calm_world (Some blank) (Some "s") fresh_machine
  = (fresh_machine, Status400 "Message is required") /\
  snd run = Completed /\
  prompts (trace (fst run)) = [createGeneralPrompt blank] /\
  existsb is_provider_call (trace (fst run)) = true /\
  Redis.list_at (redis (fst run)) (chat_key "s")
  = [assistant_message calm_world "Here is the news." [];
     user_message calm_world blank] /\
  prompts (trace (fst (@processQuery sample_host calm_world blank "s" fresh_machine)))
  = [createGeneralPrompt blank] /\
  prompts (trace (fst (@processQuery sample_host calm_world EmptyString "s"
                         fresh_machine)))
  = [createGeneralPrompt EmptyString].
Proof.
  vm_compute. repeat split.
Qed.

(** * Further properties *)

(** ** The dimension of the vectors *)

Section Dimension.

Context `{Host}.

Lemma count_tokens_length (dim : Z) (tokens : list string) (vec : list float) :
  length (count_tokens dim tokens vec) = length vec.
Proof.
  unfold count_tokens. revert vec.
  induction tokens as [| t tokens IH]; intros vec; cbn [fold_left].
  - reflexivity.
  - rewrite IH. apply length_alter.
Qed.

Lemma fallbackEmbedding_length (dim : Z) (text : string) :
  0 <= dim <= 2 ^ 32 - 1 ->
  exists vec, fallbackEmbedding dim text = Return (Vector vec) /\
              Z.of_nat (length vec) = dim.
Proof.
  intros [Hlo Hhi]. unfold fallbackEmbedding.
  destruct (Z.ltb_spec dim 0); [lia |].
  rewrite Z.gtb_ltb. destruct (Z.ltb_spec (2 ^ 32 - 1) dim); [lia |].
  cbn [orb]. eexists. split; [reflexivity |].
  unfold normalize. rewrite length_map, count_tokens_length, length_replicate.
  lia.
Qed.

(** The service object after a run of [generateEmbedding]: the dimension
    is set by a run that gets a vector while none is established, and
    nothing else changes. *)
Lemma generateEmbedding_this (w : World) (text : string) (m : Machine) :
  this (fst (generateEmbedding w text m)) =
  if takes_fallback w (this m) text then this m
  else match embedding_api w text, truthy_dim (embeddingDim (this m)) with
       | EmbedVector vec, None =>
           {| useMemoryStorage := useMemoryStorage (this m);
              memoryStore := memoryStore (this m);
              jinaApiKey := jinaApiKey (this m);
              embeddingDim := Some (Z.of_nat (length vec)) |}
       | _, _ => this m
       end.
Proof.
  unfold takes_fallback, generateEmbedding, set_embeddingDim. run_monad.
  cbn [this redis trace].
  destruct (truthy_key (jinaApiKey (this m))); cbn [negb orb];
    destruct (embedding_api w text); cbn [this fst];
    destruct (truthy_dim (embeddingDim (this m))); reflexivity.
Qed.

(** The result of a run that gets a vector from the provider. *)
Lemma generateEmbedding_provider (w : World) (text : string) (m : Machine)
    (vec : list float) :
  truthy_key (jinaApiKey (this m)) = true ->
  embedding_api w text = EmbedVector vec ->
  snd (generateEmbedding w text m) =
  Return (Vector match truthy_dim (embeddingDim (this m)) with
                 | Some dim => harmonize dim vec
                 | None => vec
                 end).
Proof.
  intros Hkey Hreply.
  unfold generateEmbedding, set_embeddingDim. run_monad. cbn [this redis trace].
  rewrite Hkey, Hreply. cbn [negb].
  destruct (truthy_dim (embeddingDim (this m))); reflexivity.
Qed.

(** The result of a run whose reply carries an embedding that is not an
    array: that value. *)
Lemma generateEmbedding_other (w : World) (text : string) (m : Machine)
    (value : JsValue) :
  truthy_key (jinaApiKey (this m)) = true ->
  embedding_api w text = EmbedOther value ->
  snd (generateEmbedding w text m) = Return (NotArray value).
Proof.
  intros Hkey Hreply.
  unfold generateEmbedding, set_embeddingDim. run_monad. cbn [this redis trace].
  rewrite Hkey, Hreply. reflexivity.
Qed.

Lemma takes_fallback_false (w : World) (svc : RAGService) (text : string) :
  takes_fallback w svc text = false ->
  truthy_key (jinaApiKey svc) = true /\
  ((exists vec, embedding_api w text = EmbedVector vec) \/
   (exists value, embedding_api w text = EmbedOther value)).
Proof.
  unfold takes_fallback. intros Hf. apply orb_false_iff in Hf as [Hk Hr].
  apply negb_false_iff in Hk. split; [exact Hk |].
  destruct (embedding_api w text); try discriminate Hr; eauto.
Qed.

Lemma generateEmbedding_keeps_dimension_aux (w : World) (text : string)
    (m : Machine) (dim : Z) :
  embeddingDim (this m) = Some dim ->
  0 < dim <= 2 ^ 32 - 1 ->
  exists result,
    snd (generateEmbedding w text m) = Return result /\
    match result with
    | Vector vec => Z.of_nat (length vec) = dim
    | NotArray value =>
        truthy_key (jinaApiKey (this m)) = true /\
        embedding_api w text = EmbedOther value
    end.
Proof.
  intros Hdim [Hlo Hhi].
  assert (Htd : truthy_dim (embeddingDim (this m)) = Some dim).
  { rewrite Hdim. cbn. destruct (Z.eqb_spec dim 0); [lia | reflexivity]. }
  destruct (takes_fallback w (this m) text) eqn:Hfb.
  - rewrite generateEmbedding_fallback by assumption.
    unfold fallback_dim. rewrite Htd. cbn [default].
    destruct (fallbackEmbedding_length dim text) as (vec & Hv & Hl); [lia |].
    exists (Vector vec). split; assumption.
  - destruct (takes_fallback_false _ _ _ Hfb)
      as (Hkey & [(vec & Hreply) | (value & Hreply)]).
    + rewrite (generateEmbedding_provider w text m vec Hkey Hreply), Htd.
      eexists. split; [reflexivity |].
      apply harmonize_spec. exact Hlo.
    + rewrite (generateEmbedding_other w text m value Hkey Hreply).
      eexists. split; [reflexivity |]. now split.
Qed.

(** X1.  Once a dimension [dim] between 1 and [2^32 - 1] is established,
    every run of [generateEmbedding] returns, whatever the provider
    does, and leaves the service object as it was.  The result is a
    vector of exactly [dim] components, with one exception: a reply of
    the provider whose first datum carries an embedding that is not an
    array is neither harmonized nor replaced by the fallback; the run
    returns that value as it is. *)
Theorem generateEmbedding_keeps_dimension (w : World) (text : string)
    (m : Machine) (dim : Z) :
  embeddingDim (this m) = Some dim ->
  0 < dim <= 2 ^ 32 - 1 ->
  (exists result,
     snd (generateEmbedding w text m) = Return result /\
     this (fst (generateEmbedding w text m)) = this m /\
     match result with
     | Vector vec => Z.of_nat (length vec) = dim
     | NotArray value =>
         truthy_key (jinaApiKey (this m)) = true /\
         embedding_api w text = EmbedOther value
     end) /\
  (forall value,
     truthy_key (jinaApiKey (this m)) = true ->
     embedding_api w text = EmbedOther value ->
     snd (generateEmbedding w text m) = Return (NotArray value)).
Proof.
  intros Hdim Hrange. split.
  - destruct (generateEmbedding_keeps_dimension_aux w text m dim Hdim Hrange)
      as (result & Hv & Hl).
    exists result. split; [exact Hv |]. split; [| exact Hl].
    rewrite generateEmbedding_this, Hdim. cbn [truthy_dim].
    destruct (Z.eqb_spec dim 0); [lia |].
    destruct (takes_fallback w (this m) text); [reflexivity |].
    destruct (embedding_api w text); reflexivity.
  - intros value Hkey Hreply. now apply generateEmbedding_other.
Qed.

(** X2.  While no dimension is established, the first run that gets a
    non-empty vector from the provider returns it as it is and
    establishes its length as the dimension; every later run, in any
    world, returns a vector of that length, or the value that is not an
    array when the reply of the provider carries one. *)
Theorem first_vector_establishes_dimension (w1 w2 : World)
    (text1 text2 : string) (m : Machine) (vec : list float) :
  truthy_dim (embeddingDim (this m)) = None ->
  truthy_key (jinaApiKey (this m)) = true ->
  embedding_api w1 text1 = EmbedVector vec ->
  0 < Z.of_nat (length vec) <= 2 ^ 32 - 1 ->
  let m1 := fst (generateEmbedding w1 text1 m) in
  snd (generateEmbedding w1 text1 m) = Return (Vector vec) /\
  embeddingDim (this m1) = Some (Z.of_nat (length vec)) /\
  exists result,
    snd (generateEmbedding w2 text2 m1) = Return result /\
    match result with
    | Vector vec2 => length vec2 = length vec
    | NotArray value =>
        truthy_key (jinaApiKey (this m)) = true /\
        embedding_api w2 text2 = EmbedOther value
    end.
Proof.
  intros Hnone Hkey Hreply Hlen m1.
  assert (Hfb : takes_fallback w1 (this m) text1 = false).
  { unfold takes_fallback. now rewrite Hkey, Hreply. }
  assert (Hm1 : embeddingDim (this m1) = Some (Z.of_nat (length vec))).
  { subst m1. rewrite generateEmbedding_this, Hfb, Hreply, Hnone. reflexivity. }
  repeat split.
  - rewrite (generateEmbedding_provider w1 text1 m vec Hkey Hreply), Hnone.
    reflexivity.
  - exact Hm1.
  - destruct (generateEmbedding_keeps_dimension_aux w2 text2 m1 _ Hm1 Hlen)
      as (result & Hv & Hl).
    exists result. split; [exact Hv |].
    destruct result as [vec2 | value]; [lia |].
    split; [exact Hkey | apply Hl].
Qed.

End Dimension.

(** A dimension of 5, a provider vector of 3 components. *)
Lemma generateEmbedding_keeps_dimension_witness :
  (exists result,
     snd (@generateEmbedding sample_host calm_world "rates" (keyed_machine 5))
     = Return result /\
     this (fst (@generateEmbedding sample_host calm_world "rates"
                  (keyed_machine 5)))
     = this (keyed_machine 5) /\
     match result with
     | Vector vec => Z.of_nat (length vec) = 5
     | NotArray value =>
         truthy_key (jinaApiKey (this (keyed_machine 5))) = true /\
         embedding_api calm_world "rates" = EmbedOther value
     end) /\
  (forall value,
     truthy_key (jinaApiKey (this (keyed_machine 5))) = true ->
     embedding_api calm_world "rates" = EmbedOther value ->
     snd (@generateEmbedding sample_host calm_world "rates" (keyed_machine 5))
     = Return (NotArray value)).
Proof.
  apply (@generateEmbedding_keeps_dimension sample_host calm_world "rates"
           (keyed_machine 5) 5); [reflexivity | lia].
Defined.

(** The two runs with a dimension of 5: the vector of 3 components comes
    back with two zeros added, and a reply whose embedding is [null]
    comes back as [null]. *)
Example generateEmbedding_of_replies :
  snd (@generateEmbedding sample_host calm_world "rates" (keyed_machine 5))
  = Return (Vector [1; 0; 0; 0; 0]%float) /\
  snd (@generateEmbedding sample_host provider_confused "rates"
         (keyed_machine 5))
  = Return (NotArray JsNull).
Proof. split; reflexivity. Qed.

(** A first vector of 3 components, then a run while the provider is down. *)
Lemma first_vector_establishes_dimension_witness :
  let m1 := fst (@generateEmbedding sample_host calm_world "rates" open_machine) in
  snd (@generateEmbedding sample_host calm_world "rates" open_machine)
  = Return (Vector [1; 0; 0]%float) /\
  embeddingDim (this m1) = Some (Z.of_nat (length [1; 0; 0]%float)) /\
  exists result,
    snd (@generateEmbedding sample_host provider_down "chips" m1) = Return result /\
    match result with
    | Vector vec2 => length vec2 = length [1; 0; 0]%float
    | NotArray value =>
        truthy_key (jinaApiKey (this open_machine)) = true /\
        embedding_api provider_down "chips" = EmbedOther value
    end.
Proof.
  apply (@first_vector_establishes_dimension sample_host calm_world provider_down
           "rates" "chips" open_machine [1; 0; 0]%float);
    [reflexivity | reflexivity | reflexivity | cbn; lia].
Defined.

Section OpenDimension.

Context `{Host}.

(** X3.  While no dimension is established, a run that goes to the
    fallback returns a vector of 1024 components and establishes nothing:
    the service object is as before, and a later run that gets a vector
    from the provider returns that vector as it is, whatever its
    length. *)
Theorem fallback_leaves_dimension_open (w1 w2 : World) (text1 text2 : string)
    (m : Machine) (vec : list float) :
  truthy_dim (embeddingDim (this m)) = None ->
  takes_fallback w1 (this m) text1 = true ->
  truthy_key (jinaApiKey (this m)) = true ->
  embedding_api w2 text2 = EmbedVector vec ->
  let m1 := fst (generateEmbedding w1 text1 m) in
  (exists vec1,
     snd (generateEmbedding w1 text1 m) = Return (Vector vec1) /\
     Z.of_nat (length vec1) = 1024) /\
  this m1 = this m /\
  snd (generateEmbedding w2 text2 m1) = Return (Vector vec).
Proof.
  intros Hnone Hfb Hkey Hreply m1.
  assert (Hthis : this m1 = this m).
  { subst m1. now rewrite generateEmbedding_this, Hfb. }
  repeat split.
  - rewrite generateEmbedding_fallback by assumption.
    unfold fallback_dim. rewrite Hnone. cbn [default].
    apply fallbackEmbedding_length. lia.
  - exact Hthis.
  - rewrite (generateEmbedding_provider w2 text2 m1 vec).
    + now rewrite Hthis, Hnone.
    + now rewrite Hthis.
    + exact Hreply.
Qed.

Lemma runs_without_alnum (s : string) :
  forallb (fun c => negb (Js.is_lower_alnum c)) (list_ascii_of_string s) = true ->
  runs EmptyString s = [].
Proof.
  induction s as [| c s IH]; cbn [list_ascii_of_string forallb runs].
  - reflexivity.
  - intros Hall. apply andb_true_iff in Hall as [Hc Hs].
    apply negb_true_iff in Hc. rewrite Hc. cbn [Js.truthy app]. now apply IH.
Qed.

(** The squares of a vector of zeros add up to zero. *)
Lemma squares_of_zeros (n : nat) :
  fold_left (fun s v => (s + v * v)%float) (replicate n 0%float) 0%float
  = 0%float.
Proof. induction n as [| n IH]; [reflexivity | exact IH]. Qed.

(** The norm of a vector of zeros: the root is 0, and [0 || 1] is 1. *)
Lemma norm_of_zeros (n : nat) : norm_of (replicate n 0%float) = 1%float.
Proof.
  unfold norm_of. rewrite squares_of_zeros, Math_sqrt_zero. reflexivity.
Qed.

Lemma zeros_over_one (n : nat) :
  map (fun v => (v / 1)%float) (replicate n 0%float) = replicate n 0%float.
Proof.
  induction n as [| n IH]; [reflexivity |].
  cbn [replicate map]. rewrite IH. reflexivity.
Qed.

(** X4.  For a text without any letter or digit (the empty text, or
    punctuation only) the fallback vector has the fallback dimension and
    all its components are zero: the norm of the zero vector, 0, is
    replaced by 1, and every component is 0 / 1. *)
Theorem fallback_of_text_without_tokens (w : World) (text : string)
    (m : Machine) :
  takes_fallback w (this m) text = true ->
  forallb (fun c => negb (Js.is_lower_alnum c))
          (list_ascii_of_string (Js.toLowerCase text)) = true ->
  0 <= fallback_dim (this m) <= 2 ^ 32 - 1 ->
  let zeros := replicate (Z.to_nat (fallback_dim (this m))) 0%float in
  tokens_of text = [] /\
  Math_sqrt (fold_left (fun s v => (s + v * v)%float) zeros 0%float) = 0%float /\
  norm_of zeros = 1%float /\
  snd (generateEmbedding w text m)
  = Return (Vector (map (fun v => (v / norm_of zeros)%float) zeros)) /\
  snd (generateEmbedding w text m) = Return (Vector zeros).
Proof.
  intros Hfb Hno [Hlo Hhi] zeros.
  assert (Htok : tokens_of text = [])
    by (rewrite tokens_are_runs; now apply runs_without_alnum).
  assert (Hrun : snd (generateEmbedding w text m)
                 = Return (Vector (map (fun v => (v / norm_of zeros)%float) zeros))).
  { rewrite generateEmbedding_fallback by assumption.
    unfold fallbackEmbedding.
    destruct (Z.ltb_spec (fallback_dim (this m)) 0); [lia |].
    rewrite Z.gtb_ltb.
    destruct (Z.ltb_spec (2 ^ 32 - 1) (fallback_dim (this m))); [lia |].
    cbn [orb]. rewrite Htok. reflexivity. }
  split; [exact Htok |].
  split; [subst zeros; rewrite squares_of_zeros; apply Math_sqrt_zero |].
  split; [apply norm_of_zeros |].
  split; [exact Hrun |].
  rewrite Hrun. subst zeros. rewrite norm_of_zeros. do 2 f_equal.
  apply zeros_over_one.
Qed.

End OpenDimension.

(** The provider is down, then answers with 3 components. *)
Lemma fallback_leaves_dimension_open_witness :
  let m1 := fst (@generateEmbedding sample_host provider_down "rates" open_machine) in
  (exists vec1,
     snd (@generateEmbedding sample_host provider_down "rates" open_machine)
     = Return (Vector vec1) /\
     Z.of_nat (length vec1) = 1024) /\
  this m1 = this open_machine /\
  snd (@generateEmbedding sample_host calm_world "chips" m1)
  = Return (Vector [1; 0; 0]%float).
Proof.
  apply (@fallback_leaves_dimension_open sample_host provider_down calm_world
           "rates" "chips" open_machine [1; 0; 0]%float); reflexivity.
Defined.

(** A text of punctuation, embedded without a key into 8 components. *)
Lemma fallback_of_text_without_tokens_witness :
  let zeros := replicate (Z.to_nat (fallback_dim (this (offline_machine 8))))
                         0%float in
  tokens_of "?!... --" = [] /\
  @Math_sqrt sample_host
     (fold_left (fun s v => (s + v * v)%float) zeros 0%float) = 0%float /\
  @norm_of sample_host zeros = 1%float /\
  snd (@generateEmbedding sample_host calm_world "?!... --" (offline_machine 8))
  = Return (Vector (map (fun v => (v / @norm_of sample_host zeros)%float) zeros)) /\
  snd (@generateEmbedding sample_host calm_world "?!... --" (offline_machine 8))
  = Return (Vector zeros).
Proof.
  apply (@fallback_of_text_without_tokens sample_host calm_world "?!... --"
           (offline_machine 8)); [reflexivity | reflexivity | split; vm_compute; discriminate].
Defined.

(** ** The in-process store: scores, entries, identifiers *)

Lemma fold_left_ext_in {A B} (f g : A -> B -> A) (l : list B) (a : A) :
  (forall x y, In y l -> f x y = g x y) ->
  fold_left f l a = fold_left g l a.
Proof.
  revert a. induction l as [| y l IH]; intros a Hext; cbn [fold_left].
  - reflexivity.
  - rewrite (Hext a y) by now left. apply IH.
    intros x z Hz. apply Hext. now right.
Qed.

Section Cosine.

Context `{Host}.

(** The score depends on the stored vector through the components that
    the query has. *)
Lemma cosine_ext (a b b' : list float) :
  (forall i, (i < length a)%nat -> at_or_0 b i = at_or_0 b' i) ->
  cosine a b = cosine a b'.
Proof.
  intros Hext. unfold cosine.
  match goal with
  | |- context [fold_left ?f (seq 0 _) ?z] =>
      match goal with
      | |- context [fold_left ?g (seq 0 _) z] =>
          tryif constr_eq f g then fail
          else assert (Hfold : fold_left f (seq 0 (length a)) z =
                               fold_left g (seq 0 (length a)) z)
      end
  end.
  { apply fold_left_ext_in. intros [[dot na] nb] i Hi.
    apply in_seq in Hi. cbv zeta. rewrite (Hext i) by lia. reflexivity. }
  now rewrite Hfold.
Qed.

(** X5.  In the score of [searchSimilar], a stored vector that is longer
    than the query counts with its first components only, and a stored
    vector that is shorter counts as if it were filled up with zeros; an
    empty query scores zero against every stored vector. *)
Theorem cosine_on_mismatched_lengths (a b : list float) (n : nat) :
  cosine a b = cosine a (take (length a) b) /\
  cosine a (b ++ replicate n 0%float) = cosine a b /\
  cosine [] b = 0%float.
Proof.
  split; [| split].
  - apply cosine_ext. intros i Hi. unfold at_or_0.
    now rewrite lookup_take_lt.
  - apply cosine_ext. intros i _. unfold at_or_0.
    destruct (Nat.lt_ge_cases i (length b)) as [Hlt | Hge].
    + now rewrite lookup_app_l.
    + rewrite lookup_app_r by assumption.
      rewrite (lookup_ge_None_2 b) by assumption.
      destruct (replicate n 0%float !! (i - length b)%nat) as [x |] eqn:Ex;
        [| reflexivity].
      apply lookup_replicate in Ex as [-> _]. reflexivity.
  - unfold cosine. cbn [length seq fold_left]. rewrite Math_sqrt_zero.
    reflexivity.
Qed.

End Cosine.

Lemma PointId_eqb_eq (a b : PointId) : PointId_eqb a b = true <-> a = b.
Proof.
  destruct a as [x | x], b as [y | y]; cbn.
  - rewrite Z.eqb_eq. split; [now intros -> | now intros [= ->]].
  - split; discriminate.
  - split; discriminate.
  - rewrite String.eqb_eq. split; [now intros -> | now intros [= ->]].
Qed.

Lemma PointId_eqb_refl (a : PointId) : PointId_eqb a a = true.
Proof. now apply PointId_eqb_eq. Qed.

Lemma map_get_set_eq (store : list (PointId * Entry)) (key : PointId)
    (value : Entry) :
  map_get (map_set store key value) key = Some value.
Proof.
  induction store as [| [k v] store IH]; cbn.
  - now rewrite PointId_eqb_refl.
  - destruct (PointId_eqb k key) eqn:E; cbn; rewrite E; [reflexivity | exact IH].
Qed.

Lemma map_get_set_ne (store : list (PointId * Entry)) (key other : PointId)
    (value : Entry) :
  other <> key ->
  map_get (map_set store key value) other = map_get store other.
Proof.
  intros Hne. induction store as [| [k v] store IH]; cbn.
  - destruct (PointId_eqb key other) eqn:E; [| reflexivity].
    apply PointId_eqb_eq in E. congruence.
  - destruct (PointId_eqb k key) eqn:E; cbn.
    + apply PointId_eqb_eq in E. subst k.
      destruct (PointId_eqb key other) eqn:E'; [| reflexivity].
      apply PointId_eqb_eq in E'. congruence.
    + now rewrite IH.
Qed.

Lemma map_set_keys (store : list (PointId * Entry)) (key : PointId)
    (value : Entry) :
  map fst (map_set store key value) =
  match map_get store key with
  | Some _ => map fst store
  | None => map fst store ++ [key]
  end.
Proof.
  induction store as [| [k v] store IH]; cbn.
  - reflexivity.
  - destruct (PointId_eqb k key) eqn:E; cbn.
    + reflexivity.
    + rewrite IH. now destruct (map_get store key).
Qed.

Lemma map_get_None (store : list (PointId * Entry)) (key : PointId) :
  map_get store key = None -> ~ In key (map fst store).
Proof.
  induction store as [| [k v] store IH]; cbn.
  - tauto.
  - destruct (PointId_eqb k key) eqn:E; [discriminate |].
    intros Hn [Hk | Hin]; [| now apply IH].
    subst k. now rewrite PointId_eqb_refl in E.
Qed.


(** The keys of the map stay pairwise different. *)
Lemma map_set_NoDup (store : list (PointId * Entry)) (key : PointId)
    (value : Entry) :
  List.NoDup (map fst store) -> List.NoDup (map fst (map_set store key value)).
Proof.
  intros Hnd. rewrite map_set_keys.
  destruct (map_get store key) eqn:E; [exact Hnd |].
  apply map_get_None in E.
  apply NoDup_ListNoDup. apply NoDup_ListNoDup in Hnd.
  apply NoDup_app. split; [exact Hnd |]. split.
  - intros x Hx Hk. apply list_elem_of_In in Hx.
    apply list_elem_of_In in Hk. destruct Hk as [<- | []]. contradiction.
  - apply NoDup_singleton.
Qed.

Section Store.

Context `{Host}.

Lemma storeEmbedding_memory (w : World) (id : RawId) (text : string)
    (embedding : list float) (metadata : Metadata) (m : Machine) :
  useMemoryStorage (this m) = true ->
  storeEmbedding w id text embedding metadata m =
  ({| this :=
        {| useMemoryStorage := true;
           memoryStore :=
             Some (map_set (default [] (memoryStore (this m))) (toPointId w id)
                     {| entry_id := toPointId w id; entry_text := text;
                        entry_vector := embedding; entry_metadata := metadata |});
           jinaApiKey := jinaApiKey (this m);
           embeddingDim := embeddingDim (this m) |};
      redis := redis m; trace := trace m |},
   Return tt).
Proof.
  intros Hmem. unfold storeEmbedding. run_monad. now rewrite Hmem.
Qed.

(** X6.  On the in-process store, [storeEmbedding] returns and puts the
    entry under its point identifier: a lookup of that identifier gives
    the new entry, every other identifier gives what it gave before, the
    identifiers keep their order and stay pairwise different; a new
    identifier goes to the end, a known one keeps its place and the
    store does not grow. *)
Theorem storeEmbedding_puts_entry (w : World) (id : RawId) (text : string)
    (embedding : list float) (metadata : Metadata) (m : Machine) :
  useMemoryStorage (this m) = true ->
  let key := toPointId w id in
  let entry := {| entry_id := key; entry_text := text;
                  entry_vector := embedding; entry_metadata := metadata |} in
  let store := default [] (memoryStore (this m)) in
  let after := fst (storeEmbedding w id text embedding metadata m) in
  let store' := default [] (memoryStore (this after)) in
  snd (storeEmbedding w id text embedding metadata m) = Return tt /\
  useMemoryStorage (this after) = true /\
  map_get store' key = Some entry /\
  (forall other, other <> key -> map_get store' other = map_get store other) /\
  map fst store' = match map_get store key with
                   | Some _ => map fst store
                   | None => map fst store ++ [key]
                   end /\
  (List.NoDup (map fst store) -> List.NoDup (map fst store')).
Proof.
  intros Hmem key entry store after store'.
  subst after store'. rewrite storeEmbedding_memory by assumption.
  cbn [fst snd this memoryStore useMemoryStorage default].
  repeat split.
  - apply map_get_set_eq.
  - intros other Hne. now apply map_get_set_ne.
  - apply map_set_keys.
  - apply map_set_NoDup.
Qed.


End Store.

(** An identifier that is known is written over in its place. *)
Lemma storeEmbedding_puts_entry_witness :
  let w := calm_world in
  let m := stocked_machine in
  let key := toPointId w (RawNum 2) in
  let entry := {| entry_id := key; entry_text := "B again";
                  entry_vector := [1; 1]%float; entry_metadata := titled "B" |} in
  let store := default [] (memoryStore (this m)) in
  let after := fst (@storeEmbedding w (RawNum 2) "B again" [1; 1]%float (titled "B") m) in
  let store' := default [] (memoryStore (this after)) in
  snd (@storeEmbedding w (RawNum 2) "B again" [1; 1]%float (titled "B") m) = Return tt /\
  useMemoryStorage (this after) = true /\
  map_get store' key = Some entry /\
  (forall other, other <> key -> map_get store' other = map_get store other) /\
  map fst store' = match map_get store key with
                   | Some _ => map fst store
                   | None => map fst store ++ [key]
                   end /\
  (List.NoDup (map fst store) -> List.NoDup (map fst store')).
Proof.
  apply (storeEmbedding_puts_entry calm_world (RawNum 2) "B again" [1; 1]%float
           (titled "B") stocked_machine).
  reflexivity.
Defined.


(** ** Identifiers of the ingestion *)

Lemma one_of_version_hex (c : ascii) : one_of "12345" c = true -> is_hex c = true.
Proof.
  destruct c as [[|] [|] [|] [|] [|] [|] [|] [|]]; vm_compute;
    first [discriminate | reflexivity].
Qed.

Lemma one_of_variant_hex (c : ascii) : one_of "89abAB" c = true -> is_hex c = true.
Proof.
  destruct c as [[|] [|] [|] [|] [|] [|] [|] [|]]; vm_compute;
    first [discriminate | reflexivity].
Qed.

Lemma matches_forallb (ok : ascii -> bool) (pattern : list (ascii -> bool))
    (s : string) :
  List.Forall (fun p => forall c, p c = true -> ok c = true) pattern ->
  matches pattern s = true ->
  forallb ok (list_ascii_of_string s) = true.
Proof.
  intros Hall. revert s.
  induction Hall as [| p pattern Hp _ IH]; intros [| c s] Hm;
    cbn in Hm |- *; try discriminate Hm; [reflexivity |].
  apply andb_true_iff in Hm as [Hc Hs].
  rewrite (Hp c Hc). now apply IH.
Qed.

(** A UUID is made of hexadecimal digits and dashes, and it has a dash. *)
Lemma isUuid_chars (s : string) :
  isUuid s = true ->
  forallb uuid_char (list_ascii_of_string s) = true /\
  existsb (fun c => one_of "-" c) (list_ascii_of_string s) = true.
Proof.
  intros Hu. split.
  - revert Hu. unfold isUuid. apply matches_forallb.
    unfold uuid_pattern. cbn [replicate app].
    repeat constructor; intros c Hc; unfold uuid_char;
      first [ now rewrite Hc
            | now rewrite (one_of_version_hex c Hc)
            | now rewrite (one_of_variant_hex c Hc)
            | rewrite Hc; apply orb_true_r ].
  - unfold isUuid, uuid_pattern in Hu. cbn [replicate app] in Hu.
    do 9 (destruct s as [| ? s]; cbn [matches] in Hu; [discriminate Hu |];
          apply andb_true_iff in Hu as [? Hu]).
    cbn [list_ascii_of_string existsb].
    match goal with
    | Hd : one_of "-" ?c = true |- _ => rewrite Hd
    end.
    now rewrite !orb_true_r.
Qed.

Lemma string_of_uint_digits (d : Decimal.uint) :
  forallb is_digit (list_ascii_of_string (NilEmpty.string_of_uint d)) = true.
Proof. induction d; cbn; [reflexivity | assumption ..]. Qed.

(** The decimal rendering of a number that is not negative holds digits
    only. *)
Lemma showZ_digits (z : Z) :
  0 <= z -> forallb is_digit (list_ascii_of_string (Js.showZ z)) = true.
Proof.
  intros Hz. unfold Js.showZ.
  destruct z as [| p | p]; [reflexivity | | lia].
  cbn [Z.to_int NilZero.string_of_int]. unfold NilZero.string_of_uint.
  destruct (Pos.to_uint p) eqn:E; try reflexivity;
    rewrite <- E; apply string_of_uint_digits.
Qed.

Lemma digits_have_no_dash (cs : list ascii) :
  forallb is_digit cs = true -> existsb (fun c => one_of "-" c) cs = false.
Proof.
  induction cs as [| c cs IH]; cbn [forallb existsb]; [reflexivity |].
  intros Hall. apply andb_true_iff in Hall as [Hc Hcs].
  rewrite (IH Hcs), orb_false_r.
  destruct c as [[|] [|] [|] [|] [|] [|] [|] [|]]; vm_compute in Hc |- *;
    first [discriminate Hc | reflexivity].
Qed.

(** X8.  The identifiers that the ingestion makes itself never reach
    the store: the identifier of a chunk, [<article>_chunk_<i>], holds
    an underscore and the identifier that [generateArticleId] makes from
    a link is a string of digits, so neither is a UUID (nor a number),
    and [toPointId] replaces both by the identifier synthesized from the
    clock.  An identifier that is a UUID, as the news service gives to
    an article without a link, is kept as it is. *)
Theorem ingestion_ids_replaced_or_kept (w : World) (articleId url : string)
    (i : Z) :
  isUuid (chunkId articleId i) = false /\
  isUuid (generateArticleId url) = false /\
  toPointId w (RawStr (chunkId articleId i)) = NumId (Z.abs (synthesized_id w)) /\
  toPointId w (RawStr (generateArticleId url)) = NumId (Z.abs (synthesized_id w)) /\
  (forall id, isUuid id = true -> toPointId w (RawStr id) = UuidId id) /\
  (forall id, isUuid id = false ->
     toPointId w (RawStr id) = NumId (Z.abs (synthesized_id w))).
Proof.
  assert (Hchunk : isUuid (chunkId articleId i) = false).
  { destruct (isUuid (chunkId articleId i)) eqn:E; [| reflexivity].
    apply isUuid_chars in E as [Hall _]. unfold chunkId in Hall.
    rewrite forallb_append in Hall.
    apply andb_true_iff in Hall as [_ Hall]. discriminate Hall. }
  assert (Hid : isUuid (generateArticleId url) = false).
  { destruct (isUuid (generateArticleId url)) eqn:E; [| reflexivity].
    apply isUuid_chars in E as [_ Hdash]. unfold generateArticleId in Hdash.
    rewrite digits_have_no_dash in Hdash; [discriminate Hdash |].
    apply showZ_digits. lia. }
  repeat split; try assumption; cbn [toPointId].
  - now rewrite Hchunk.
  - now rewrite Hid.
  - intros id Hu. now rewrite Hu.
  - intros id Hu. now rewrite Hu.
Qed.

(** The identifiers of one article of the sample world: the UUID is
    kept, its first chunk and the hash of a link are replaced. *)
Example ingestion_ids_of_an_article :
  let w := calm_world in
  isUuid (uuid w) = true /\
  toPointId w (RawStr (uuid w)) = UuidId "123e4567-e89b-42d3-a456-426614174000" /\
  toPointId w (RawStr (chunkId (uuid w) 0)) = NumId 1735689600000123 /\
  generateArticleId "https://news.example/rates" = "7668766" /\
  toPointId w (RawStr (generateArticleId "https://news.example/rates"))
  = NumId 1735689600000123.
Proof. vm_compute. repeat split. Qed.

(** ** Statistics and start-up *)

(** X9.  [getEmbeddingStats] never throws and changes nothing.  The
    vector size it reports is always 1024, whatever dimension is
    established, and the two counts are the same number: the number of
    entries on the in-process store, and 0 when the count of the index
    is rejected.  One more entry is counted after [storeEmbedding] of a
    new identifier, none after a known one. *)
Theorem getEmbeddingStats_never_throws (ix : Index) (m : Machine) :
  exists stats,
    getEmbeddingStats ix m = (m, Return stats) /\
    vectorSize stats = 1024 /\
    indexedDocuments stats = totalDocuments stats /\
    (useMemoryStorage (this m) = true ->
     totalDocuments stats = Z.of_nat (length (default [] (memoryStore (this m)))) /\
     forall w id text embedding metadata stats',
       snd (getEmbeddingStats ix
              (fst (storeEmbedding w id text embedding metadata m)))
       = Return stats' ->
       totalDocuments stats' =
       totalDocuments stats +
       match map_get (default [] (memoryStore (this m))) (toPointId w id) with
       | Some _ => 0
       | None => 1
       end) /\
    (useMemoryStorage (this m) = false ->
     forall e, count_reply ix = Throw e -> totalDocuments stats = 0).
Proof.
  unfold getEmbeddingStats. run_monad. cbn [this].
  destruct (useMemoryStorage (this m)) eqn:Hmem.
  - eexists. split; [reflexivity |]. cbn [vectorSize indexedDocuments totalDocuments].
    repeat split; try discriminate.
    + now destruct (memoryStore (this m)).
    + intros w id text embedding metadata stats'.
      rewrite storeEmbedding_memory by assumption.
      cbn [fst snd this useMemoryStorage memoryStore].
      intros [= <-]. cbn [totalDocuments].
      pose proof (map_set_keys (default [] (memoryStore (this m))) (toPointId w id)
                    {| entry_id := toPointId w id; entry_text := text;
                       entry_vector := embedding; entry_metadata := metadata |})
        as Hkeys.
      apply (f_equal (@length _)) in Hkeys. rewrite length_map in Hkeys.
      rewrite Hkeys.
      destruct (memoryStore (this m)) as [store |]; cbn [default];
        destruct (map_get _ (toPointId w id));
        rewrite ?length_app, ?length_map; cbn [length]; unfold Datatypes.id; lia.
  - destruct (count_reply ix) as [countRes | e] eqn:Hcount.
    + eexists. split; [reflexivity |].
      repeat split; discriminate.
    + eexists. split; [reflexivity |].
      repeat split; try discriminate.
Qed.

Section StartUp.

Context `{Host}.

(** With no dimension established the probe of [initialize] returns:
    the fallback vector of 1024 components, the vector of the provider,
    or the value that the provider sent in the place of a vector. *)
Lemma probe_returns (w : World) (text : string) (m : Machine) :
  truthy_dim (embeddingDim (this m)) = None ->
  exists probe,
    snd (generateEmbedding w text m) = Return probe /\
    (takes_fallback w (this m) text = true ->
     exists vec, probe = Vector vec /\ Z.of_nat (length vec) = 1024) /\
    (takes_fallback w (this m) text = false ->
     match probe with
     | Vector vec => embedding_api w text = EmbedVector vec
     | NotArray value => embedding_api w text = EmbedOther value
     end).
Proof.
  intros Hd. destruct (takes_fallback w (this m) text) eqn:Hfb.
  - rewrite (generateEmbedding_fallback w text m Hfb).
    unfold fallback_dim. rewrite Hd. cbn [default from_option].
    destruct (fallbackEmbedding_length 1024 text) as (v & Hv & Hl); [lia |].
    exists (Vector v). rewrite Hv.
    repeat split; [intros _; now exists v | discriminate].
  - destruct (takes_fallback_false w (this m) text Hfb)
      as (Hkey & [(vec & Hvec) | (value & Hvalue)]).
    + exists (Vector vec).
      rewrite (generateEmbedding_provider w text m vec Hkey Hvec), Hd.
      repeat split; [discriminate | intros _; exact Hvec].
    + exists (NotArray value).
      rewrite (generateEmbedding_other w text m value Hkey Hvalue).
      repeat split; [discriminate | intros _; exact Hvalue].
Qed.

(** The machine on which [initialize] looks at the collections: the
    dimension is the established one, or the one read from the probe. *)
Lemma prepare_collection_cases (w : World) (ix : Index) (m : Machine) :
  exists m1,
    redis m1 = redis m /\
    useMemoryStorage (this m1) = useMemoryStorage (this m) /\
    (forall d, truthy_dim (embeddingDim (this m)) = Some d -> m1 = m) /\
    (truthy_dim (embeddingDim (this m)) = None ->
     exists probe,
       snd (generateEmbedding w "dimension probe" m) = Return probe /\
       embeddingDim (this m1) = Some (probe_dimension probe)) /\
    prepare_collection w ix m =
    match get_collections ix with
    | Throw e => (m1, [GetCollections], Throw e)
    | Return names =>
        if existsb (String.eqb (collectionName ix)) names then
          if dimension_differs
               match get_collection ix with
               | Return size => truthy_dim size
               | Throw _ => None
               end (embeddingDim (this m1))
          then
            match delete_failure ix with
            | Some e =>
                (m1, [GetCollections; GetCollection (collectionName ix);
                      DeleteCollection (collectionName ix)], Throw e)
            | None =>
                (m1, [GetCollections; GetCollection (collectionName ix);
                      DeleteCollection (collectionName ix);
                      CreateCollection (collectionName ix) (embeddingDim (this m1))],
                 match create_failure ix with
                 | Some e => Throw e
                 | None => Return tt
                 end)
            end
          else (m1, [GetCollections; GetCollection (collectionName ix)], Return tt)
        else
          (m1, [GetCollections;
                CreateCollection (collectionName ix) (embeddingDim (this m1))],
           match create_failure ix with
           | Some e => Throw e
           | None => Return tt
           end)
    end.
Proof.
  unfold prepare_collection.
  destruct (truthy_dim (embeddingDim (this m))) as [d |] eqn:Hd.
  - exists m. repeat split; try discriminate.
    unfold createCollection. cbn [app]. now case_matches.
  - destruct (probe_returns w "dimension probe" m Hd) as (probe & Hprobe & _).
    pose proof (generateEmbedding_steps w "dimension probe" m) as (Hr & Hu & _).
    destruct (generateEmbedding w "dimension probe" m) as [m1 out].
    cbn [fst snd] in *. subst out.
    exists (set_dimension (probe_dimension probe) m1).
    cbn [set_dimension this redis useMemoryStorage embeddingDim].
    repeat split; try assumption; try discriminate.
    + intros _. exists probe. split; reflexivity.
    + unfold createCollection. cbn [app set_dimension this embeddingDim].
      now case_matches.
Qed.

(** X10.  [initialize] never throws and leaves the transcripts alone.
    A service on the in-process store makes no call to the index and is
    not changed.  When the index rejects the listing of its collections,
    the service ends on the in-process store with an empty map, after
    that one call. *)
Theorem initialize_never_throws (w : World) (ix : Index) (m : Machine) :
  exists m' calls,
    initialize w ix m = (m', calls, Return tt) /\
    redis m' = redis m /\
    (useMemoryStorage (this m) = true -> m' = m /\ calls = []) /\
    (forall e, useMemoryStorage (this m) = false ->
               get_collections ix = Throw e ->
               useMemoryStorage (this m') = true /\
               memoryStore (this m') = Some [] /\
               calls = [GetCollections]).
Proof.
  unfold initialize.
  destruct (useMemoryStorage (this m)) eqn:Hmem.
  - exists m, []. repeat split; discriminate.
  - destruct (prepare_collection_cases w ix m) as (m1 & Hr & Hu & _ & _ & ->).
    destruct (get_collections ix) as [names | e].
    + case_matches; eexists; eexists; (split; [reflexivity |]);
        cbn [to_memory_storage redis]; repeat split;
        try assumption; discriminate.
    + eexists; eexists; (split; [reflexivity |]).
      cbn [to_memory_storage redis this useMemoryStorage memoryStore].
      repeat split; try assumption; discriminate.
Qed.

(** X11.  With an index that accepts every call, [initialize] keeps the
    service on the index, and the dimension [dim] it ends with is the
    one the collection is made for.  A missing collection is created; a
    collection whose size is a number other than 0 and other than [dim]
    is deleted and created again; a collection of the same size, of
    size 0, or whose size could not be read is left as it is. *)
Theorem initialize_prepares_collection (w : World) (ix : Index) (m : Machine)
    (names : list string) :
  useMemoryStorage (this m) = false ->
  get_collections ix = Return names ->
  delete_failure ix = None ->
  create_failure ix = None ->
  exists m' calls,
    initialize w ix m = (m', calls, Return tt) /\
    useMemoryStorage (this m') = false /\
    let name := collectionName ix in
    let dim := embeddingDim (this m') in
    (~ In name names -> calls = [GetCollections; CreateCollection name dim]) /\
    (In name names ->
     (forall d, get_collection ix = Return (Some d) -> d <> 0 -> dim <> Some d ->
                calls = [GetCollections; GetCollection name;
                         DeleteCollection name; CreateCollection name dim]) /\
     ((get_collection ix = Return dim \/ get_collection ix = Return (Some 0) \/
       get_collection ix = Return None \/
       exists e, get_collection ix = Throw e) ->
      calls = [GetCollections; GetCollection name])).
Proof.
  intros Hmem Hnames Hdel Hcreate. unfold initialize. rewrite Hmem.
  destruct (prepare_collection_cases w ix m) as (m1 & Hr & Hu & _ & _ & ->).
  rewrite Hnames, Hdel, Hcreate.
  assert (Hin : existsb (String.eqb (collectionName ix)) names = true <->
                In (collectionName ix) names).
  { rewrite existsb_exists. split.
    - intros (x & Hx & Heq). apply String.eqb_eq in Heq. now subst.
    - intros Hx. exists (collectionName ix). split; [exact Hx |].
      apply String.eqb_refl. }
  destruct (existsb (String.eqb (collectionName ix)) names) eqn:Hex.
  - destruct (dimension_differs _ _) eqn:Hdiff;
      eexists; eexists; (split; [reflexivity |]);
      (split; [congruence |]); cbn zeta; (split; [intros Hno; exfalso; apply Hno; now apply Hin |]);
      intros _; split.
    + reflexivity.
    + intros [Hg | [Hg | [Hg | [e Hg]]]]; rewrite Hg in Hdiff;
        unfold dimension_differs, truthy_dim in Hdiff; cbv beta iota in Hdiff;
        try discriminate.
      destruct (embeddingDim (this m1)) as [d |]; [| discriminate].
      cbv beta iota in Hdiff.
      destruct (d =? 0) eqn:Hz; rewrite ?Hz in Hdiff; [discriminate |].
      rewrite Z.eqb_refl in Hdiff. discriminate.
    + intros d Hg Hd0 Hne. exfalso. rewrite Hg in Hdiff.
      unfold dimension_differs, truthy_dim in Hdiff. cbv beta iota in Hdiff.
      destruct (d =? 0) eqn:Hz; [apply Z.eqb_eq in Hz; contradiction |].
      rewrite Hz in Hdiff.
      destruct (embeddingDim (this m1)) as [d' |]; [| discriminate].
      apply Bool.negb_false_iff, Z.eqb_eq in Hdiff. subst. now apply Hne.
    + reflexivity.
  - eexists; eexists; (split; [reflexivity |]); (split; [congruence |]).
    cbn zeta. split; [reflexivity |].
    intros Hx. apply Hin in Hx. discriminate.
Qed.

(** X12.  When a collection of another size was deleted and its
    creation is then rejected, [initialize] still returns normally: the
    index has lost the collection, and the service goes on with an
    empty in-process store. *)
Theorem initialize_can_lose_the_collection (w : World) (ix : Index)
    (m : Machine) (names : list string) (d dim : Z) (e : string) :
  useMemoryStorage (this m) = false ->
  embeddingDim (this m) = Some dim -> dim <> 0 ->
  get_collections ix = Return names ->
  In (collectionName ix) names ->
  get_collection ix = Return (Some d) -> d <> 0 -> d <> dim ->
  delete_failure ix = None ->
  create_failure ix = Some e ->
  initialize w ix m =
  (to_memory_storage m,
   [GetCollections; GetCollection (collectionName ix);
    DeleteCollection (collectionName ix);
    CreateCollection (collectionName ix) (Some dim)],
   Return tt) /\
  memoryStore (this (to_memory_storage m)) = Some [].
Proof.
  intros Hmem Hdim Hdim0 Hnames Hin Hg Hd0 Hne Hdel Hcreate.
  split; [| reflexivity].
  unfold initialize. rewrite Hmem.
  destruct (prepare_collection_cases w ix m) as (m1 & _ & _ & Hsame & _ & ->).
  assert (Ht : truthy_dim (embeddingDim (this m)) = Some dim).
  { rewrite Hdim. unfold truthy_dim.
    destruct (dim =? 0) eqn:Hz; [apply Z.eqb_eq in Hz; contradiction | reflexivity]. }
  rewrite (Hsame dim Ht), Hnames, Hg, Hdel, Hcreate, Hdim.
  replace (existsb (String.eqb (collectionName ix)) names) with true.
  2:{ symmetry. apply existsb_exists. exists (collectionName ix).
      split; [exact Hin | apply String.eqb_refl]. }
  unfold dimension_differs, truthy_dim. cbv beta iota.
  apply Z.eqb_neq in Hd0, Hne. repeat (rewrite Hd0; cbv beta iota). rewrite Hne.
  reflexivity.
Qed.

(** X27.  On the index, [initialize] leaves the service with a
    dimension: the one it had, or the one read from what
    [generateEmbedding] returns for the probe, which is the length of a
    vector, and 1024 for a value that is not an array; it is 1024 when
    the provider cannot be used.  This holds also when the service ends
    on the in-process store. *)
Theorem initialize_establishes_dimension (w : World) (ix : Index) (m : Machine) :
  useMemoryStorage (this m) = false ->
  let m' := fst (fst (initialize w ix m)) in
  (forall d, truthy_dim (embeddingDim (this m)) = Some d ->
             embeddingDim (this m') = Some d) /\
  (truthy_dim (embeddingDim (this m)) = None ->
   exists probe,
     snd (generateEmbedding w "dimension probe" m) = Return probe /\
     match probe with
     | Vector vec => embeddingDim (this m') = Some (Z.of_nat (length vec))
     | NotArray value =>
         embedding_api w "dimension probe" = EmbedOther value /\
         embeddingDim (this m') = Some 1024
     end /\
     (takes_fallback w (this m) "dimension probe" = true ->
      embeddingDim (this m') = Some 1024)).
Proof.
  intros Hmem. cbv zeta. unfold initialize. rewrite Hmem.
  destruct (prepare_collection_cases w ix m)
    as (m1 & _ & _ & Hsame & Hprobe & ->).
  match goal with
  | |- context [fst (fst ?run)] =>
      assert (Hm1 : embeddingDim (this (fst (fst run))) = embeddingDim (this m1))
        by (case_matches; reflexivity)
  end.
  rewrite Hm1. split.
  - intros d Hd. rewrite (Hsame d Hd).
    unfold truthy_dim in Hd. destruct (embeddingDim (this m)) as [n |];
      [| discriminate].
    destruct (n =? 0); [discriminate | exact Hd].
  - intros Hnone. destruct (Hprobe Hnone) as (probe & Hrun & Hlen).
    destruct (probe_returns w "dimension probe" m Hnone)
      as (probe' & Hrun' & Hfallback & Hprovider).
    rewrite Hrun in Hrun'. injection Hrun' as <-.
    exists probe. split; [exact Hrun |]. split.
    + destruct probe as [vec | value]; [exact Hlen |].
      split; [| exact Hlen].
      destruct (takes_fallback w (this m) "dimension probe") eqn:Hfb.
      * destruct (Hfallback eq_refl) as (vec & Hv & _). discriminate Hv.
      * exact (Hprovider eq_refl).
    + intros Hfb. destruct (Hfallback Hfb) as (vec & -> & Hl).
      rewrite Hlen. cbn [probe_dimension]. now f_equal.
Qed.

End StartUp.

(** An index that holds the collection for 768 components, a service for
    1024 components. *)
Lemma initialize_prepares_collection_witness :
  exists m' calls,
    @initialize sample_host calm_world index_768 (keyed_machine 1024)
    = (m', calls, Return tt) /\
    useMemoryStorage (this m') = false /\
    let name := collectionName index_768 in
    let dim := embeddingDim (this m') in
    (~ In name ["other"; "news_embeddings"] ->
     calls = [GetCollections; CreateCollection name dim]) /\
    (In name ["other"; "news_embeddings"] ->
     (forall d, get_collection index_768 = Return (Some d) -> d <> 0 ->
                dim <> Some d ->
                calls = [GetCollections; GetCollection name;
                         DeleteCollection name; CreateCollection name dim]) /\
     ((get_collection index_768 = Return dim \/
       get_collection index_768 = Return (Some 0) \/
       get_collection index_768 = Return None \/
       exists e, get_collection index_768 = Throw e) ->
      calls = [GetCollections; GetCollection name])).
Proof.
  apply (@initialize_prepares_collection sample_host calm_world index_768
           (keyed_machine 1024) ["other"; "news_embeddings"]); reflexivity.
Defined.

(** The collection for 768 components is deleted for a service of 1024
    components, and its creation is rejected. *)
Lemma initialize_can_lose_the_collection_witness :
  @initialize sample_host calm_world index_half (keyed_machine 1024) =
  (to_memory_storage (keyed_machine 1024),
   [GetCollections; GetCollection "news_embeddings";
    DeleteCollection "news_embeddings";
    CreateCollection "news_embeddings" (Some 1024)],
   Return tt) /\
  memoryStore (this (to_memory_storage (keyed_machine 1024))) = Some [].
Proof.
  apply (@initialize_can_lose_the_collection sample_host calm_world index_half
           (keyed_machine 1024) ["news_embeddings"] 768 1024
           "Service Unavailable");
    try reflexivity; try lia.
  simpl. left. reflexivity.
Defined.

(** No dimension is set and the provider sends [null] for the vector:
    the dimension is 1024. *)
Lemma initialize_establishes_dimension_witness :
  let m' := fst (fst (@initialize sample_host provider_confused index_768
                        open_machine)) in
  (forall d, truthy_dim (embeddingDim (this open_machine)) = Some d ->
             embeddingDim (this m') = Some d) /\
  (truthy_dim (embeddingDim (this open_machine)) = None ->
   exists probe,
     snd (@generateEmbedding sample_host provider_confused "dimension probe"
            open_machine) = Return probe /\
     match probe with
     | Vector vec => embeddingDim (this m') = Some (Z.of_nat (length vec))
     | NotArray value =>
         embedding_api provider_confused "dimension probe" = EmbedOther value /\
         embeddingDim (this m') = Some 1024
     end /\
     (takes_fallback provider_confused (this open_machine) "dimension probe"
      = true ->
      embeddingDim (this m') = Some 1024)).
Proof.
  apply (@initialize_establishes_dimension sample_host provider_confused
           index_768 open_machine).
  reflexivity.
Defined.

(** The dimension after [initialize] in three worlds: the provider sends
    [null], the provider is down, the provider sends three components. *)
Example initialize_dimension_of_probes :
  map (fun w => embeddingDim
                  (this (fst (fst (@initialize sample_host w index_768
                                     open_machine)))))
      [provider_confused; provider_down; calm_world]
  = [Some 1024; Some 1024; Some 3].
Proof. vm_compute. reflexivity. Qed.

(** ** The stand-in store *)

(** X13.  In the stand-in of [config/redis.js], a read of the whole list
    after [lpush] gives the pushed values, in the order of the call,
    in front of what the key held; the length that [lpush] returns is
    the one [llen] reports; the other keys read as before. *)
Theorem MemoryStorage_push_then_read {A} (data : gmap string (list A))
    (key : string) (values : list A) :
  let pushed := MemoryStorage.lpush data key values in
  MemoryStorage.lrange (fst pushed) key 0 (-1)
  = values ++ MemoryStorage.lrange data key 0 (-1) /\
  snd pushed = MemoryStorage_llen (fst pushed) key /\
  snd pushed = MemoryStorage_llen data key + Z.of_nat (length values) /\
  forall other start stop,
    other <> key ->
    MemoryStorage.lrange (fst pushed) other start stop
    = MemoryStorage.lrange data other start stop.
Proof.
  cbv zeta. unfold MemoryStorage.lpush. cbn [fst snd].
  rewrite !MemoryStorage_lrange_is_LRANGE, !lrange_whole.
  unfold MemoryStorage_llen. rewrite lookup_insert_eq. cbn [default from_option].
  unfold Datatypes.id. repeat split.
  - rewrite length_app. lia.
  - intros other start stop Hne.
    rewrite !MemoryStorage_lrange_is_LRANGE, lookup_insert_ne by congruence.
    reflexivity.
Qed.

(** ** Runs that fail, and sessions side by side *)

Lemma chat_key_inj (a b : string) : chat_key a = chat_key b -> a = b.
Proof. unfold chat_key. cbn. now intros [=]. Qed.

Section Runs.

Context `{Host}.

(** What a run of [processQuery] does to the store and to the trace. *)
Lemma processQuery_effect (w : World) (query sessionId : string)
    (m m' : Machine) (out : Outcome QueryResult) :
  processQuery w query sessionId m = (m', out) ->
  exists evs,
    trace m' = trace m ++ evs /\
    match out with
    | Throw _ => redis m' = redis m /\ pushes evs = [] /\ completions evs = []
    | Return result =>
        redis m' =
        <[chat_key sessionId :=
            message_of w result :: Redis.list_at (redis m) (chat_key sessionId)]>
        (redis m)
    end.
Proof.
  unfold processQuery. unfold bind at 1.
  pose proof (retrieve_context_steps w query m) as Hsteps.
  destruct (retrieve_context w query m) as [m1 [[context similarDocs] | e]];
    destruct Hsteps as (Hredis & _ & evs & Htrace & Hevs); cbn [fst snd] in *;
    apply retrieval_only in Hevs as (Hp & Hc & _ & _).
  2:{ intros [= <- <-]. exists evs. repeat split; assumption. }
  unfold choose_prompt, Redis.lPush. run_monad.
  cbn [this redis trace fst snd].
  match goal with |- _ = _ -> ?G => set (Q := G) end.
  case_matches; intros Hrun; injection Hrun as Hm Ho; subst Q; subst m' out;
    cbn [fst snd redis trace]; rewrite ?Hredis, Htrace;
    eexists; (split; [rewrite <- ?app_assoc; reflexivity |]);
    try reflexivity.
  all: unfold pushes, completions in *; rewrite ?omap_app, ?Hp, ?Hc;
    repeat split; reflexivity.
Qed.

(** What a run of [processQueryWithStreaming] does to the store and to
    the trace. *)
Lemma processQueryWithStreaming_effect (w : World) (query sessionId : string)
    (m m' : Machine) (out : Outcome unit) :
  processQueryWithStreaming w query sessionId m = (m', out) ->
  exists evs,
    trace m' = trace m ++ evs /\
    match out with
    | Throw _ => redis m' = redis m /\ pushes evs = [] /\ completions evs = []
    | Return _ =>
        exists message,
          redis m' =
          <[chat_key sessionId :=
              message :: Redis.list_at (redis m) (chat_key sessionId)]>
          (redis m)
    end.
Proof.
  unfold processQueryWithStreaming. unfold bind at 1.
  pose proof (retrieve_context_steps w query m) as Hsteps.
  destruct (retrieve_context w query m) as [m1 [[context similarDocs] | e]];
    destruct Hsteps as (Hredis & _ & evs & Htrace & Hevs); cbn [fst snd] in *;
    apply retrieval_only in Hevs as (Hp & Hc & _ & _).
  2:{ intros [= <- <-]. exists evs. repeat split; assumption. }
  unfold choose_prompt, Redis.lPush. run_monad.
  cbn [this redis trace fst snd]. rewrite for_await_run.
  match goal with |- _ = _ -> ?G => set (Q := G) end.
  case_matches; intros Hrun; injection Hrun as Hm Ho; subst Q; subst m' out;
    cbn [fst snd redis trace]; rewrite ?Hredis, Htrace;
    eexists; (split; [rewrite <- ?app_assoc; reflexivity |]);
    try (eexists; reflexivity).
  all: unfold pushes, completions in *; rewrite ?omap_app, ?Hp, ?Hc;
    fold pushes completions; rewrite ?pushes_chunks, ?completions_chunks;
    repeat split; reflexivity.
Qed.

(** X14.  A run of [processQuery] or of [processQueryWithStreaming]
    that throws has written nothing: the store is as it was, no message
    was pushed and [onComplete] was not called. *)
Theorem failed_run_writes_nothing (w : World) (query sessionId : string)
    (m : Machine) :
  (forall m' e,
     processQuery w query sessionId m = (m', Throw e) ->
     redis m' = redis m /\
     exists evs, trace m' = trace m ++ evs /\
                 pushes evs = [] /\ completions evs = []) /\
  (forall m' e,
     processQueryWithStreaming w query sessionId m = (m', Throw e) ->
     redis m' = redis m /\
     exists evs, trace m' = trace m ++ evs /\
                 pushes evs = [] /\ completions evs = []).
Proof.
  split; intros m' e Hrun.
  - destruct (processQuery_effect _ _ _ _ _ _ Hrun) as (evs & Ht & Hr & Hp & Hc).
    split; [exact Hr |]. now exists evs.
  - destruct (processQueryWithStreaming_effect _ _ _ _ _ _ Hrun)
      as (evs & Ht & Hr & Hp & Hc).
    split; [exact Hr |]. now exists evs.
Qed.

(** X15.  Sessions do not touch each other: whatever a run of
    [processQuery], of [processQueryWithStreaming] or of
    [clearChatHistory] for one session does, the transcript of every
    other session is the one it was. *)
Theorem sessions_are_isolated (w : World) (query sessionId other : string)
    (m : Machine) :
  other <> sessionId ->
  Redis.list_at (redis (fst (processQuery w query sessionId m))) (chat_key other)
  = Redis.list_at (redis m) (chat_key other) /\
  Redis.list_at (redis (fst (processQueryWithStreaming w query sessionId m)))
                (chat_key other)
  = Redis.list_at (redis m) (chat_key other) /\
  Redis.list_at (redis (fst (clearChatHistory w sessionId m))) (chat_key other)
  = Redis.list_at (redis m) (chat_key other).
Proof.
  intros Hne.
  assert (Hkey : chat_key sessionId <> chat_key other).
  { intros Heq. apply chat_key_inj in Heq. congruence. }
  unfold Redis.list_at. repeat split.
  - destruct (processQuery w query sessionId m) as [m' out] eqn:Hrun.
    destruct (processQuery_effect _ _ _ _ _ _ Hrun) as (evs & _ & Hr).
    cbn [fst]. destruct out as [result | e].
    + rewrite Hr, lookup_insert_ne by exact Hkey. reflexivity.
    + destruct Hr as (-> & _). reflexivity.
  - destruct (processQueryWithStreaming w query sessionId m) as [m' out] eqn:Hrun.
    destruct (processQueryWithStreaming_effect _ _ _ _ _ _ Hrun) as (evs & _ & Hr).
    cbn [fst]. destruct out as [u | e].
    + destruct Hr as (message & ->).
      rewrite lookup_insert_ne by exact Hkey. reflexivity.
    + destruct Hr as (-> & _). reflexivity.
  - unfold clearChatHistory, Redis.del. run_monad.
    destruct (redis_failure w); cbn [fst redis]; [reflexivity |].
    rewrite lookup_delete_ne by exact Hkey. reflexivity.
Qed.

(** X16.  While the store answers, the transcript of a session reads
    empty after [clearChatHistory], whatever the limit of the read and
    whatever the session held. *)
Theorem cleared_history_reads_empty (w : World) (sessionId : string)
    (limit : Z) (m : Machine) :
  redis_failure w = None ->
  snd (clearChatHistory w sessionId m) = Return tt /\
  snd (getChatHistory w sessionId limit (fst (clearChatHistory w sessionId m)))
  = Return [].
Proof.
  intros Hw. rewrite getChatHistory_run by exact Hw.
  unfold clearChatHistory, Redis.del. run_monad. rewrite Hw.
  cbn [fst snd redis]. split; [reflexivity |].
  unfold Redis.list_at. rewrite lookup_delete_eq. cbn [default from_option].
  unfold Redis.lrange. cbn [length Z.of_nat].
  case_Zb; try reflexivity; try lia.
  all: now rewrite drop_nil, take_nil.
Qed.

(** X17.  A limit below 0 does not bound the read: for a session that
    received [messages], oldest first, [getChatHistory] with limit [-k]
    returns the messages without the [k] oldest ones, in the order they
    were received. *)
Theorem history_negative_limit (w : World) (sessionId : string)
    (messages : list ChatMessage) (limit : Z) (m : Machine) :
  redis_failure w = None ->
  Redis.list_at (redis m) (chat_key sessionId) = rev messages ->
  limit <= -1 ->
  snd (getChatHistory w sessionId limit m)
  = Return (drop (Z.to_nat (- limit)) messages).
Proof.
  intros Hw Hstored Hlimit.
  rewrite getChatHistory_run by exact Hw. rewrite Hstored. f_equal.
  unfold Redis.lrange. rewrite length_rev.
  set (n := Z.of_nat (length messages)).
  assert (Hn : length messages = Z.to_nat n) by (subst n; lia).
  assert (Hn0 : 0 <= n) by (subst n; lia).
  case_Zb; try lia.
  all: change (Z.to_nat 0) with 0%nat; rewrite ?drop_0.
  all: first [ cbn [rev]; symmetry; apply drop_ge; lia
             | rewrite firstn_rev, rev_involutive; f_equal; lia ].
Qed.

End Runs.

(** Two sessions on an empty store. *)
Lemma sessions_are_isolated_witness :
  Redis.list_at (redis (fst (@processQuery sample_host calm_world "rates" "s"
                               fresh_machine))) (chat_key "t")
  = Redis.list_at (redis fresh_machine) (chat_key "t") /\
  Redis.list_at (redis (fst (@processQueryWithStreaming sample_host calm_world
                               "rates" "s" fresh_machine))) (chat_key "t")
  = Redis.list_at (redis fresh_machine) (chat_key "t") /\
  Redis.list_at (redis (fst (clearChatHistory calm_world "s" fresh_machine)))
                (chat_key "t")
  = Redis.list_at (redis fresh_machine) (chat_key "t").
Proof.
  apply (@sessions_are_isolated sample_host calm_world "rates" "s" "t"
           fresh_machine).
  discriminate.
Defined.

Lemma cleared_history_reads_empty_witness :
  snd (clearChatHistory calm_world "s" fresh_machine) = Return tt /\
  snd (getChatHistory calm_world "s" 50
         (fst (clearChatHistory calm_world "s" fresh_machine)))
  = Return [].
Proof.
  apply (cleared_history_reads_empty calm_world "s" 50 fresh_machine).
  reflexivity.
Defined.

(** Three messages, a limit of -1: the oldest message is left out. *)
Lemma history_negative_limit_witness :
  snd (getChatHistory calm_world "s" (-1)
         {| this := memory_service;
            redis := {[ chat_key "s" := rev [hello; hi_there; thanks] ]};
            trace := [] |})
  = Return (drop (Z.to_nat (- -1)) [hello; hi_there; thanks]).
Proof.
  apply (history_negative_limit calm_world "s" [hello; hi_there; thanks] (-1)
           {| this := memory_service;
              redis := {[ chat_key "s" := rev [hello; hi_there; thanks] ]};
              trace := [] |});
    [reflexivity | reflexivity | lia].
Defined.

(** ** The routes *)

Section Turns.

Context `{Host}.

(** The start of a turn, the same at the three entry points: the
    message of the user is pushed, then a new service is made. *)
Lemma turn_start {A} (w : World) (key : string) (message : ChatMessage)
    (run : M A) (m : Machine) :
  redis_failure w = None ->
  (Redis.lPush w key message ;; new_RAGService w ;; run) m =
  run {| this := constructor (process_env w);
         redis := <[key := message :: Redis.list_at (redis m) key]> (redis m);
         trace := trace m ++ [EvLPush key message] |}.
Proof.
  intros Hw. unfold bind at 1. rewrite lPush_run by exact Hw.
  unfold bind, new_RAGService, set_this. reflexivity.
Qed.

(** X18.  A turn on [POST /message] with a text that passes the guard,
    while the store answers: with status 200 the transcript of the
    session has got the message of the user and, in front of it, the
    message of the assistant with the response that was sent; with
    status 500 it has got the message of the user alone, which stays
    without an answer.  No other status is sent. *)
Theorem post_message_turn (w : World) (text : string)
    (sessionId : option string) (m : Machine) :
  rejected (Some text) = false ->
  redis_failure w = None ->
  let finalSessionId :=
    match sessionId with
    | Some s => if Js.truthy s then s else uuid w
    | None => uuid w
    end in
  let before := Redis.list_at (redis m) (chat_key finalSessionId) in
  let after :=
    Redis.list_at (redis (fst (post_message w (Some text) sessionId m)))
                  (chat_key finalSessionId) in
  (exists result,
     snd (post_message w (Some text) sessionId m)
     = Status200 finalSessionId result (now w) /\
     after = message_of w result :: user_message w text :: before) \/
  (snd (post_message w (Some text) sessionId m)
   = Status500 "Failed to process message" /\
   after = user_message w text :: before).
Proof.
  intros Hguard Hw. cbv zeta. unfold post_message. rewrite Hguard.
  cbn [default from_option]. unfold Datatypes.id.
  set (sid := match sessionId with
              | Some s => if Js.truthy s then s else uuid w
              | None => uuid w
              end).
  rewrite !turn_start by exact Hw.
  match goal with
  | |- context [processQuery w text sid ?m0] =>
      destruct (processQuery w text sid m0) as [m' out] eqn:Hrun
  end.
  destruct (processQuery_effect _ _ _ _ _ _ Hrun) as (evs & _ & Hr).
  cbn [redis] in Hr. rewrite list_at_insert in Hr.
  destruct out as [result | e]; cbv beta iota; cbn [fst snd].
  - left. exists result. split; [reflexivity |].
    rewrite Hr. apply list_at_insert.
  - right. split; [reflexivity |].
    destruct Hr as (-> & _). apply list_at_insert.
Qed.

(** X19.  The same turn on the [chat-message] event of the socket: when
    the run completes, the transcript has got the message of the user
    and one message in front of it; when it fails, the message of the
    user alone.  [POST /stream] does what the socket does, for a text
    that passes its guard and a session id that is given. *)
Theorem streamed_turn (w : World) (text sessionId : string) (m : Machine) :
  redis_failure w = None ->
  let before := Redis.list_at (redis m) (chat_key sessionId) in
  let socket := on_chat_message w sessionId text m in
  let route := post_stream w (Some text) (Some sessionId) m in
  ((exists message,
      snd socket = Completed /\
      Redis.list_at (redis (fst socket)) (chat_key sessionId)
      = message :: user_message w text :: before) \/
   (snd socket = ChatError "Failed to process message" /\
    Redis.list_at (redis (fst socket)) (chat_key sessionId)
    = user_message w text :: before)) /\
  (rejected (Some text) = false -> Js.truthy sessionId = true ->
   fst route = fst socket /\
   snd route = EventStream match snd socket with
                           | Completed => false
                           | ChatError _ => true
                           end).
Proof.
  intros Hw. cbv zeta. split.
  - unfold on_chat_message. rewrite !turn_start by exact Hw.
    match goal with
    | |- context [processQueryWithStreaming w text sessionId ?m0] =>
        destruct (processQueryWithStreaming w text sessionId m0)
          as [m' out] eqn:Hrun
    end.
    destruct (processQueryWithStreaming_effect _ _ _ _ _ _ Hrun)
      as (evs & _ & Hr).
    cbn [redis] in Hr. rewrite list_at_insert in Hr.
    destruct out as [u | e]; cbv beta iota; cbn [fst snd].
    + left. destruct Hr as (message & ->). exists message.
      split; [reflexivity |]. apply list_at_insert.
    + right. split; [reflexivity |].
      destruct Hr as (-> & _). apply list_at_insert.
  - intros Hguard Hsid. unfold post_stream, on_chat_message.
    rewrite Hguard, Hsid. cbn [default from_option]. unfold Datatypes.id.
    rewrite !turn_start by exact Hw.
    match goal with
    | |- context [processQueryWithStreaming w text sessionId ?m0] =>
        destruct (processQueryWithStreaming w text sessionId m0)
          as [m' [u | e]]
    end; split; reflexivity.
Qed.

(** X20.  The guard of the two routes of [routes/chat.js] is a test for
    blank texts: a text made of white space only, or no text at all, is
    answered with status 400 and nothing is called or stored; any other
    text is never answered with status 400. *)
Theorem chat_routes_guard (w : World) (text sessionId : option string)
    (m : Machine) :
  let blank :=
    match text with
    | Some s => forallb Js.is_space (list_ascii_of_string s)
    | None => true
    end in
  if blank then
    post_message w text sessionId m = (m, Status400 "Message is required") /\
    post_stream w text sessionId m = (m, Status400 "Message is required")
  else
    forall error,
      snd (post_message w text sessionId m) <> Status400 error /\
      snd (post_stream w text sessionId m) <> Status400 error.
Proof.
  cbv zeta.
  assert (Hguard : rejected text =
                   match text with
                   | Some s => forallb Js.is_space (list_ascii_of_string s)
                   | None => true
                   end).
  { destruct text as [s |]; [| reflexivity].
    pose proof (rejected_iff_blank s) as Hiff.
    destruct (rejected (Some s)), (forallb Js.is_space (list_ascii_of_string s));
      try reflexivity.
    - symmetry. now apply Hiff.
    - now apply Hiff. }
  rewrite <- Hguard. unfold post_message, post_stream.
  destruct (rejected text); [split; reflexivity |].
  intros error. split.
  - match goal with
    | |- context [let (_, _) := ?run in _] => destruct run as [m' [r | e]]
    end; discriminate.
  - match goal with
    | |- context [let (_, _) := ?run in _] => destruct run as [m' [r | e]]
    end; discriminate.
Qed.

End Turns.

Lemma post_message_turn_witness :
  let finalSessionId := "s" in
  let before := Redis.list_at (redis fresh_machine) (chat_key finalSessionId) in
  let after :=
    Redis.list_at
      (redis (fst (@post_message sample_host calm_world (Some "rates") (Some "s")
                     fresh_machine)))
      (chat_key finalSessionId) in
  (exists result,
     snd (@post_message sample_host calm_world (Some "rates") (Some "s")
            fresh_machine)
     = Status200 finalSessionId result (now calm_world) /\
     after = message_of calm_world result :: user_message calm_world "rates"
             :: before) \/
  (snd (@post_message sample_host calm_world (Some "rates") (Some "s")
          fresh_machine)
   = Status500 "Failed to process message" /\
   after = user_message calm_world "rates" :: before).
Proof.
  apply (@post_message_turn sample_host calm_world "rates" (Some "s")
           fresh_machine); reflexivity.
Defined.

Lemma streamed_turn_witness :
  let before := Redis.list_at (redis fresh_machine) (chat_key "s") in
  let socket := @on_chat_message sample_host calm_world "s" "rates" fresh_machine in
  let route := @post_stream sample_host calm_world (Some "rates") (Some "s")
                 fresh_machine in
  ((exists message,
      snd socket = Completed /\
      Redis.list_at (redis (fst socket)) (chat_key "s")
      = message :: user_message calm_world "rates" :: before) \/
   (snd socket = ChatError "Failed to process message" /\
    Redis.list_at (redis (fst socket)) (chat_key "s")
    = user_message calm_world "rates" :: before)) /\
  (rejected (Some "rates") = false -> Js.truthy "s" = true ->
   fst route = fst socket /\
   snd route = EventStream match snd socket with
                           | Completed => false
                           | ChatError _ => true
                           end).
Proof.
  apply (@streamed_turn sample_host calm_world "rates" "s" fresh_machine).
  reflexivity.
Defined.


(** ** The routes of the sessions *)

Section Sessions.

Context `{Host}.

Lemma get_history_run (w : World) (sessionId : string) (limit : option Z)
    (s : Server) :
  redis_failure w = None ->
  get_history w sessionId limit s =
  ({| machine :=
        {| this := constructor (process_env w);
           redis := redis (machine s);
           trace := trace (machine s) ++
                    [EvLRange (chat_key sessionId) 0
                              (default 50 (truthy_dim limit) - 1)] |};
      hashes := hSet_field (session_key sessionId) "lastActivity" (now w)
                  (hashes s);
      expiry := expiry s |},
   let messages :=
     rev (Redis.lrange (Redis.list_at (redis (machine s)) (chat_key sessionId))
                       0 (default 50 (truthy_dim limit) - 1)) in
   History sessionId messages (Z.of_nat (length messages))).
Proof.
  intros Hw. unfold get_history, getChatHistory, Redis.lRange.
  run_monad. rewrite Hw. reflexivity.
Qed.

(** X21.  While the store answers, [GET /:sessionId/history] answers
    with the messages that [getChatHistory] returns for the limit of
    the query, and for 50 when the query gives no number or gives 0;
    the count it sends is their number, which is at most the limit when
    the limit is 1 or more. *)
Theorem history_route_limit (w : World) (sessionId : string)
    (limit : option Z) (s : Server) :
  redis_failure w = None ->
  let effective :=
    match limit with
    | Some k => if k =? 0 then 50 else k
    | None => 50
    end in
  exists messages,
    snd (get_history w sessionId limit s)
    = History sessionId messages (Z.of_nat (length messages)) /\
    snd (getChatHistory w sessionId effective (machine s)) = Return messages /\
    (1 <= effective -> Z.of_nat (length messages) <= effective).
Proof.
  intros Hw. cbv zeta.
  rewrite get_history_run by exact Hw. cbn [snd].
  rewrite getChatHistory_run by exact Hw.
  assert (Heff : default 50 (truthy_dim limit) =
                 match limit with
                 | Some k => if k =? 0 then 50 else k
                 | None => 50
                 end).
  { destruct limit as [k |]; [| reflexivity]. cbn. now destruct (k =? 0). }
  rewrite Heff. eexists. split; [reflexivity |]. split; [reflexivity |].
  intros Hpos. rewrite length_rev, lrange_prefix by exact Hpos.
  rewrite length_take. lia.
Qed.

(** X22.  Reading the history of a session that the store does not
    know (never created, or expired) succeeds with no message, and
    leaves a hash for the session that holds the time of the last
    activity alone and has no expiry: nothing removes it later. *)
Theorem history_route_of_unknown_session (w : World) (sessionId : string)
    (limit : option Z) (s : Server) :
  redis_failure w = None ->
  hashes s !! session_key sessionId = None ->
  expiry s !! session_key sessionId = None ->
  Redis.list_at (redis (machine s)) (chat_key sessionId) = [] ->
  snd (get_history w sessionId limit s) = History sessionId [] 0 /\
  hashes (fst (get_history w sessionId limit s)) !! session_key sessionId
  = Some {[ "lastActivity" := now w ]} /\
  expiry (fst (get_history w sessionId limit s)) !! session_key sessionId = None.
Proof.
  intros Hw Hhash Hexp Hchat.
  rewrite get_history_run by exact Hw. cbn [fst snd hashes expiry].
  rewrite Hchat. repeat split.
  - unfold Redis.lrange. cbn [length Z.of_nat].
    case_Zb; try reflexivity; now rewrite drop_nil, take_nil.
  - unfold hSet_field. rewrite lookup_insert_eq, Hhash. reflexivity.
  - exact Hexp.
Qed.

End Sessions.

(** The limit 0 of a query is read as 50. *)
Lemma history_route_limit_witness :
  let effective := 50 in
  exists messages,
    snd (get_history calm_world "s" (Some 0) empty_server)
    = History "s" messages (Z.of_nat (length messages)) /\
    snd (getChatHistory calm_world "s" effective (machine empty_server))
    = Return messages /\
    (1 <= effective -> Z.of_nat (length messages) <= effective).
Proof.
  apply (history_route_limit calm_world "s" (Some 0) empty_server).
  reflexivity.
Defined.

Lemma history_route_of_unknown_session_witness :
  snd (get_history calm_world "s" None empty_server)
  = History "s" [] 0 /\
  hashes (fst (get_history calm_world "s" None empty_server))
    !! session_key "s"
  = Some {[ "lastActivity" := now calm_world ]} /\
  expiry (fst (get_history calm_world "s" None empty_server))
    !! session_key "s" = None.
Proof.
  apply (history_route_of_unknown_session calm_world "s" None
           empty_server); reflexivity.
Defined.

(** ** The texts of the ingestion *)

Lemma len_append (a b : string) : len (a +:+ b) = len a + len b.
Proof.
  unfold len. induction a as [| x a IH]; [reflexivity |].
  change (String x a +:+ b) with (String x (a +:+ b)).
  cbn [String.length]. lia.
Qed.

Lemma len_nonneg (s : string) : 0 <= len s.
Proof. unfold len. lia. Qed.

Lemma truthy_len (s : string) : Js.truthy s = true <-> 0 < len s.
Proof.
  unfold len. destruct s; cbn [Js.truthy String.length]; split;
    try discriminate; try reflexivity; lia.
Qed.

Lemma split_on_not_nil (c : ascii) (cur s : string) : split_on c cur s <> [].
Proof.
  revert cur. induction s as [| x s IH]; intros cur; cbn [split_on].
  - discriminate.
  - destruct (Ascii.eqb x c); [discriminate | apply IH].
Qed.

(** [split(' ')] then [join(' ')] gives the string back. *)
Lemma split_on_join (c : ascii) (cur s : string) :
  Js.join (String c EmptyString) (split_on c cur s) = cur +:+ s.
Proof.
  revert cur. induction s as [| x s IH]; intros cur; cbn [split_on].
  - cbn [Js.join]. now rewrite append_empty_r.
  - destruct (Ascii.eqb x c) eqn:Ex.
    + apply Ascii.eqb_eq in Ex. subst x.
      pose proof (split_on_not_nil c EmptyString s) as Hne.
      pose proof (IH EmptyString) as Hrest.
      destruct (split_on c EmptyString s) as [| p rest]; [contradiction |].
      change (Js.join (String c EmptyString) (cur :: p :: rest))
        with (cur +:+ String c EmptyString +:+
              Js.join (String c EmptyString) (p :: rest)).
      rewrite Hrest. reflexivity.
    + rewrite IH, append_assoc. reflexivity.
Qed.

(** [slice(-k)] keeps the whole array when [k] is 0 or is at least its
    length. *)
Lemma slice_whole {A} (l : list A) (k : Z) :
  k = 0 \/ Z.of_nat (length l) <= k ->
  Js.slice l (- k) None = l.
Proof.
  intros Hk. unfold Js.slice, Js.rel_index.
  assert (Hstart : (if - k <? 0 then Z.max (Z.of_nat (length l) + - k) 0
                    else Z.min (- k) (Z.of_nat (length l))) = 0).
  { destruct (Z.ltb_spec (- k) 0); lia. }
  rewrite Hstart. change (Z.to_nat 0) with 0%nat. rewrite drop_0.
  apply take_ge. lia.
Qed.

(** The overlap is the whole chunk when the chunk has no more words
    than the overlap keeps, and when the overlap keeps none. *)
Lemma overlap_of_whole (overlap : Z) (currentChunk : string) :
  overlap / 10 = 0 \/
  Z.of_nat (length (split_on " " EmptyString currentChunk)) <= overlap / 10 ->
  overlap_of overlap currentChunk = currentChunk.
Proof.
  intros Hk. unfold overlap_of. cbv zeta.
  rewrite slice_whole by exact Hk. apply (split_on_join " " EmptyString).
Qed.

(** A state of the loop of [chunkText] that comes back unchanged: the
    sentence does not fit behind the chunk, and the overlap of the chunk
    is the chunk. *)
Lemma chunk_loop_stuck (fuel : nat) (sentences : list string)
    (maxChunkSize overlap : Z) (i : nat) (currentChunk raw : string)
    (chunks : list string) :
  sentences !! i = Some raw ->
  Js.truthy currentChunk = true ->
  maxChunkSize < len currentChunk + len (Js.trim raw) + 1 ->
  overlap_of overlap currentChunk = currentChunk ->
  chunk_loop fuel sentences maxChunkSize overlap i currentChunk chunks = None.
Proof.
  intros Hraw Htruthy Hfit Hoverlap. revert chunks.
  induction fuel as [| fuel IH]; intros chunks; cbn [chunk_loop];
    [reflexivity |].
  rewrite Hraw. cbv zeta.
  destruct (Z.leb_spec (len currentChunk + len (Js.trim raw) + 1) maxChunkSize);
    [lia |].
  rewrite Htruthy, Hoverlap. apply IH.
Qed.

(** X23.  [chunkText] does not return for a text whose first sentence
    fits in a chunk and has no more words than the overlap keeps (a
    tenth of [overlap], rounded down), or any number of words when the
    overlap keeps none, and whose second sentence does not fit behind
    it.  The loop pushes the first sentence as a chunk, takes the
    whole of it as the overlap and meets the second sentence again in
    the same state, so no number of turns ends it. *)
Theorem chunkText_does_not_end (text : string) (maxChunkSize overlap : Z)
    (first second : string) (rest : list string) :
  chunk_sentences text = first :: second :: rest ->
  len (Js.trim first) + 1 <= maxChunkSize ->
  maxChunkSize < len (Js.trim first) + len (Js.trim second) + 1 ->
  overlap / 10 = 0 \/
  Z.of_nat (length (split_on " " EmptyString (Js.trim first))) <= overlap / 10 ->
  forall fuel, chunkText fuel text maxChunkSize overlap = None.
Proof.
  intros Hsentences Hfirst Hsecond Hwords fuel.
  assert (Htruthy : Js.truthy (Js.trim first) = true).
  { assert (Hin : In first (chunk_sentences text))
      by (rewrite Hsentences; now left).
    unfold chunk_sentences in Hin. apply filter_In in Hin as [_ Hlen].
    apply truthy_len. rewrite Z.gtb_ltb in Hlen. now apply Z.ltb_lt in Hlen. }
  unfold chunkText. rewrite Hsentences.
  destruct fuel as [| fuel]; [reflexivity |].
  cbn [chunk_loop lookup list_lookup]. cbv zeta.
  change (len EmptyString) with 0.
  destruct (Z.leb_spec (0 + len (Js.trim first) + 1) maxChunkSize); [| lia].
  cbn [Js.truthy].
  change (EmptyString +:+ EmptyString +:+ Js.trim first) with (Js.trim first).
  rewrite (chunk_loop_stuck fuel (first :: second :: rest) maxChunkSize overlap
             1 (Js.trim first) second []);
    try reflexivity; try assumption.
  now apply overlap_of_whole.
Qed.

(** A short sentence, then one of 995 letters, with the sizes that
    [chunkText] has by default. *)
Lemma chunkText_does_not_end_witness :
  chunkText 2000 ("Markets. " +:+ xs 995) 1000 100 = None.
Proof.
  refine (chunkText_does_not_end ("Markets. " +:+ xs 995) 1000 100
            "Markets" (" " +:+ xs 995) [] _ _ _ _ 2000%nat).
  - vm_compute. reflexivity.
  - vm_compute. discriminate.
  - vm_compute. reflexivity.
  - right. vm_compute. discriminate.
Defined.

(** Sentences glued to a chunk that is not empty. *)
Lemma glue_join (sentences : list string) (currentChunk : string) :
  Js.truthy currentChunk = true ->
  fold_left (fun chunk raw =>
               chunk +:+ (if Js.truthy chunk then ". " else EmptyString) +:+
               Js.trim raw)
            sentences currentChunk
  = Js.join ". " (currentChunk :: map Js.trim sentences).
Proof.
  revert currentChunk.
  induction sentences as [| raw sentences IH]; intros currentChunk Htruthy.
  - reflexivity.
  - cbn [fold_left map]. rewrite Htruthy, IH.
    + change (Js.join ". " (currentChunk :: Js.trim raw :: map Js.trim sentences))
        with (currentChunk +:+ ". " +:+
              Js.join ". " (Js.trim raw :: map Js.trim sentences)).
      destruct (map Js.trim sentences) as [| p l].
      * cbn [Js.join]. reflexivity.
      * change (Js.join ". " ((currentChunk +:+ ". " +:+ Js.trim raw) :: p :: l))
          with ((currentChunk +:+ ". " +:+ Js.trim raw) +:+ ". " +:+
                Js.join ". " (p :: l)).
        change (Js.join ". " (Js.trim raw :: p :: l))
          with (Js.trim raw +:+ ". " +:+ Js.join ". " (p :: l)).
        now rewrite !append_assoc.
    + destruct currentChunk; [discriminate | reflexivity].
Qed.

Lemma glue_grows (sentences : list string) (currentChunk : string) :
  len currentChunk <=
  len (fold_left (fun chunk raw =>
                    chunk +:+ (if Js.truthy chunk then ". " else EmptyString) +:+
                    Js.trim raw)
                 sentences currentChunk).
Proof.
  revert currentChunk.
  induction sentences as [| raw sentences IH]; intros currentChunk;
    cbn [fold_left]; [lia |].
  etransitivity; [| apply IH]. rewrite !len_append.
  pose proof (len_nonneg (Js.trim raw)).
  pose proof (len_nonneg (if Js.truthy currentChunk then ". " else EmptyString)).
  lia.
Qed.

(** The loop of [chunkText] on sentences that all fit: they are glued
    to the chunk, and nothing is pushed. *)
Lemma chunk_loop_fits (remaining : list string) :
  forall (fuel : nat) (sentences : list string) (maxChunkSize overlap : Z)
         (i : nat) (currentChunk : string) (chunks : list string),
    drop i sentences = remaining ->
    (length remaining < fuel)%nat ->
    len (fold_left
           (fun chunk raw =>
              chunk +:+ (if Js.truthy chunk then ". " else EmptyString) +:+
              Js.trim raw)
           remaining currentChunk) + 1 <= maxChunkSize ->
    chunk_loop fuel sentences maxChunkSize overlap i currentChunk chunks
    = Some (fold_left
              (fun chunk raw =>
                 chunk +:+ (if Js.truthy chunk then ". " else EmptyString) +:+
                 Js.trim raw)
              remaining currentChunk, chunks).
Proof.
  induction remaining as [| raw remaining IH];
    intros fuel sentences maxChunkSize overlap i currentChunk chunks
           Hdrop Hfuel Hfit;
    (destruct fuel as [| fuel]; [cbn [length] in Hfuel; lia |]);
    cbn [chunk_loop].
  - assert (Hi : sentences !! i = None).
    { apply lookup_ge_None. apply drop_nil_inv in Hdrop. exact Hdrop. }
    rewrite Hi. reflexivity.
  - assert (Hi : sentences !! i = Some raw).
    { rewrite <- (Nat.add_0_r i), <- lookup_drop, Hdrop. reflexivity. }
    rewrite Hi. cbv zeta. cbn [fold_left] in Hfit |- *.
    pose proof (glue_grows remaining
                  (currentChunk +:+
                   (if Js.truthy currentChunk then ". " else EmptyString) +:+
                   Js.trim raw)) as Hgrow.
    rewrite !len_append in Hgrow.
    pose proof (len_nonneg (if Js.truthy currentChunk then ". " else EmptyString)).
    destruct (Z.leb_spec (len currentChunk + len (Js.trim raw) + 1) maxChunkSize);
      [| lia].
    apply IH.
    + replace (S i) with (i + 1)%nat by lia.
      rewrite <- (drop_drop sentences 1 i), Hdrop. reflexivity.
    + cbn [length] in Hfuel. lia.
    + exact Hfit.
Qed.

(** X24.  A text whose sentences, trimmed and joined with a period and
    a space, stay below [maxChunkSize] is one chunk: that text with a
    period at its end.  The loop takes one turn for each sentence. *)
Theorem chunkText_of_short_text (text : string) (maxChunkSize overlap : Z)
    (fuel : nat) :
  let sentences := chunk_sentences text in
  sentences <> [] ->
  len (Js.join ". " (map Js.trim sentences)) + 1 <= maxChunkSize ->
  (length sentences < fuel)%nat ->
  chunkText fuel text maxChunkSize overlap
  = Some [Js.join ". " (map Js.trim sentences) +:+ "."].
Proof.
  cbv zeta. intros Hne Hfit Hfuel. unfold chunkText.
  destruct (chunk_sentences text) as [| first rest] eqn:Hsentences;
    [contradiction |].
  assert (Htruthy : Js.truthy (Js.trim first) = true).
  { assert (Hin : In first (chunk_sentences text))
      by (rewrite Hsentences; now left).
    unfold chunk_sentences in Hin. apply filter_In in Hin as [_ Hlen].
    apply truthy_len. rewrite Z.gtb_ltb in Hlen. now apply Z.ltb_lt in Hlen. }
  assert (Hglue : fold_left
                    (fun chunk raw =>
                       chunk +:+ (if Js.truthy chunk then ". " else EmptyString) +:+
                       Js.trim raw)
                    (first :: rest) EmptyString
                  = Js.join ". " (map Js.trim (first :: rest))).
  { cbn [fold_left map Js.truthy].
    change (EmptyString +:+ EmptyString +:+ Js.trim first) with (Js.trim first).
    now apply glue_join. }
  rewrite (chunk_loop_fits (first :: rest) fuel (first :: rest) maxChunkSize
             overlap 0 EmptyString []);
    [| reflexivity | exact Hfuel | now rewrite Hglue].
  rewrite Hglue.
  destruct (Js.join ". " (map Js.trim (first :: rest))) eqn:Hjoin.
  - exfalso. cbn [map] in Hjoin.
    destruct (map Js.trim rest); cbn [Js.join] in Hjoin.
    + rewrite Hjoin in Htruthy. discriminate.
    + destruct (Js.trim first); discriminate.
  - reflexivity.
Qed.

Lemma chunkText_of_short_text_witness :
  chunkText 5 "Rates rose. Markets fell!  Why?" 1000 100
  = Some [Js.join ". "
            (map Js.trim (chunk_sentences "Rates rose. Markets fell!  Why?"))
          +:+ "."].
Proof.
  apply (chunkText_of_short_text "Rates rose. Markets fell!  Why?" 1000 100 5).
  - vm_compute. discriminate.
  - vm_compute. discriminate.
  - vm_compute. lia.
Defined.

Lemma len_trimStart (s : string) : len (Js.trimStart s) <= len s.
Proof.
  unfold len. induction s as [| c s IH]; cbn [Js.trimStart]; [lia |].
  destruct (Js.is_space c); cbn [String.length]; lia.
Qed.

Lemma len_trimEnd (s : string) : len (Js.trimEnd s) <= len s.
Proof.
  unfold len. induction s as [| c s IH]; cbn [Js.trimEnd]; [lia |].
  destruct (Js.trimEnd s); [destruct (Js.is_space c) |];
    cbn [String.length] in *; lia.
Qed.

Lemma len_trim (s : string) : len (Js.trim s) <= len s.
Proof.
  unfold Js.trim. pose proof (len_trimEnd (Js.trimStart s)).
  pose proof (len_trimStart s). lia.
Qed.

Lemma len_substring0 (n : nat) (s : string) :
  len (Js.substring0 n s) <= Z.of_nat n.
Proof.
  unfold len, Js.substring0. revert s.
  induction n as [| n IH]; intros s.
  - destruct s; cbn; lia.
  - destruct s as [| c s]; cbn [String.substring String.length]; [lia |].
    specialize (IH s). lia.
Qed.

Lemma summary_loop_length (sentences : list string) (maxLength : Z)
    (summary : string) :
  len summary <= maxLength + 2 ->
  len (summary_loop sentences maxLength summary) <= maxLength + 2.
Proof.
  revert summary.
  induction sentences as [| sentence sentences IH]; intros summary Hlen;
    cbn [summary_loop]; [exact Hlen |].
  rewrite Z.gtb_ltb.
  destruct (Z.ltb_spec maxLength (len summary + len sentence)); [exact Hlen |].
  apply IH. rewrite !len_append. pose proof (len_trim sentence).
  change (len ". ") with 2. lia.
Qed.

(** X25.  A summary made by [createSummary] is at most 3 characters
    longer than [maxLength]: the sentences it keeps end at most 2
    characters past it, and the cut it makes when it keeps no sentence
    is [maxLength] characters followed by three periods. *)
Theorem createSummary_length (content : string) (maxLength : Z) :
  0 <= maxLength ->
  len (createSummary content maxLength) <= maxLength + 3.
Proof.
  intros Hmax. unfold createSummary.
  destruct (Js.truthy content); cbn [negb]; [| change (len EmptyString) with 0; lia].
  cbv zeta.
  match goal with
  | |- context [summary_loop ?l maxLength EmptyString] =>
      pose proof (summary_loop_length l maxLength EmptyString) as Hloop;
      pose proof (len_trim (summary_loop l maxLength EmptyString)) as Htrim;
      destruct (Js.truthy (Js.trim (summary_loop l maxLength EmptyString)))
  end.
  - change (len EmptyString) with 0 in Hloop. lia.
  - rewrite len_append. change (len "...") with 3.
    pose proof (len_substring0 (Z.to_nat maxLength) content). lia.
Qed.

(** A text without a sentence of more than 10 characters, cut at 4. *)
Lemma createSummary_length_witness :
  len (createSummary "No. Yes. Maybe." 4) <= 4 + 3.
Proof.
  apply (createSummary_length "No. Yes. Maybe." 4). lia.
Defined.

(** A stream of two fragments that ends. *)
Lemma streaming_integrity_without_midstream_failure_witness :
  let run := @processQueryWithStreaming sample_host calm_world "rates" "s"
               fresh_machine in
  exists result before,
    trace (fst run) = trace fresh_machine ++ before ++ [EvOnComplete result] /\
    completions before = [] /\
    concat_strings (fragments before) = response result.
Proof.
  apply (@streaming_integrity_without_midstream_failure sample_host calm_world
           "rates" "s" fresh_machine _ tt).
  - intros prompt. left. reflexivity.
  - vm_compute. reflexivity.
Defined.
